(** * Blocknet governance (src/governance/governance.h): a shallow embedding

    The development follows the header top-down: integer and stream
    primitives, the chain types the governance code consumes, [Proposal],
    [Vote], [Tally], the [Governance] state store with its queries and
    mutators, block extraction ([dataFromBlock]), tallying, payee selection
    and superblock validation, and the connect / disconnect handlers.
    Theorems come after all definitions. *)

From Stdlib Require Import ZArith QArith Lia List Bool Permutation Sorted.
From Stdlib.Strings Require Import Byte Ascii String.
From stdpp Require Import base option gmap fin_maps.
Import ListNotations.

Local Open Scope Z_scope.

(** ** Machine integers

    [int] is 32-bit and [CAmount] / [int64_t] 64-bit two's complement; the
    result of an arithmetic operation is brought back into range by
    [to_int32] / [to_int64]. *)

Definition wrap_signed (bits : Z) (z : Z) : Z :=
  (z + 2 ^ (bits - 1)) mod 2 ^ bits - 2 ^ (bits - 1).

Definition to_int32 (z : Z) : Z := wrap_signed 32 z.
Definition to_int64 (z : Z) : Z := wrap_signed 64 z.
Definition to_uint32 (z : Z) : Z := z mod 2 ^ 32.

Definition INT32_MAX : Z := 2 ^ 31 - 1.
Definition INT64_MAX : Z := 2 ^ 63 - 1.

Definition in_int32 (z : Z) : Prop := - 2 ^ 31 <= z <= INT32_MAX.
Definition in_int64 (z : Z) : Prop := - 2 ^ 63 <= z <= INT64_MAX.

(** ** Byte streams

    Modelled from the spec: the stream primitives of serialize.h and
    streams.h are not among the sources; the spec fixes them as
    "fixed little-endian integers and length-prefixed byte strings
    (variable-length integer prefix, then raw bytes)".  The prefix is the
    chain's compact-size integer. *)

Definition byte_of_Z (z : Z) : byte :=
  match Byte.of_N (Z.to_N (z mod 256)) with
  | Some b => b
  | None => x00
  end.

Definition Z_of_byte (b : byte) : Z := Z.of_N (Byte.to_N b).

Fixpoint ser_le (n : nat) (z : Z) : list byte :=
  match n with
  | O => []
  | S n' => byte_of_Z z :: ser_le n' (Z.shiftr z 8)
  end.

Fixpoint le_decode (bs : list byte) : Z :=
  match bs with
  | [] => 0
  | b :: bs' => Z_of_byte b + 256 * le_decode bs'
  end.

Definition ser_uint8 (z : Z) : list byte := ser_le 1 z.
Definition ser_int32 (z : Z) : list byte := ser_le 4 z.
Definition ser_uint32 (z : Z) : list byte := ser_le 4 z.
Definition ser_int64 (z : Z) : list byte := ser_le 8 z.

Definition WriteCompactSize (n : Z) : list byte :=
  if n <? 253 then ser_le 1 n
  else if n <=? 65535 then byte_of_Z 253 :: ser_le 2 n
  else if n <=? 4294967295 then byte_of_Z 254 :: ser_le 4 n
  else byte_of_Z 255 :: ser_le 8 n.

Definition ser_bytes (bs : list byte) : list byte :=
  WriteCompactSize (Z.of_nat (List.length bs)) ++ bs.

Definition ser_string (s : string) : list byte :=
  ser_bytes (list_byte_of_string s).

(** A [uint256] (and the 160-bit [CKeyID]) is a blob of raw bytes whose
    [operator<] compares the bytes from the first one on.  It is modelled by
    the integer that reads those bytes most significant first, so that the
    blob order is the order of [Z]. *)
Definition ser_uint256 (h : Z) : list byte := rev (ser_le 32 h).

(** [UintToArith256]: the same 32 bytes read as a little-endian number. *)
Definition UintToArith256 (h : Z) : Z := le_decode (ser_uint256 h).

(** Reading: a short read raises [std::ios_base::failure]; a reader returns
    [None] for it, and the value with the rest of the stream otherwise. *)
Definition Reader (A : Type) : Type := list byte -> option (A * list byte).

Definition rd_ret {A} (a : A) : Reader A := fun s => Some (a, s).

Definition rd_bind {A B} (r : Reader A) (k : A -> Reader B) : Reader B :=
  fun s => match r s with
           | Some (a, s') => k a s'
           | None => None
           end.

Notation "'rdo' x <~ r ; k" := (rd_bind r (fun x => k))
  (at level 10, x name, r at level 100, k at level 200).

Definition read_raw (n : nat) : Reader (list byte) :=
  fun s => if (n <=? List.length s)%nat
           then Some (firstn n s, skipn n s) else None.

Definition read_le (n : nat) : Reader Z :=
  rdo bs <~ read_raw n ; rd_ret (le_decode bs).

Definition read_uint8 : Reader Z := read_le 1.
Definition read_int32 : Reader Z := rdo v <~ read_le 4 ; rd_ret (to_int32 v).
Definition read_uint32 : Reader Z := read_le 4.
Definition read_int64 : Reader Z := rdo v <~ read_le 8 ; rd_ret (to_int64 v).

Definition MAX_SIZE : Z := 33554432.

Definition rd_fail {A} : Reader A := fun _ => None.

Definition ReadCompactSize : Reader Z :=
  rdo ch <~ read_uint8 ;
  rdo n <~ (if ch <? 253 then rd_ret ch
            else if ch =? 253 then
              (rdo v <~ read_le 2 ; if v <? 253 then rd_fail else rd_ret v)
            else if ch =? 254 then
              (rdo v <~ read_le 4 ; if v <? 65536 then rd_fail else rd_ret v)
            else
              (rdo v <~ read_le 8 ;
               if v <? 4294967296 then rd_fail else rd_ret v)) ;
  if MAX_SIZE <? n then rd_fail else rd_ret n.

Definition read_bytes : Reader (list byte) :=
  rdo n <~ ReadCompactSize ; read_raw (Z.to_nat n).

Definition read_string : Reader string :=
  rdo bs <~ read_bytes ; rd_ret (string_of_list_byte bs).

Definition read_uint256 : Reader Z :=
  rdo bs <~ read_raw 32 ; rd_ret (le_decode (rev bs)).

Fixpoint bytes_eqb (a b : list byte) : bool :=
  match a, b with
  | [], [] => true
  | x :: a', y :: b' => Byte.eqb x y && bytes_eqb a' b'
  | _, _ => false
  end.

(** ** Chain types consumed by the governance code *)

Record COutPoint := { op_hash : Z; op_n : Z }.

Definition COutPoint_key (o : COutPoint) : Z * Z := (op_hash o, op_n o).

Definition COutPoint_eqb (a b : COutPoint) : bool :=
  (op_hash a =? op_hash b) && (op_n a =? op_n b).

Definition ser_COutPoint (o : COutPoint) : list byte :=
  ser_uint256 (op_hash o) ++ ser_uint32 (op_n o).

Definition read_COutPoint : Reader COutPoint :=
  rdo h <~ read_uint256 ;
  rdo k <~ read_uint32 ;
  rd_ret {| op_hash := h; op_n := k |}.

Record CTxIn := { prevout : COutPoint }.

Record CTxOut := { nValue : Z; scriptPubKey : list byte }.

Definition CTxOut_eqb (a b : CTxOut) : bool :=
  (nValue a =? nValue b) && bytes_eqb (scriptPubKey a) (scriptPubKey b).

(** [tx_GetHash] is the cached transaction hash and [IsCoinBase] the result
    of the method of that name. *)
Record CTransaction := {
  tx_GetHash : Z;
  vin : list CTxIn;
  vout : list CTxOut;
  IsCoinBase : bool
}.

Record CBlock := {
  vtx : list CTransaction;
  GetBlockTime : Z;
  IsProofOfStake : bool
}.

Module Consensus.
Record Params := {
  superblock : Z;
  governanceBlock : Z;
  proposalCutoff : Z;
  votingCutoff : Z;
  proposalMinAmount : Z;
  proposalMaxAmount : Z;
  voteMinUtxoAmount : Z;
  voteBalance : Z;
  GetBlockSubsidy : Z -> Z
}.
End Consensus.

(** A destination is no destination or the key id it pays to. *)
Definition CTxDestination : Type := option Z.

(** Collaborators outside the header: the hasher, signature recovery, key
    ids, the transaction index, the utxo view, the address codec, and the
    relay limit of policy.h. *)
Class Externals := {
  Hash256 : list byte -> Z;
  RecoverCompact : Z -> list byte -> list byte;
  GetID : list byte -> Z;
  GetTransaction : Z -> option CTransaction;
  ExtractDestination : list byte -> option Z;
  DecodeDestination : string -> CTxDestination;
  GetScriptForDestination : CTxDestination -> list byte;
  MAX_OP_RETURN_RELAY : Z;
  GetCoin : COutPoint -> bool;
  MempoolGetCoin : COutPoint -> bool;
  mempool_isSpent : COutPoint -> bool
}.

Definition IsValidDestination (d : CTxDestination) : bool :=
  match d with Some _ => true | None => false end.

Definition NONE : Z := 0.
Definition PROPOSAL : Z := 1.
Definition VOTE : Z := 2.

Definition NETWORK_VERSION : Z := 1.
Definition VINHASH_SIZE : nat := 12.

Section Helpers.
Context `{Ext : Externals}.

Definition makeVinHash (po : COutPoint) : list byte :=
  firstn VINHASH_SIZE (ser_uint256 (Hash256 (ser_COutPoint po))).

(** Returns the key id and the transaction found, as the two out
    parameters of the source. *)
Definition GetKeyIDForUTXO (utxo : COutPoint) : option (CTransaction * Z) :=
  match GetTransaction (op_hash utxo) with
  | None => None
  | Some tx =>
      if Z.of_nat (List.length (vout tx)) <=? op_n utxo then None
      else
        match nth_error (vout tx) (Z.to_nat (op_n utxo)) with
        | None => None
        | Some o =>
            match ExtractDestination (scriptPubKey o) with
            | None => None
            | Some keyid => Some (tx, keyid)
            end
        end
  end.
End Helpers.

(** ** NetworkObject *)
Module NetworkObject.
Record t := { version : Z; type : Z }.

Definition isValid (o : t) : bool := version o =? NETWORK_VERSION.

Definition getType (o : t) : Z := type o.

Definition Unserialize : Reader t :=
  rdo v <~ read_uint8 ;
  rdo ty <~ read_uint8 ;
  rd_ret {| version := v; type := ty |}.
End NetworkObject.

(** ** Proposal *)
Module Proposal.
Record t := {
  version : Z;
  type : Z;
  name : string;
  superblock : Z;
  amount : Z;
  address : string;
  url : string;
  description : string;
  blockNumber : Z
}.

(** [Proposal(int blockNumber)] and the member initialisers. *)
Definition init (bn : Z) : t :=
  {| version := NETWORK_VERSION; type := PROPOSAL; name := EmptyString;
     superblock := 0; amount := 0; address := EmptyString;
     url := EmptyString; description := EmptyString; blockNumber := bn |}.

Definition isNull (p : t) : bool := superblock p =? 0.

(** The stream fed to the hasher by [getHash], and to the size check of
    [isValid]. *)
Definition hash_stream (p : t) : list byte :=
  ser_uint8 (version p) ++ ser_uint8 (type p) ++ ser_string (name p)
  ++ ser_int32 (superblock p) ++ ser_int64 (amount p)
  ++ ser_string (address p) ++ ser_string (url p)
  ++ ser_string (description p).

(** [SerializationOp], writing. *)
Definition Serialize (p : t) : list byte :=
  ser_uint8 (version p) ++ ser_uint8 (type p)
  ++ ser_int32 (superblock p) ++ ser_int64 (amount p)
  ++ ser_string (address p) ++ ser_string (name p) ++ ser_string (url p)
  ++ ser_string (description p).

(** [SerializationOp], reading into an existing object: the memory-only
    [blockNumber] is kept. *)
Definition Unserialize (p : t) : Reader t :=
  rdo v <~ read_uint8 ;
  rdo ty <~ read_uint8 ;
  rdo sb <~ read_int32 ;
  rdo am <~ read_int64 ;
  rdo ad <~ read_string ;
  rdo nm <~ read_string ;
  rdo u <~ read_string ;
  rdo d <~ read_string ;
  rd_ret {| version := v; type := ty; name := nm; superblock := sb;
            amount := am; address := ad; url := u; description := d;
            blockNumber := blockNumber p |}.

(** The regular expression [^\w+[\w\-_ ]*\w+$] of [isValid]: a first and
    a last word character with word characters, dashes and blanks in
    between. *)
Definition is_word (c : ascii) : bool :=
  let k := Z.of_N (N_of_ascii c) in
  ((48 <=? k) && (k <=? 57)) || ((65 <=? k) && (k <=? 90))
  || ((97 <=? k) && (k <=? 122)) || (k =? 95).

Definition is_name_char (c : ascii) : bool :=
  let k := Z.of_N (N_of_ascii c) in
  is_word c || (k =? 45) || (k =? 32).

Definition rrname (s : string) : bool :=
  match list_ascii_of_string s with
  | [] => false
  | c :: rest =>
      match rev rest with
      | [] => false
      | l :: mid => is_word c && is_word l && forallb is_name_char mid
      end
  end.

Section WithExternals.
Context `{Ext : Externals}.

Definition getHash (p : t) : Z := Hash256 (hash_stream p).

Definition isValid (p : t) (params : Consensus.Params) : bool :=
  if negb (rrname (name p)) then false
  else if negb (Z.rem (superblock p) (Consensus.superblock params) =? 0)
  then false
  else if negb ((Consensus.proposalMinAmount params <=? amount p)
                && (amount p <=?
                    Z.min (Consensus.proposalMaxAmount params)
                          (Consensus.GetBlockSubsidy params (superblock p))))
  then false
  else if negb (IsValidDestination (DecodeDestination (address p)))
  then false
  else if negb (type p =? PROPOSAL) then false
  else if negb (version p =? NETWORK_VERSION) then false
  else
    let maxBytes := to_int32 (MAX_OP_RETURN_RELAY - 3) in
    (* [ss.size() > maxBytes]: the [int] is converted to [size_t] *)
    if maxBytes mod 2 ^ 64 <? Z.of_nat (List.length (hash_stream p)) then false
    else true.
End WithExternals.
End Proposal.

Definition NO : Z := 0.
Definition YES : Z := 1.
Definition ABSTAIN : Z := 2.

(** ** Vote *)
Module Vote.
Record t := {
  version : Z;
  type : Z;
  proposal : Z;
  vote : Z;
  vinhash : list byte;
  signature : list byte;
  utxo : COutPoint;
  pubkey : list byte;
  outpoint : COutPoint;
  time : Z;
  amount : Z;
  keyid : Z;
  blockNumber : Z;
  spentBlock : Z;
  spentHash : Z
}.

Definition null_outpoint : COutPoint :=
  {| op_hash := 0; op_n := 4294967295 |}.

(** [Vote(outpoint, time, blockNumber)] and the member initialisers;
    [Vote()] is [init null_outpoint 0 0]. *)
Definition init (o : COutPoint) (tm bn : Z) : t :=
  {| version := NETWORK_VERSION; type := VOTE; proposal := 0;
     vote := ABSTAIN; vinhash := repeat x00 VINHASH_SIZE; signature := [];
     utxo := null_outpoint; pubkey := []; outpoint := o; time := tm;
     amount := 0; keyid := 0; blockNumber := bn; spentBlock := 0;
     spentHash := 0 |}.

Definition set_spent (v : t) (sb sh : Z) : t :=
  {| version := version v; type := type v; proposal := proposal v;
     vote := vote v; vinhash := vinhash v; signature := signature v;
     utxo := utxo v; pubkey := pubkey v; outpoint := outpoint v;
     time := time v; amount := amount v; keyid := keyid v;
     blockNumber := blockNumber v; spentBlock := sb; spentHash := sh |}.

Definition spend (v : t) (block txhash : Z) : t := set_spent v block txhash.

(** The vote after the call, and the value returned. *)
Definition unspend (v : t) (block txhash : Z) : t * bool :=
  if (spentBlock v =? block) && (spentHash v =? txhash)
  then (set_spent v 0 0, true)
  else (v, false).

Definition spent (v : t) : bool := 0 <? spentBlock v.

Definition getVote (v : t) : Z := vote v.

Definition isValidVoteType (voteType : Z) : bool :=
  (NO <=? voteType) && (voteType <=? ABSTAIN).

(** The streams fed to the hasher by [getHash] and [sigHash]. *)
Definition hash_stream (v : t) : list byte :=
  ser_uint8 (version v) ++ ser_uint8 (type v) ++ ser_uint256 (proposal v)
  ++ ser_COutPoint (utxo v).

Definition sig_stream (v : t) : list byte :=
  ser_uint8 (version v) ++ ser_uint8 (type v) ++ ser_uint256 (proposal v)
  ++ ser_uint8 (vote v) ++ ser_COutPoint (utxo v) ++ vinhash v.

Definition Serialize (v : t) : list byte :=
  ser_uint8 (version v) ++ ser_uint8 (type v) ++ ser_uint256 (proposal v)
  ++ ser_uint8 (vote v) ++ ser_COutPoint (utxo v) ++ vinhash v
  ++ ser_bytes (signature v).

Section WithExternals.
Context `{Ext : Externals}.

Definition getHash (v : t) : Z := Hash256 (hash_stream v).

Definition sigHash (v : t) : Z := Hash256 (sig_stream v).

Definition loadKeyID (v : t) : t :=
  match GetKeyIDForUTXO (utxo v) with
  | Some (tx, kid) =>
      let am :=
        match nth_error (vout tx) (Z.to_nat (op_n (utxo v))) with
        | Some o => nValue o
        | None => amount v
        end in
      {| version := version v; type := type v; proposal := proposal v;
         vote := vote v; vinhash := vinhash v; signature := signature v;
         utxo := utxo v; pubkey := pubkey v; outpoint := outpoint v;
         time := time v; amount := am; keyid := kid;
         blockNumber := blockNumber v; spentBlock := spentBlock v;
         spentHash := spentHash v |}
  | None => v
  end.

(** [SerializationOp], reading into an existing object; the memory-only
    [pubkey], [keyid] and [amount] are assigned at the end. *)
Definition Unserialize (v : t) : Reader t :=
  rdo ver <~ read_uint8 ;
  rdo ty <~ read_uint8 ;
  rdo pr <~ read_uint256 ;
  rdo vo <~ read_uint8 ;
  rdo ut <~ read_COutPoint ;
  rdo vh <~ read_raw VINHASH_SIZE ;
  rdo sg <~ read_bytes ;
  let v1 :=
    {| version := ver; type := ty; proposal := pr; vote := vo;
       vinhash := vh; signature := sg; utxo := ut; pubkey := pubkey v;
       outpoint := outpoint v; time := time v; amount := amount v;
       keyid := keyid v; blockNumber := blockNumber v;
       spentBlock := spentBlock v; spentHash := spentHash v |} in
  let v2 :=
    {| version := ver; type := ty; proposal := pr; vote := vo;
       vinhash := vh; signature := sg; utxo := ut;
       pubkey := RecoverCompact (sigHash v1) sg;
       outpoint := outpoint v; time := time v; amount := amount v;
       keyid := keyid v; blockNumber := blockNumber v;
       spentBlock := spentBlock v; spentHash := spentHash v |} in
  rd_ret (loadKeyID v2).

Definition isValid (v : t) (params : Consensus.Params) : bool :=
  if negb ((version v =? NETWORK_VERSION) && (type v =? VOTE)
           && isValidVoteType (vote v)) then false
  else if amount v <? Consensus.voteMinUtxoAmount params then false
  else if keyid v =? 0 then false
  else if negb (GetID (pubkey v) =? keyid v) then false
  else true.

Definition isValid_vin (v : t) (vinHashes : list (list byte))
           (params : Consensus.Params) : bool :=
  if negb (isValid v params) then false
  else existsb (bytes_eqb (vinhash v)) vinHashes.

Definition IsVoteSpent (v : t) (mempoolCheck : bool) : bool :=
  if mempoolCheck
  then negb (MempoolGetCoin (utxo v)) || mempool_isSpent (utxo v)
  else negb (GetCoin (utxo v)).
End WithExternals.
End Vote.

(** ** Tally *)
Record Tally := {
  cyes : Z;
  cno : Z;
  cabstain : Z;
  yes : Z;
  no : Z;
  abstain : Z
}.

Definition Tally_init : Tally :=
  {| cyes := 0; cno := 0; cabstain := 0; yes := 0; no := 0; abstain := 0 |}.

Definition netyes (t : Tally) : Z := to_int32 (yes t - no t).

(** ** Ordered containers

    [std::set<T>] and [std::map<K, V>] keep their elements in key order and
    hold one element per key; they are lists in iteration order.  [T] is
    [Proposal] or [Vote], ordered by [getHash]. *)
Section Ordered.
Context {A : Type} (key : A -> Z).

(** [std::set::insert]: an element whose key is present already is not
    replaced. *)
Fixpoint set_insert (x : A) (s : list A) : list A :=
  match s with
  | [] => [x]
  | y :: s' =>
      if key x <? key y then x :: y :: s'
      else if key y <? key x then y :: set_insert x s'
      else y :: s'
  end.

Fixpoint set_find (x : A) (s : list A) : option A :=
  match s with
  | [] => None
  | y :: s' =>
      if key x <? key y then None
      else if key y <? key x then set_find x s'
      else Some y
  end.

Definition set_count (x : A) (s : list A) : bool :=
  match set_find x s with Some _ => true | None => false end.

(** The order a [std::set] keeps. *)
Definition key_sorted (s : list A) : Prop :=
  StronglySorted (fun a b => key a < key b) s.

(** [insert(first, last)] *)
Definition set_insert_range (xs : list A) (s : list A) : list A :=
  fold_left (fun acc x => set_insert x acc) xs s.

Context {V : Type}.

Fixpoint map_find (k : A) (m : list (A * V)) : option V :=
  match m with
  | [] => None
  | (k', v) :: m' =>
      if key k <? key k' then None
      else if key k' <? key k then map_find k m'
      else Some v
  end.

(** [m[k] = v]: the stored key object is kept when the key is present. *)
Fixpoint map_assign (k : A) (v : V) (m : list (A * V)) : list (A * V) :=
  match m with
  | [] => [(k, v)]
  | (k', v') :: m' =>
      if key k <? key k' then (k, v) :: (k', v') :: m'
      else if key k' <? key k then (k', v') :: map_assign k v m'
      else (k', v) :: m'
  end.
End Ordered.

(** [std::sort] with comparator [lt]: a sorted rearrangement.  Elements that
    the comparator does not separate come out in an unspecified order in the
    source; the model keeps them in input order. *)
Section Sort.
Context {A : Type} (lt : A -> A -> bool).

Fixpoint sort_insert (x : A) (l : list A) : list A :=
  match l with
  | [] => [x]
  | y :: l' => if lt y x then y :: sort_insert x l' else x :: y :: l'
  end.

Definition std_sort (l : list A) : list A :=
  fold_right sort_insert [] l.
End Sort.

(** ** Script walking

    Modelled from the spec: [CScript::GetOp] (script.h) is not among the
    sources; the spec speaks of "the single-byte OP_RETURN opcode followed by
    one push-data operation", which is the push encoding of the chain's
    script language: opcodes below OP_PUSHDATA1 push that many bytes,
    OP_PUSHDATA1/2/4 read a 1/2/4-byte little-endian length first.  The
    result is the opcode, the pushed data and the rest of the script, or
    [None] when the script ends inside an operation. *)
Definition OP_PUSHDATA1 : Z := 76.
Definition OP_PUSHDATA2 : Z := 77.
Definition OP_PUSHDATA4 : Z := 78.
Definition OP_RETURN : Z := 106.

Definition GetOp (pc : list byte) : option (Z * list byte * list byte) :=
  match pc with
  | [] => None
  | b :: pc1 =>
      let opcode := Z_of_byte b in
      if opcode <=? OP_PUSHDATA4 then
        let lenbytes : nat :=
          if opcode <? OP_PUSHDATA1 then 0%nat
          else if opcode =? OP_PUSHDATA1 then 1%nat
          else if opcode =? OP_PUSHDATA2 then 2%nat
          else 4%nat in
        if (List.length pc1 <? lenbytes)%nat then None
        else
          let nSize :=
            if opcode <? OP_PUSHDATA1 then opcode
            else le_decode (firstn lenbytes pc1) in
          let pc2 := skipn lenbytes pc1 in
          if Z.of_nat (List.length pc2) <? nSize then None
          else Some (opcode, firstn (Z.to_nat nSize) pc2,
                     skipn (Z.to_nat nSize) pc2)
      else Some (opcode, [], pc1)
  end.

(** The [while (pc < end)] loop of [dataFromBlock] over one script, with the
    test that follows it: the first push-data that is not empty, if any.
    Every successful [GetOp] consumes a byte, so the script's length bounds
    the number of iterations. *)
Fixpoint script_data_loop (fuel : nat) (pc : list byte) : option (list byte) :=
  match fuel with
  | O => None
  | S fuel' =>
      match pc with
      | [] => None
      | _ =>
          match GetOp pc with
          | None => None
          | Some (opcode, data, pc') =>
              let checkdata :=
                ((opcode =? OP_PUSHDATA1) || (opcode =? OP_PUSHDATA2)
                 || (opcode =? OP_PUSHDATA4))
                || ((opcode <? OP_PUSHDATA1)
                    && (opcode =? Z.of_nat (List.length data))) in
              match data with
              | _ :: _ => if checkdata then Some data
                          else script_data_loop fuel' pc'
              | [] => script_data_loop fuel' pc'
              end
          end
      end
  end.

Definition script_data (script : list byte) : option (list byte) :=
  script_data_loop (List.length script) script.

(** ** Superblock heights and vote kinds as strings *)

(** [NextSuperblock]; [chainHeight] is [chainActive.Height()], read when
    [fromBlock] is 0. *)
Definition NextSuperblock (params : Consensus.Params) (fromBlock chainHeight : Z) : Z :=
  let from := if fromBlock =? 0 then chainHeight else fromBlock in
  to_int32 (to_int32 (from - Z.rem from (Consensus.superblock params))
            + Consensus.superblock params).

Definition PreviousSuperblock (params : Consensus.Params) (fromBlock chainHeight : Z) : Z :=
  let nextSuperblock := NextSuperblock params fromBlock chainHeight in
  to_int32 (nextSuperblock - Consensus.superblock params).

(** [boost::to_lower] in the classic locale: the letters A to Z. *)
Definition to_lower_ascii (c : ascii) : ascii :=
  let k := N_of_ascii c in
  if ((65 <=? k) && (k <=? 90))%N then ascii_of_N (k + 32) else c.

Fixpoint to_lower (s : string) : string :=
  match s with
  | EmptyString => EmptyString
  | String c s' => String (to_lower_ascii c) (to_lower s')
  end.

(** [Vote::voteTypeForString]: the value returned and [voteType] after the
    call. *)
Definition voteTypeForString (strVote : string) (voteType : Z) : bool * Z :=
  let strVote := to_lower strVote in
  if String.eqb strVote "yes" then (true, YES)
  else if String.eqb strVote "no" then (true, NO)
  else if String.eqb strVote "abstain" then (true, ABSTAIN)
  else (false, voteType).

(** [Vote::voteTypeToString]: the string returned and [*valid] after the
    call ([None] for a null pointer).  The two assignments to [*valid] are
    those of the source, in its order. *)
Definition voteTypeToString (voteType : Z) (valid : option bool) : string * option bool :=
  let '(strVote, valid) :=
    if voteType =? YES then ("yes"%string, valid)
    else if voteType =? NO then ("no"%string, valid)
    else if voteType =? ABSTAIN then ("abstain"%string, valid)
    else (EmptyString, match valid with Some _ => Some false | None => None end) in
  let valid := match valid with Some _ => Some true | None => None end in
  (strVote, valid).

(** Exceptions: a call returns or throws.  [dataFromBlock], [processBlock]
    and the two event handlers contain no handler; the only [try] blocks of
    the header are in [loadGovernanceData], around the start of its worker
    threads. *)
Inductive Exc (A : Type) : Type :=
| Return (a : A)
| Throw.
Arguments Return {A} a.
Arguments Throw {A}.

Definition exc_bind {A B} (c : Exc A) (k : A -> Exc B) : Exc B :=
  match c with
  | Return a => k a
  | Throw => Throw
  end.

(** [ss >> obj] on a fresh stream over [data]. *)
Definition stream_read {A} (r : Reader A) (data : list byte) : Exc A :=
  match r data with
  | Some (a, _) => Return a
  | None => Throw
  end.

(** ** Governance: the state store *)
Module Governance.

(** The three [unordered_map]s guarded by [mu]. *)
Record State := {
  proposals : gmap Z Proposal.t;
  votes : gmap Z Vote.t;
  sbvotes : gmap Z (gmap Z Vote.t)
}.

Definition reset : State :=
  {| proposals := ∅; votes := ∅; sbvotes := ∅ |}.

(** A [Vote*] into [sbvotes]: the superblock and the vote hash of the
    entry pointed to. *)
Definition VotePtr : Type := Z * Z.

Definition deref (st : State) (ptr : VotePtr) : option Vote.t :=
  match sbvotes st !! fst ptr with
  | Some vs => vs !! snd ptr
  | None => None
  end.

Definition store (st : State) (ptr : VotePtr) (v : Vote.t) : State :=
  match sbvotes st !! fst ptr with
  | Some vs =>
      {| proposals := proposals st; votes := votes st;
         sbvotes := <[fst ptr := <[snd ptr := v]> vs]> (sbvotes st) |}
  | None => st
  end.

(** The order in which a range-for goes through an [unordered_map] is not
    specified; the model goes through it in the order of [map_to_list]. *)
Definition items {V} (m : gmap Z V) : list (Z * V) := map_to_list m.

Section WithExternals.
Context `{Ext : Externals}.

Definition hasProposal (st : State) (hash : Z) : bool :=
  bool_decide (is_Some (proposals st !! hash)).

Definition hasProposal_before (st : State) (hash blockNumber : Z) : bool :=
  match proposals st !! hash with
  | Some p => Proposal.blockNumber p <? blockNumber
  | None => false
  end.

Definition hasVote (st : State) (hash : Z) : bool :=
  bool_decide (is_Some (votes st !! hash)).

Definition getProposal (st : State) (hash : Z) : Proposal.t :=
  match proposals st !! hash with
  | Some p => p
  | None => Proposal.init 0
  end.

Definition getVote (st : State) (hash : Z) : Vote.t :=
  match votes st !! hash with
  | Some v => v
  | None => Vote.init Vote.null_outpoint 0 0
  end.

Definition getProposals (st : State) : list Proposal.t :=
  List.map snd (items (proposals st)).

Definition getProposals_sb (st : State) (superblock : Z) : list Proposal.t :=
  List.filter (fun p => Proposal.superblock p =? superblock)
              (List.map snd (items (proposals st))).

Definition getProposalsSince (st : State) (since : Z) : list Proposal.t :=
  List.filter (fun p => since <=? Proposal.superblock p)
              (List.map snd (items (proposals st))).

Definition getVotes (st : State) : list Vote.t :=
  List.filter (fun v => negb (Vote.spent v))
              (List.map snd (items (votes st))).

Definition getVotes_proposal (st : State) (proposalHash : Z) : list Vote.t :=
  match proposals st !! proposalHash with
  | None => []
  | Some proposal =>
      match sbvotes st !! Proposal.superblock proposal with
      | None => []
      | Some vs =>
          List.filter (fun v => (Vote.proposal v =? proposalHash)
                                && negb (Vote.spent v))
                      (List.map snd (items vs))
      end
  end.

Definition getMutableSBVotes (st : State) (proposalHash : Z) : list VotePtr :=
  match proposals st !! proposalHash with
  | None => []
  | Some proposal =>
      match sbvotes st !! Proposal.superblock proposal with
      | None => []
      | Some vs =>
          List.map (fun item => (Proposal.superblock proposal, fst item))
            (List.filter (fun item => (Vote.proposal (snd item) =? proposalHash)
                                      && negb (Vote.spent (snd item)))
                         (items vs))
      end
  end.

Definition getVotes_sb (st : State) (superblock : Z) : list Vote.t :=
  match sbvotes st !! superblock with
  | None => []
  | Some vs =>
      List.filter (fun v => negb (Vote.spent v)) (List.map snd (items vs))
  end.

(** [votes[k]]: [operator[]] default-constructs a missing entry. *)
Definition votes_at (st : State) (k : Z) : Vote.t :=
  default (Vote.init Vote.null_outpoint 0 0) (votes st !! k).

Definition set_votes (st : State) (m : gmap Z Vote.t) : State :=
  {| proposals := proposals st; votes := m; sbvotes := sbvotes st |}.

Definition set_sbvotes (st : State) (m : gmap Z (gmap Z Vote.t)) : State :=
  {| proposals := proposals st; votes := votes st; sbvotes := m |}.

Definition set_proposals (st : State) (m : gmap Z Proposal.t) : State :=
  {| proposals := m; votes := votes st; sbvotes := sbvotes st |}.

(** [spendVote(Vote *vote, ...)] *)
Definition spendVote (st : State) (vote : VotePtr) (block txhash : Z) : State :=
  match deref st vote with
  | None => st
  | Some v =>
      match proposals st !! Vote.proposal v with
      | None => st
      | Some p =>
          if Proposal.superblock p <? block then st
          else
            let v' := Vote.spend v block txhash in
            let st1 := store st vote v' in
            let vv := votes_at st1 (Vote.getHash v') in
            set_votes st1 (<[Vote.getHash v' := Vote.spend vv block txhash]>
                             (votes st1))
      end
  end.

(** [spendVote(Vote & vote, ...)]: the vote passed by reference is
    returned with the state. *)
Definition spendVote_ref (st : State) (vote : Vote.t) (block txhash : Z)
  : Vote.t * State :=
  match proposals st !! Vote.proposal vote with
  | None => (vote, st)
  | Some p =>
      if Proposal.superblock p <? block then (vote, st)
      else
        let vote' := Vote.spend vote block txhash in
        match sbvotes st !! Proposal.superblock p with
        | None => (vote', st)
        | Some mv =>
            match mv !! Vote.getHash vote' with
            | None => (vote', st)
            | Some v =>
                (vote',
                 set_sbvotes st
                   (<[Proposal.superblock p :=
                        <[Vote.getHash vote' := Vote.spend v block txhash]> mv]>
                      (sbvotes st)))
            end
        end
  end.

(** [unspendVote(Vote *vote, ...)] *)
Definition unspendVote (st : State) (vote : VotePtr) (block txhash : Z) : State :=
  match deref st vote with
  | None => st
  | Some v =>
      match proposals st !! Vote.proposal v with
      | None => st
      | Some p =>
          if Proposal.superblock p <? block then st
          else
            let v' := fst (Vote.unspend v block txhash) in
            let st1 := store st vote v' in
            let voteHash := Vote.getHash v' in
            match votes st1 !! voteHash with
            | Some vv =>
                set_votes st1 (<[voteHash := fst (Vote.unspend vv block txhash)]>
                                 (votes st1))
            | None => st1
            end
      end
  end.

(** [unspendVote(Vote & vote, ...)] *)
Definition unspendVote_ref (st : State) (vote : Vote.t) (block txhash : Z)
  : Vote.t * State :=
  match proposals st !! Vote.proposal vote with
  | None => (vote, st)
  | Some p =>
      if Proposal.superblock p <? block then (vote, st)
      else
        let vote' := fst (Vote.unspend vote block txhash) in
        match sbvotes st !! Proposal.superblock p with
        | None => (vote', st)
        | Some mv =>
            match mv !! Vote.getHash vote' with
            | None => (vote', st)
            | Some v =>
                (vote',
                 set_sbvotes st
                   (<[Proposal.superblock p :=
                        <[Vote.getHash vote' :=
                            fst (Vote.unspend v block txhash)]> mv]>
                      (sbvotes st)))
            end
        end
  end.

Definition addVote (st : State) (vote : Vote.t) : State :=
  match proposals st !! Vote.proposal vote with
  | None => st
  | Some proposal =>
      let voteHash := Vote.getHash vote in
      let vs := default ∅ (sbvotes st !! Proposal.superblock proposal) in
      {| proposals := proposals st;
         votes := <[voteHash := vote]> (votes st);
         sbvotes := <[Proposal.superblock proposal := <[voteHash := vote]> vs]>
                      (sbvotes st) |}
  end.

Definition removeVote (st : State) (vote : Vote.t) : State :=
  let voteHash := Vote.getHash vote in
  match votes st !! voteHash with
  | None => st
  | Some _ =>
      let st1 := set_votes st (delete voteHash (votes st)) in
      match proposals st1 !! Vote.proposal vote with
      | None => st1
      | Some proposal =>
          match sbvotes st1 !! Proposal.superblock proposal with
          | None => st1
          | Some vs =>
              match vs !! voteHash with
              | None => st1
              | Some _ =>
                  set_sbvotes st1
                    (<[Proposal.superblock proposal := delete voteHash vs]>
                       (sbvotes st1))
              end
          end
      end
  end.

Definition addProposal (st : State) (proposal : Proposal.t) : State :=
  match proposals st !! Proposal.getHash proposal with
  | Some _ => st
  | None =>
      set_proposals st (<[Proposal.getHash proposal := proposal]> (proposals st))
  end.

Definition removeProposal (st : State) (proposal : Proposal.t) : State :=
  set_proposals st (delete (Proposal.getHash proposal) (proposals st)).

(** *** Cutoffs and superblocks *)
Definition isSuperblock (blockHeight : Z) (params : Consensus.Params) : bool :=
  (Consensus.governanceBlock params <=? blockHeight)
  && (Z.rem blockHeight (Consensus.superblock params) =? 0).

Definition outsideProposalCutoff (proposal : Proposal.t) (blockNumber : Z)
           (params : Consensus.Params) : bool :=
  if Proposal.isNull proposal then false
  else blockNumber <?
       to_int32 (Proposal.superblock proposal - Consensus.proposalCutoff params).

Definition outsideVotingCutoff (proposal : Proposal.t) (blockNumber : Z)
           (params : Consensus.Params) : bool :=
  if Proposal.isNull proposal then false
  else blockNumber <?
       to_int32 (Proposal.superblock proposal - Consensus.votingCutoff params).

Definition insideVoteCutoff (superblock blockNumber : Z)
           (params : Consensus.Params) : bool :=
  (to_int32 (superblock - Consensus.votingCutoff params) <=? blockNumber)
  && (blockNumber <=? superblock).

(** *** dataFromBlock *)

(** The vote-change block of [dataFromBlock]:
    [if (votesRet.count(vote)) { it = find; if (sigHash > it->sigHash)
    votesRet.insert(vote); } else votesRet.insert(vote);] *)
Definition insert_vote (votesRet : list Vote.t) (vote : Vote.t) : list Vote.t :=
  if set_count Vote.getHash vote votesRet then
    match set_find Vote.getHash vote votesRet with
    | Some it =>
        if UintToArith256 (Vote.sigHash it) <? UintToArith256 (Vote.sigHash vote)
        then set_insert Vote.getHash vote votesRet
        else votesRet
    | None => votesRet
    end
  else set_insert Vote.getHash vote votesRet.

(** The set of vin hashes of a transaction; the source fills it on the
    first vote of the transaction. *)
Definition vinHashes_of (tx : CTransaction) : list (list byte) :=
  List.map (fun i => makeVinHash (prevout i)) (vin tx).

(** The body of the loop over [tx->vout] for output [n].  The source reads
    [out.scriptPubKey[0]] without a look at the size; an empty script is
    taken as one that does not start with OP_RETURN. *)
Definition dataFromOut (st : State) (block : CBlock) (tx : CTransaction)
           (params : Consensus.Params) (blockIndex : option Z)
           (checkProposal : bool) (n : Z) (out : CTxOut)
           (ret : list Proposal.t * list Vote.t)
  : Exc (list Proposal.t * list Vote.t) :=
  let '(proposalsRet, votesRet) := ret in
  match scriptPubKey out with
  | [] => Return ret
  | b0 :: _ =>
      if negb (Z_of_byte b0 =? OP_RETURN) then Return ret
      else
        match script_data (scriptPubKey out) with
        | None => Return ret
        | Some data =>
            exc_bind (stream_read NetworkObject.Unserialize data) (fun obj =>
            if negb (NetworkObject.isValid obj) then Return ret
            else if NetworkObject.getType obj =? PROPOSAL then
              exc_bind
                (stream_read
                   (Proposal.Unserialize (Proposal.init (default 0 blockIndex)))
                   data)
                (fun proposal =>
                   if Proposal.isValid proposal params
                      && match blockIndex with
                         | None => true
                         | Some h => outsideProposalCutoff proposal h params
                         end
                   then Return (set_insert Proposal.getHash proposal proposalsRet,
                                votesRet)
                   else Return ret)
            else if NetworkObject.getType obj =? VOTE then
              let vinHashes := vinHashes_of tx in
              exc_bind
                (stream_read
                   (Vote.Unserialize
                      (Vote.init {| op_hash := tx_GetHash tx;
                                    op_n := to_uint32 n |}
                                 (GetBlockTime block) (default 0 blockIndex)))
                   data)
                (fun vote =>
                   if match blockIndex with
                      | Some h => checkProposal
                                  && negb (hasProposal_before st (Vote.proposal vote) h)
                      | None => false
                      end
                      || negb (Vote.isValid_vin vote vinHashes params)
                      || match blockIndex with
                         | Some h =>
                             negb (outsideVotingCutoff
                                     (getProposal st (Vote.proposal vote)) h params)
                         | None => false
                         end
                   then Return ret
                   else Return (proposalsRet, insert_vote votesRet vote))
            else Return ret)
        end
  end.

Fixpoint dataFromOuts (st : State) (block : CBlock) (tx : CTransaction)
         (params : Consensus.Params) (blockIndex : option Z)
         (checkProposal : bool) (n : Z) (outs : list CTxOut)
         (ret : list Proposal.t * list Vote.t)
  : Exc (list Proposal.t * list Vote.t) :=
  match outs with
  | [] => Return ret
  | out :: outs' =>
      exc_bind (dataFromOut st block tx params blockIndex checkProposal n out ret)
               (dataFromOuts st block tx params blockIndex checkProposal
                             (n + 1) outs')
  end.

Fixpoint dataFromTxs (st : State) (block : CBlock) (txs : list CTransaction)
         (params : Consensus.Params) (blockIndex : option Z)
         (checkProposal : bool) (ret : list Proposal.t * list Vote.t)
  : Exc (list Proposal.t * list Vote.t) :=
  match txs with
  | [] => Return ret
  | tx :: txs' =>
      if IsCoinBase tx
      then dataFromTxs st block txs' params blockIndex checkProposal ret
      else
        exc_bind (dataFromOuts st block tx params blockIndex checkProposal
                               0 (vout tx) ret)
                 (dataFromTxs st block txs' params blockIndex checkProposal)
  end.

(** [proposalsRet] and [votesRet] are the caller's sets, passed in and
    returned. *)
Definition dataFromBlock (st : State) (block : CBlock)
           (proposalsRet : list Proposal.t) (votesRet : list Vote.t)
           (params : Consensus.Params) (blockIndex : option Z)
           (checkProposal : bool)
  : Exc (list Proposal.t * list Vote.t) :=
  dataFromTxs st block (vtx block) params blockIndex checkProposal
              (proposalsRet, votesRet).

(** *** getTally *)

(** The two search containers, [userVotes] by the hash of the voting
    transaction and [userVotesDest] by the key id of the vote's public
    key, after the "prep" loop. *)
Definition group_insert (k : Z) (vote : Vote.t)
           (m : list (Z * list Vote.t)) : list (Z * list Vote.t) :=
  let v := default [] (map_find id k m) in
  map_assign id k (set_insert Vote.getHash vote v) m.

Definition prep_userVotes (proposalVotes : list Vote.t) : list (Z * list Vote.t) :=
  fold_left (fun m vote => group_insert (op_hash (Vote.outpoint vote)) vote m)
            proposalVotes [].

Definition prep_userVotesDest (proposalVotes : list Vote.t) : list (Z * list Vote.t) :=
  fold_left (fun m vote => group_insert (GetID (Vote.pubkey vote)) vote m)
            proposalVotes [].

(** [allUnique] for one transaction: its votes and the votes of every
    destination one of them has. *)
Definition allUnique_of (userVotesDest : list (Z * list Vote.t))
           (item : list Vote.t) : list Vote.t :=
  fold_left
    (fun allUnique vote =>
       let destVotes :=
         default [] (map_find id (GetID (Vote.pubkey vote)) userVotesDest) in
       set_insert_range Vote.getHash destVotes allUnique)
    item (set_insert_range Vote.getHash item []).

Definition add_amount (tally : Tally) (vote : Vote.t) : Tally :=
  if Vote.getVote vote =? YES then
    {| cyes := to_int64 (cyes tally + Vote.amount vote); cno := cno tally;
       cabstain := cabstain tally; yes := yes tally; no := no tally;
       abstain := abstain tally |}
  else if Vote.getVote vote =? NO then
    {| cyes := cyes tally; cno := to_int64 (cno tally + Vote.amount vote);
       cabstain := cabstain tally; yes := yes tally; no := no tally;
       abstain := abstain tally |}
  else if Vote.getVote vote =? ABSTAIN then
    {| cyes := cyes tally; cno := cno tally;
       cabstain := to_int64 (cabstain tally + Vote.amount vote);
       yes := yes tally; no := no tally; abstain := abstain tally |}
  else tally.

(** The tally of one user: the amounts summed, divided by [voteBalance]
    and cast to [int], negative counts set to 0. *)
Definition user_tally (params : Consensus.Params) (allUnique : list Vote.t) : Tally :=
  let tally := fold_left add_amount allUnique Tally_init in
  let count (c : Z) : Z :=
    let k := to_int32 (Z.quot c (Consensus.voteBalance params)) in
    if k <? 0 then 0 else k in
  {| cyes := cyes tally; cno := cno tally; cabstain := cabstain tally;
     yes := count (cyes tally); no := count (cno tally);
     abstain := count (cabstain tally) |}.

(** One iteration of the loop over [userVotes]; the state is the
    [counted] set and the [tallies] vector. *)
Definition tally_step (params : Consensus.Params)
           (userVotesDest : list (Z * list Vote.t))
           (acc : list Vote.t * list Tally) (item : Z * list Vote.t)
  : list Vote.t * list Tally :=
  let '(counted, tallies) := acc in
  let allUnique := allUnique_of userVotesDest (snd item) in
  let allUnique :=
    List.filter (fun v => negb (set_count Vote.getHash v counted)) allUnique in
  match allUnique with
  | [] => acc
  | _ :: _ =>
      (set_insert_range Vote.getHash allUnique counted,
       tallies ++ [user_tally params allUnique])
  end.

Definition add_tally (finalTally tally : Tally) : Tally :=
  {| cyes := to_int64 (cyes finalTally + cyes tally);
     cno := to_int64 (cno finalTally + cno tally);
     cabstain := to_int64 (cabstain finalTally + cabstain tally);
     yes := to_int32 (yes finalTally + yes tally);
     no := to_int32 (no finalTally + no tally);
     abstain := to_int32 (abstain finalTally + abstain tally) |}.

Definition proposalVotes_of (proposal : Z) (votes : list Vote.t) : list Vote.t :=
  List.filter (fun vote => Vote.proposal vote =? proposal) votes.

(** The [counted] set and the [tallies] vector when the loop over
    [userVotes] ends. *)
Definition getTally_loop (proposal : Z) (votes : list Vote.t)
           (params : Consensus.Params) : list Vote.t * list Tally :=
  let proposalVotes := proposalVotes_of proposal votes in
  fold_left (tally_step params (prep_userVotesDest proposalVotes))
            (prep_userVotes proposalVotes) ([], []).

Definition getTally (proposal : Z) (votes : list Vote.t)
           (params : Consensus.Params) : Tally :=
  fold_left add_tally (snd (getTally_loop proposal votes params)) Tally_init.

(** *** getSuperblockResults *)

Definition getProposalsForSuperblock (st : State) (superblock : Z)
  : list Proposal.t * list Vote.t :=
  let ps := getProposals_sb st superblock in
  let vs := getVotes_sb st superblock in
  let allProposals :=
    List.filter (fun p => Proposal.superblock p =? superblock) ps in
  let proposalHashes := List.map Proposal.getHash allProposals in
  let allVotes :=
    List.filter (fun v => existsb (Z.eqb (Vote.proposal v)) proposalHashes) vs in
  (allProposals, allVotes).

(** The loop that counts the unique voting utxos: the utxos seen and
    the amount so far. *)
Definition unique_step (acc : list COutPoint * Z) (vote : Vote.t)
  : list COutPoint * Z :=
  let '(unique, uniqueAmount) := acc in
  if existsb (COutPoint_eqb (Vote.utxo vote)) unique then acc
  else (Vote.utxo vote :: unique, to_int64 (uniqueAmount + Vote.amount vote)).

Definition uniqueVotes_of (vs : list Vote.t) (params : Consensus.Params) : Z :=
  let uniqueAmount := snd (fold_left unique_step vs ([], 0)) in
  to_int32 (Z.quot uniqueAmount (Consensus.voteBalance params)).

(** The test of the erase loop.  The three conversions to [double] are
    exact for 32-bit counts, [0.25] is a binary fraction, and the
    correctly rounded quotient of two such counts is below the double
    nearest to 3/5 exactly when the true quotient is below 3/5 (the
    quotient of [yes] by [yaynay] differs from 3/5 by at least
    1/(5 * 2^31) when it differs at all), so that the comparisons are
    those of the rationals. *)
Definition erased (tally : Tally) (uniqueVotes : Z) : bool :=
  let total := to_int32 (to_int32 (yes tally + no tally) + abstain tally) in
  let yaynay := to_int32 (yes tally + no tally) in
  (yaynay =? 0)
  || negb (Qle_bool (6 # 10) (inject_Z (yes tally) / inject_Z yaynay))
  || negb (Qle_bool (inject_Z uniqueVotes * (25 # 100)) (inject_Z total))
  || (yes tally <=? 0).

Definition getSuperblockResults (st : State) (superblock : Z)
           (params : Consensus.Params) : list (Proposal.t * Tally) :=
  if negb (isSuperblock superblock params) then []
  else
    let '(ps, vs) := getProposalsForSuperblock st superblock in
    let uniqueVotes := uniqueVotes_of vs params in
    let r :=
      fold_left
        (fun r proposal =>
           map_assign Proposal.getHash proposal
                      (getTally (Proposal.getHash proposal) vs params) r)
        ps [] in
    List.filter (fun item => negb (erased (snd item) uniqueVotes)) r.

(** *** getSuperblockPayees *)

(** The comparator handed to [std::sort]. *)
Definition payee_lt (a b : Proposal.t * Tally) : bool :=
  if (netyes (snd a) =? netyes (snd b)) && (yes (snd a) =? yes (snd b))
  then Proposal.blockNumber (fst a) <? Proposal.blockNumber (fst b)
  else if netyes (snd a) =? netyes (snd b)
  then yes (snd b) <? yes (snd a)
  else netyes (snd b) <? netyes (snd a).

(** The [do ... while (!props.empty())] loop: [props[0]] is looked at,
    then erased. *)
Fixpoint fill_payees (props : list (Proposal.t * Tally))
         (superblockTotal : Z) : list CTxOut :=
  match props with
  | [] => []
  | result :: props' =>
      if 0 <=? to_int64 (superblockTotal - Proposal.amount (fst result))
      then
        {| nValue := Proposal.amount (fst result);
           scriptPubKey :=
             GetScriptForDestination
               (DecodeDestination (Proposal.address (fst result))) |}
        :: fill_payees props'
             (to_int64 (superblockTotal - Proposal.amount (fst result)))
      else fill_payees props' superblockTotal
  end.

Definition superblockBudget (superblock : Z) (params : Consensus.Params) : Z :=
  Z.min (Consensus.proposalMaxAmount params)
        (Consensus.GetBlockSubsidy params superblock).

Definition getSuperblockPayees (superblock : Z)
           (results : list (Proposal.t * Tally))
           (params : Consensus.Params) : list CTxOut :=
  match results with
  | [] => []
  | _ :: _ =>
      let props := std_sort payee_lt results in
      fill_payees props (superblockBudget superblock params)
  end.

(** *** isValidSuperblock *)

(** The predicate given to [remove_if] for one [vout]: the payees are
    searched from the last one down and the match is erased.  The result
    is whether one was found, and the payees left. *)
Fixpoint erase_last_match (vout : CTxOut) (payees : list CTxOut)
  : bool * list CTxOut :=
  match payees with
  | [] => (false, [])
  | p :: payees' =>
      let '(found, rest) := erase_last_match vout payees' in
      if found then (true, p :: rest)
      else if CTxOut_eqb vout p then (true, payees')
      else (false, p :: payees')
  end.

(** [vouts.erase(remove_if(...))]: the vouts kept and the payees left. *)
Fixpoint remove_matched (vouts payees : list CTxOut)
  : list CTxOut * list CTxOut :=
  match vouts with
  | [] => ([], payees)
  | vout :: vouts' =>
      let '(found, payees1) := erase_last_match vout payees in
      let '(kept, payees2) := remove_matched vouts' payees1 in
      if found then (kept, payees2) else (vout :: kept, payees2)
  end.

(** The value returned and [paymentsRet] after the call. *)
Definition isValidSuperblock (st : State) (block : CBlock) (blockHeight : Z)
           (params : Consensus.Params) (paymentsRet : Z) : bool * Z :=
  if negb (isSuperblock blockHeight params) then (false, paymentsRet)
  else if negb (IsProofOfStake block) then (false, paymentsRet)
  else
    let results := getSuperblockResults st blockHeight params in
    match results with
    | [] => (true, paymentsRet)
    | _ :: _ =>
        let payees := getSuperblockPayees blockHeight results params in
        match payees with
        | [] => (false, paymentsRet)
        | _ :: _ =>
            let paymentsRet :=
              fold_left (fun acc payee => to_int64 (acc + nValue payee))
                        payees 0 in
            let vouts :=
              match nth_error (vtx block) 1 with
              | Some tx => vout tx
              | None => []
              end in
            if 2 <? Z.of_nat (List.length vouts) - Z.of_nat (List.length payees)
            then (false, paymentsRet)
            else
              let '(vouts, payees) := remove_matched vouts payees in
              ((Z.of_nat (List.length vouts) <=? 2)
               && match payees with [] => true | _ => false end,
               paymentsRet)
        end
    end.

(** *** processBlock and BlockDisconnected *)

(** [prevouts[vin.prevout] = tx->GetHash()] over the block. *)
Definition prevouts_of (block : CBlock) : gmap (Z * Z) Z :=
  fold_left
    (fun m tx =>
       fold_left (fun m i => <[COutPoint_key (prevout i) := tx_GetHash tx]> m)
                 (vin tx) m)
    (vtx block) ∅.

(** The votes of the proposals since [height], as pointers. *)
Definition svotes_of (st : State) (height : Z) : list VotePtr :=
  flat_map (fun p => getMutableSBVotes st (Proposal.getHash p))
           (getProposalsSince st height).

Definition insert_block_vote (processingChainTip : bool)
           (st : State) (vote : Vote.t) : State :=
  if processingChainTip && negb (hasProposal st (Vote.proposal vote)) then st
  else
    let voteHash := Vote.getHash vote in
    match votes st !! voteHash with
    | Some stored =>
        if Vote.time stored <? Vote.time vote then addVote st vote
        else if UintToArith256 (Vote.sigHash stored)
                <? UintToArith256 (Vote.sigHash vote)
        then addVote st vote
        else st
    | None =>
        let spent := processingChainTip && Vote.IsVoteSpent vote false in
        if spent then st else addVote st vote
    end.

Definition spend_block_votes (block : CBlock) (height : Z) (st : State) : State :=
  let prevouts := prevouts_of block in
  let svotes := svotes_of st height in
  fold_left
    (fun st v =>
       match deref st v with
       | None => st
       | Some vote =>
           match prevouts !! COutPoint_key (Vote.utxo vote) with
           | None => st
           | Some txhash => spendVote st v height txhash
           end
       end)
    svotes st.

(** [pindex] is the height of the block index; it is not null on this
    path. *)
Definition processBlock (st : State) (block : CBlock) (pindex : Z)
           (params : Consensus.Params) (processingChainTip : bool) : Exc State :=
  exc_bind
    (dataFromBlock st block [] [] params (Some pindex) processingChainTip)
    (fun '(ps, vs) =>
       let st1 := fold_left addProposal ps st in
       let st2 := fold_left (insert_block_vote processingChainTip) vs st1 in
       if negb processingChainTip
          || bool_decide (votes st2 = ∅)
       then Return st2
       else Return (spend_block_votes block pindex st2)).

Definition BlockConnected (st : State) (block : CBlock) (pindex : Z)
           (params : Consensus.Params) : Exc State :=
  processBlock st block pindex params true.

Definition remove_block_vote (blockHeight : Z) (st : State) (vote : Vote.t) : State :=
  match votes st !! Vote.getHash vote with
  | None => st
  | Some stvote =>
      if Vote.blockNumber stvote =? blockHeight then removeVote st vote else st
  end.

Definition remove_block_proposal (blockHeight : Z) (st : State)
           (proposal : Proposal.t) : State :=
  match proposals st !! Proposal.getHash proposal with
  | None => st
  | Some stprop =>
      if Proposal.blockNumber stprop =? blockHeight
      then removeProposal st proposal else st
  end.

Definition unspend_block_votes (block : CBlock) (blockHeight : Z) (st : State)
  : State :=
  let prevouts := prevouts_of block in
  let svotes := svotes_of st blockHeight in
  fold_left
    (fun st v =>
       match deref st v with
       | None => st
       | Some vote =>
           match prevouts !! COutPoint_key (Vote.utxo vote) with
           | None => st
           | Some txhash => unspendVote st v blockHeight txhash
           end
       end)
    svotes st.

(** [blockHeight] is the height [LookupBlockIndex] finds for the block. *)
Definition BlockDisconnected (st : State) (block : CBlock) (blockHeight : Z)
           (params : Consensus.Params) : Exc State :=
  exc_bind
    (dataFromBlock st block [] [] params None true)
    (fun '(ps, vs) =>
       let st1 := fold_left (remove_block_vote blockHeight) vs st in
       let st2 := fold_left (remove_block_proposal blockHeight) ps st1 in
       if blockHeight =? INT32_MAX then Return st2
       else Return (unspend_block_votes block blockHeight st2)).

(** *** Further queries *)

(** [hasProposal(name, superblock)] *)
Definition hasProposal_name (st : State) (name : string) (superblock : Z) : bool :=
  existsb (fun item => (Proposal.superblock (snd item) =? superblock)
                       && String.eqb (Proposal.name (snd item)) name)
          (items (proposals st)).

(** [hasVote(proposal, voteType, utxo)] *)
Definition hasVote_utxo (st : State) (proposal voteType : Z) (utxo : COutPoint) : bool :=
  match proposals st !! proposal with
  | None => false
  | Some prop =>
      match sbvotes st !! Proposal.superblock prop with
      | None => false
      | Some vs =>
          existsb (fun item =>
                     COutPoint_eqb (Vote.utxo (snd item)) utxo
                     && (Vote.proposal (snd item) =? proposal)
                     && (Vote.getVote (snd item) =? voteType))
                  (items vs)
      end
  end.

(** [utxoInVoteCutoff]; [chainHeight] as in [NextSuperblock]. *)
Definition utxoInVoteCutoff (st : State) (utxo : COutPoint) (tipHeight : Z)
           (params : Consensus.Params) (chainHeight : Z) : bool :=
  let superblock := NextSuperblock params tipHeight chainHeight in
  if negb (insideVoteCutoff superblock tipHeight params) then false
  else
    let '(sproposals, svotes) := getProposalsForSuperblock st superblock in
    existsb (fun vote => COutPoint_eqb utxo (Vote.utxo vote)) svotes.

(** The [while (pc < end)] loop of [isVoteInTxOut]: [data] when the loop
    ends, that is the first push-data that is not empty, and no data when
    the script ends first or [GetOp] fails (a failing [GetOp] leaves [data]
    cleared). *)
Fixpoint first_data_loop (fuel : nat) (pc : list byte) : list byte :=
  match fuel with
  | O => []
  | S fuel' =>
      match pc with
      | [] => []
      | _ =>
          match GetOp pc with
          | None => []
          | Some (_, data, pc') =>
              match data with
              | _ :: _ => data
              | [] => first_data_loop fuel' pc'
              end
          end
      end
  end.

(** [isVoteInTxOut]: the value returned and [vote] after the call.  As in
    [dataFromBlock], an empty script is taken as one that does not start
    with OP_RETURN. *)
Definition isVoteInTxOut (out : CTxOut) (vote : Vote.t) : Exc (bool * Vote.t) :=
  match scriptPubKey out with
  | [] => Return (false, vote)
  | b0 :: _ =>
      if negb (Z_of_byte b0 =? OP_RETURN) then Return (false, vote)
      else
        let data := first_data_loop (List.length (scriptPubKey out))
                                    (scriptPubKey out) in
        exc_bind (stream_read NetworkObject.Unserialize data) (fun obj =>
        if NetworkObject.getType obj =? VOTE then
          exc_bind (stream_read (Vote.Unserialize vote) data)
                   (fun vote' => Return (true, vote'))
        else Return (false, vote))
  end.
End WithExternals.
End Governance.

(** ** A worked chain

    Test doubles for the collaborators and a short chain on which the
    functions above are run: a proposal block at height 140, a vote block at
    150, a block at 160 that spends the voting utxo.  The parameters are
    those of the scenarios: period 100, one coin per vote, cutoffs 20 and
    10. *)
Module Scenario.

Definition COIN : Z := 100000000.

(** A stand-in digest: a polynomial checksum of the stream. *)
Definition checksum (bs : list byte) : Z :=
  fold_left (fun acc b => (acc * 257 + Z_of_byte b + 1) mod 2 ^ 256) bs 0.

(** The transaction index knows one funding transaction, hash 7, with
    three outputs paying to three keys. *)
Definition funding : CTransaction :=
  {| tx_GetHash := 7; vin := [];
     vout := [ {| nValue := 5 * COIN; scriptPubKey := [x11] |};
               {| nValue := 3 * COIN; scriptPubKey := [x22] |};
               {| nValue := 2 * COIN; scriptPubKey := [x33] |} ];
     IsCoinBase := false |}.

#[export] Instance doubles : Externals := {|
  Hash256 := checksum;
  RecoverCompact := fun _ sg => sg;
  GetID := le_decode;
  GetTransaction := fun h => if h =? 7 then Some funding else None;
  ExtractDestination := fun s => Some (le_decode s);
  DecodeDestination :=
    fun s => match s with
             | EmptyString => None
             | _ => Some (le_decode (list_byte_of_string s))
             end;
  GetScriptForDestination :=
    fun d => match d with Some k => ser_le 20 k | None => [] end;
  MAX_OP_RETURN_RELAY := 160;
  GetCoin := fun _ => true;
  MempoolGetCoin := fun _ => true;
  mempool_isSpent := fun _ => false
|}.

Definition params : Consensus.Params :=
  {| Consensus.superblock := 100; Consensus.governanceBlock := 100;
     Consensus.proposalCutoff := 20; Consensus.votingCutoff := 10;
     Consensus.proposalMinAmount := 10 * COIN;
     Consensus.proposalMaxAmount := 40000 * COIN;
     Consensus.voteMinUtxoAmount := 1 * COIN;
     Consensus.voteBalance := 1 * COIN;
     Consensus.GetBlockSubsidy := fun _ => 40001 * COIN |}.

Definition alpha : Proposal.t :=
  {| Proposal.version := 1; Proposal.type := 1;
     Proposal.name := "alpha"%string; Proposal.superblock := 200;
     Proposal.amount := 100 * COIN; Proposal.address := "addr"%string;
     Proposal.url := "u"%string; Proposal.description := "d"%string;
     Proposal.blockNumber := 0 |}.

(** The proposal as the block of height 140 records it. *)
Definition stored_alpha : Proposal.t :=
  {| Proposal.version := 1; Proposal.type := 1;
     Proposal.name := "alpha"%string; Proposal.superblock := 200;
     Proposal.amount := 100 * COIN; Proposal.address := "addr"%string;
     Proposal.url := "u"%string; Proposal.description := "d"%string;
     Proposal.blockNumber := 140 |}.

Definition u : COutPoint := {| op_hash := 7; op_n := 0 |}.
Definition w : COutPoint := {| op_hash := 7; op_n := 2 |}.

(** A vote of kind [k] on [alpha] with utxo [u], signed by the key of [u],
    bound to an input that spends [w]. *)
Definition cast (k : Z) : Vote.t :=
  {| Vote.version := 1; Vote.type := 2;
     Vote.proposal := Proposal.getHash alpha; Vote.vote := k;
     Vote.vinhash := makeVinHash w; Vote.signature := [x11];
     Vote.utxo := u; Vote.pubkey := []; Vote.outpoint := Vote.null_outpoint;
     Vote.time := 0; Vote.amount := 0; Vote.keyid := 0;
     Vote.blockNumber := 0; Vote.spentBlock := 0; Vote.spentHash := 0 |}.

(** [OP_RETURN <push data>] *)
Definition op_return (data : list byte) : CTxOut :=
  {| nValue := 0;
     scriptPubKey :=
       if (List.length data <? 76)%nat
       then byte_of_Z OP_RETURN :: byte_of_Z (Z.of_nat (List.length data)) :: data
       else byte_of_Z OP_RETURN :: byte_of_Z OP_PUSHDATA1
            :: byte_of_Z (Z.of_nat (List.length data)) :: data |}.

Definition pay (value : Z) : CTxOut :=
  {| nValue := value; scriptPubKey := [x76; xa9] |}.

Definition block_of (txhash : Z) (spends : COutPoint) (outs : list CTxOut)
           (time : Z) : CBlock :=
  {| vtx := [ {| tx_GetHash := 1; vin := []; vout := [pay 0];
                 IsCoinBase := true |};
              {| tx_GetHash := txhash; vin := [ {| prevout := spends |} ];
                 vout := outs; IsCoinBase := false |} ];
     GetBlockTime := time; IsProofOfStake := true |}.

Definition proposal_block : CBlock :=
  block_of 20 {| op_hash := 5; op_n := 0 |}
           [op_return (Proposal.Serialize alpha); pay 1] 1400.

Definition vote_block : CBlock :=
  block_of 21 w [op_return (Vote.Serialize (cast YES)); pay 1] 1500.

Definition spend_block : CBlock :=
  block_of 33 u [pay (5 * COIN)] 1600.

(** Two votes of one transaction on the same utxo: NO, then YES. *)
Definition change_block : CBlock :=
  block_of 22 w [op_return (Vote.Serialize (cast NO));
                 op_return (Vote.Serialize (cast YES))] 1500.

(** A push of the single byte 01 (a version and nothing else), followed
    by a well-formed vote. *)
Definition truncated_block : CBlock :=
  block_of 23 w [op_return [x01]; op_return (Vote.Serialize (cast YES))] 1500.

(** The header of a proposal and the first bytes of its body, followed by
    a well-formed vote. *)
Definition truncated_body_block : CBlock :=
  block_of 24 w [op_return (firstn 10 (Proposal.Serialize alpha));
                 op_return (Vote.Serialize (cast YES))] 1500.

Definition run (c : Exc Governance.State) : Governance.State :=
  match c with
  | Return st => st
  | Throw => Governance.reset
  end.

Definition st140 : Governance.State :=
  run (Governance.processBlock Governance.reset proposal_block 140 params true).
Definition st150 : Governance.State :=
  run (Governance.processBlock st140 vote_block 150 params true).
Definition st160 : Governance.State :=
  run (Governance.processBlock st150 spend_block 160 params true).

(** The vote as [vote_block] recorded it, and the pointer to it. *)
Definition recorded : Vote.t :=
  Vote.loadKeyID
    {| Vote.version := 1; Vote.type := 2;
       Vote.proposal := Proposal.getHash alpha; Vote.vote := YES;
       Vote.vinhash := makeVinHash w; Vote.signature := [x11];
       Vote.utxo := u; Vote.pubkey := [x11];
       Vote.outpoint := {| op_hash := 21; op_n := 0 |};
       Vote.time := 1500; Vote.amount := 0; Vote.keyid := 0;
       Vote.blockNumber := 150; Vote.spentBlock := 0; Vote.spentHash := 0 |}.

Definition recorded_ptr : Governance.VotePtr := (200, Vote.getHash recorded).

(** The two passing proposals of the payout scenario, with their
    tallies. *)
Definition propA : Proposal.t :=
  {| Proposal.version := 1; Proposal.type := 1; Proposal.name := "aa"%string;
     Proposal.superblock := 200; Proposal.amount := 100;
     Proposal.address := "A"%string; Proposal.url := ""%string;
     Proposal.description := ""%string; Proposal.blockNumber := 140 |}.
Definition propB : Proposal.t :=
  {| Proposal.version := 1; Proposal.type := 1; Proposal.name := "bb"%string;
     Proposal.superblock := 200; Proposal.amount := 50;
     Proposal.address := "B"%string; Proposal.url := ""%string;
     Proposal.description := ""%string; Proposal.blockNumber := 141 |}.
Definition tally_of (y k : Z) : Tally :=
  {| cyes := y * COIN; cno := k * COIN; cabstain := 0;
     yes := y; no := k; abstain := 0 |}.
Definition resultsAB : list (Proposal.t * Tally) :=
  [(propA, tally_of 7 2); (propB, tally_of 10 0)].

(** Two passing results of which the one with more yes votes has the
    smaller net yes: "aa" has 10 yes and 4 no, "bb" has 8 yes and no no. *)
Definition resultsNet : list (Proposal.t * Tally) :=
  [(propA, tally_of 10 4); (propB, tally_of 8 0)].

Definition budget (b : Z) : Consensus.Params :=
  {| Consensus.superblock := 100; Consensus.governanceBlock := 100;
     Consensus.proposalCutoff := 20; Consensus.votingCutoff := 10;
     Consensus.proposalMinAmount := 10; Consensus.proposalMaxAmount := b;
     Consensus.voteMinUtxoAmount := 1 * COIN;
     Consensus.voteBalance := 1 * COIN;
     Consensus.GetBlockSubsidy := fun _ => 40001 * COIN |}.

(** A block for height 200: a coinstake that pays the stake, the proposal
    "alpha" and the staker. *)
Definition superblock_200 : CBlock :=
  block_of 40 {| op_hash := 9; op_n := 0 |}
           [pay 7;
            {| nValue := 100 * COIN;
               scriptPubKey :=
                 GetScriptForDestination (DecodeDestination "addr"%string) |};
            pay 1] 2000.

(** An output that is the opcode OP_RETURN alone. *)
Definition bare_op_return : CTxOut :=
  {| nValue := 0; scriptPubKey := [byte_of_Z OP_RETURN] |}.
End Scenario.

(** ** The rules in the words of the specification

    Second definitions, written from the specification's sentences and
    compared with the functions above in the theorems. *)
Section Rules.
Context `{Ext : Externals}.

(** "netYes = yes - no", the difference of the two counts as integers. *)
Definition spec_netYes (t : Tally) : Z := yes t - no t.

(** "Sort surviving proposals by netYes descending, then yes descending,
    then blockNumber ascending": [a] may stand before [b]. *)
Definition spec_order (a b : Proposal.t * Tally) : Prop :=
  spec_netYes (snd b) < spec_netYes (snd a)
  \/ (spec_netYes (snd a) = spec_netYes (snd b)
      /\ (yes (snd b) < yes (snd a)
          \/ (yes (snd a) = yes (snd b)
              /\ Proposal.blockNumber (fst a) <= Proposal.blockNumber (fst b)))).

(** [a] stands strictly before [b]: the three keys are not all equal. *)
Definition spec_before (a b : Proposal.t * Tally) : Prop :=
  spec_netYes (snd b) < spec_netYes (snd a)
  \/ (spec_netYes (snd a) = spec_netYes (snd b)
      /\ (yes (snd b) < yes (snd a)
          \/ (yes (snd a) = yes (snd b)
              /\ Proposal.blockNumber (fst a) < Proposal.blockNumber (fst b)))).

(** The difference of the two counts is a value an [int] holds, as it is
    whenever both counts are non-negative [int]s. *)
Definition counts_fit (t : Tally) : Prop := in_int32 (yes t - no t).

(** The characters of the class [\w] of the name pattern
    [^\w+[\w\-_ ]*\w+$], written out: the digits, the letters and the
    underscore. *)
Definition word_chars : list ascii :=
  list_ascii_of_string
    "0123456789ABCDEFGHIJKLMNOPQRSTUVWXYZ_abcdefghijklmnopqrstuvwxyz".

(** The characters of the class [[\w\-_ ]]: those, the dash and the
    blank. *)
Definition name_chars : list ascii := word_chars ++ list_ascii_of_string "- ".

(** A string the pattern matches: a first and a last character of [\w],
    and characters of [[\w\-_ ]] in between. *)
Definition spec_name (s : string) : Prop :=
  exists first mid last,
    list_ascii_of_string s = first :: mid ++ [last]
    /\ In first word_chars /\ In last word_chars
    /\ Forall (fun c => In c name_chars) mid.

(** The letters in their two cases, each capital paired with its small
    letter. *)
Definition letter_pairs : list (ascii * ascii) :=
  combine (list_ascii_of_string "ABCDEFGHIJKLMNOPQRSTUVWXYZ")
          (list_ascii_of_string "abcdefghijklmnopqrstuvwxyz").

(** Two characters that are the same but for the case of a letter. *)
Definition same_letter (c d : ascii) : Prop :=
  c = d \/ In (c, d) letter_pairs \/ In (d, c) letter_pairs.

(** Two strings that are the same but for the case of their letters: "any
    mix of upper and lower case" of one is the other. *)
Definition same_spelling (s s' : string) : Prop :=
  Forall2 same_letter (list_ascii_of_string s) (list_ascii_of_string s').

(** "The recorded (spentBlock, spentHash) matches exactly": the marker
    held by the record [v] is the pair [(h, t)]. *)
Definition recorded_marker (v : Vote.t) (h t : Z) : Prop :=
  Vote.spentBlock v = h /\ Vote.spentHash v = t.

Definition payee_of (r : Proposal.t * Tally) : CTxOut :=
  {| nValue := Proposal.amount (fst r);
     scriptPubKey :=
       GetScriptForDestination (DecodeDestination (Proposal.address (fst r))) |}.

(** "In sort order, if amount <= remaining, emit the payee and deduct;
    otherwise skip that proposal and continue." *)
Fixpoint spec_fill (props : list (Proposal.t * Tally)) (remaining : Z)
  : list CTxOut :=
  match props with
  | [] => []
  | r :: props' =>
      if Proposal.amount (fst r) <=? remaining
      then payee_of r :: spec_fill props' (remaining - Proposal.amount (fst r))
      else spec_fill props' remaining
  end.

(** The four conditions a tally has to satisfy; the sums are those of the
    [int] counts. *)
Definition spec_passes (t : Tally) (uniqueVotes : Z) : Prop :=
  let yaynay := to_int32 (yes t + no t) in
  let total := to_int32 (yaynay + abstain t) in
  0 < yaynay
  /\ (6 # 10 <= inject_Z (yes t) / inject_Z yaynay)%Q
  /\ (inject_Z uniqueVotes * (25 # 100) <= inject_Z total)%Q
  /\ 0 < yes t.

(** "Sum of amounts over votes with distinct utxos": the votes that are
    the first with their utxo. *)
Fixpoint first_by_utxo (seen : list COutPoint) (vs : list Vote.t) : list Vote.t :=
  match vs with
  | [] => []
  | v :: vs' =>
      if existsb (COutPoint_eqb (Vote.utxo v)) seen
      then first_by_utxo seen vs'
      else v :: first_by_utxo (Vote.utxo v :: seen) vs'
  end.

Definition sum_amounts (vs : list Vote.t) : Z :=
  fold_right (fun v acc => Vote.amount v + acc) 0 vs.

(** The amount the votes of one kind carry. *)
Definition kind_amount (kind : Z) (vs : list Vote.t) : Z :=
  sum_amounts (List.filter (fun v => Vote.getVote v =? kind) vs).
End Rules.

(** ** Invariants used in the proofs *)
Section Invariants.
Context `{Ext : Externals}.
Import Governance.

(** Votes in the search containers are votes of the input. *)
Definition groups_within (pv : list Vote.t) (m : list (Z * list Vote.t)) : Prop :=
  forall k g v, In (k, g) m -> In v g -> In v pv.

(** The invariant of the loop over [userVotes]. *)
Definition tally_inv (params : Consensus.Params) (pv : list Vote.t)
           (acc : list Vote.t * list Tally) : Prop :=
  key_sorted Vote.getHash (fst acc)
  /\ (forall v, In v (fst acc) -> In v pv)
  /\ (exists groups,
        snd acc = List.map (user_tally params) groups
        /\ Permutation (concat groups) (fst acc))
  /\ to_int64 (fold_right (fun t a => cyes t + a) 0 (snd acc))
     = to_int64 (kind_amount YES (fst acc))
  /\ to_int64 (fold_right (fun t a => cno t + a) 0 (snd acc))
     = to_int64 (kind_amount NO (fst acc))
  /\ to_int64 (fold_right (fun t a => cabstain t + a) 0 (snd acc))
     = to_int64 (kind_amount ABSTAIN (fst acc)).

(** The map [r] before the erase loop. *)
Definition tallied (vs : list Vote.t) (params : Consensus.Params)
           (ps : list Proposal.t) (r : list (Proposal.t * Tally))
  : list (Proposal.t * Tally) :=
  fold_left
    (fun r proposal =>
       map_assign Proposal.getHash proposal
                  (getTally (Proposal.getHash proposal) vs params) r)
    ps r.

(** The proposals of the store passed [Proposal::isValid]. *)
Definition proposals_valid (params : Consensus.Params) (st : State) : Prop :=
  forall k p, proposals st !! k = Some p -> Proposal.isValid p params = true.

(** The stores the node goes through: empty at start, then blocks are
    connected ([processBlock], live or during the initial load) and
    disconnected, and the second pass of the initial load adds votes
    again. *)
Inductive reachable (params : Consensus.Params) : State -> Prop :=
| reach_reset : reachable params reset
| reach_processBlock st block pindex tip st' :
    reachable params st ->
    processBlock st block pindex params tip = Return st' ->
    reachable params st'
| reach_BlockDisconnected st block height st' :
    reachable params st ->
    BlockDisconnected st block height params = Return st' ->
    reachable params st'
| reach_addVote st vote :
    reachable params st -> reachable params (addVote st vote).

(** One iteration of the spend loop of [processBlock]. *)
Definition spend_iter (block : CBlock) (h : Z) (st : State) (ptr : VotePtr) : State :=
  match deref st ptr with
  | None => st
  | Some vote =>
      match prevouts_of block !! COutPoint_key (Vote.utxo vote) with
      | None => st
      | Some txhash => spendVote st ptr h txhash
      end
  end.

(** The checks a proposal has passed when the loop body of [dataFromBlock]
    inserts it into [proposalsRet]. *)
Definition checked_proposal (params : Consensus.Params) (bi : option Z)
           (p : Proposal.t) : Prop :=
  Proposal.isValid p params = true
  /\ Proposal.blockNumber p = default 0 bi
  /\ (forall h, bi = Some h -> outsideProposalCutoff p h params = true).

(** The checks a vote of transaction [tx] has passed when the loop body
    inserts it into [votesRet], and the fields its constructor gave it. *)
Definition checked_vote (st : State) (block : CBlock) (tx : CTransaction)
           (params : Consensus.Params) (bi : option Z) (cp : bool)
           (v : Vote.t) : Prop :=
  Vote.isValid v params = true
  /\ existsb (bytes_eqb (Vote.vinhash v)) (vinHashes_of tx) = true
  /\ op_hash (Vote.outpoint v) = tx_GetHash tx
  /\ Vote.time v = GetBlockTime block
  /\ Vote.blockNumber v = default 0 bi
  /\ Vote.spent v = false
  /\ (forall h, bi = Some h ->
        outsideVotingCutoff (getProposal st (Vote.proposal v)) h params = true
        /\ (cp = true -> hasProposal_before st (Vote.proposal v) h = true)).

(** An output the loop body passes over at its first test: the script is
    empty or does not start with OP_RETURN. *)
Definition plain_output (out : CTxOut) : Prop :=
  match scriptPubKey out with
  | [] => True
  | b0 :: _ => Z_of_byte b0 <> OP_RETURN
  end.

(** Every hash of [S] is in a group of [m]. *)
Definition groups_cover (S : list Vote.t) (m : list (Z * list Vote.t)) : Prop :=
  forall v, In v S ->
    exists k g, In (k, g) m /\ In (Vote.getHash v) (List.map Vote.getHash g).

(** The sum of the values of a list of outputs. *)
Definition total_value (outs : list CTxOut) : Z :=
  fold_right (fun o acc => nValue o + acc) 0 outs.

(** The sum of a list of integers. *)
Definition zsum (l : list Z) : Z := fold_right Z.add 0 l.
End Invariants.

(** * Properties *)

(** ** Machine integers *)

Lemma wrap_signed_small (bits z : Z) :
  0 < bits -> - 2 ^ (bits - 1) <= z < 2 ^ (bits - 1) -> wrap_signed bits z = z.
Proof.
  intros Hb Hz. unfold wrap_signed.
  assert (E : 2 ^ bits = 2 * 2 ^ (bits - 1)).
  { replace bits with (Z.succ (bits - 1)) at 1 by lia.
    rewrite Z.pow_succ_r by lia. reflexivity. }
  rewrite Z.mod_small by lia. lia.
Qed.

Lemma wrap_signed_add_l (bits a b : Z) :
  wrap_signed bits (wrap_signed bits a + b) = wrap_signed bits (a + b).
Proof.
  unfold wrap_signed. f_equal.
  replace ((a + 2 ^ (bits - 1)) mod 2 ^ bits - 2 ^ (bits - 1) + b + 2 ^ (bits - 1))
    with ((a + 2 ^ (bits - 1)) mod 2 ^ bits + b) by lia.
  rewrite Zplus_mod_idemp_l. f_equal. lia.
Qed.

Lemma wrap_signed_add_r (bits a b : Z) :
  wrap_signed bits (a + wrap_signed bits b) = wrap_signed bits (a + b).
Proof.
  rewrite (Z.add_comm a), wrap_signed_add_l. f_equal. lia.
Qed.

Lemma to_int64_small (z : Z) : in_int64 z -> to_int64 z = z.
Proof.
  unfold in_int64, INT64_MAX, to_int64. intros H.
  apply wrap_signed_small; simpl in *; lia.
Qed.

Lemma to_int32_small (z : Z) : in_int32 z -> to_int32 z = z.
Proof.
  unfold in_int32, INT32_MAX, to_int32. intros H.
  apply wrap_signed_small; simpl in *; lia.
Qed.

Lemma to_int64_add_l (a b : Z) : to_int64 (to_int64 a + b) = to_int64 (a + b).
Proof. apply wrap_signed_add_l. Qed.

Lemma to_int64_add_r (a b : Z) : to_int64 (a + to_int64 b) = to_int64 (a + b).
Proof. apply wrap_signed_add_r. Qed.

Lemma to_int64_idem (a : Z) : to_int64 (to_int64 a) = to_int64 a.
Proof.
  replace (to_int64 a) with (to_int64 a + 0) at 1 by lia.
  rewrite to_int64_add_l. f_equal. lia.
Qed.

(** ** The proposal digest and the wire format *)
Section ProposalCodec.
Context `{Ext : Externals}.

(** C2, as amended.  [Proposal::getHash] hashes the fields in the order
    version, type, name, superblock, amount, address, url, description;
    the wire order of [SerializationOp] has the name after the address.
    The hashed stream is the wire stream with the name field moved
    forward: a rearrangement of the same bytes, equal to the wire stream
    exactly when the serialised name commutes with the serialised
    (superblock, amount, address) block. *)
Theorem getHash_stream_is_wire_with_name_moved (p : Proposal.t) :
  let hdr := ser_uint8 (Proposal.version p) ++ ser_uint8 (Proposal.type p) in
  let nm := ser_string (Proposal.name p) in
  let mid := ser_int32 (Proposal.superblock p) ++ ser_int64 (Proposal.amount p)
             ++ ser_string (Proposal.address p) in
  let tl := ser_string (Proposal.url p) ++ ser_string (Proposal.description p) in
  Proposal.getHash p = Hash256 (hdr ++ nm ++ mid ++ tl)
  /\ Proposal.Serialize p = hdr ++ mid ++ nm ++ tl
  /\ Permutation (Proposal.hash_stream p) (Proposal.Serialize p)
  /\ List.length (Proposal.hash_stream p) = List.length (Proposal.Serialize p)
  /\ (Proposal.hash_stream p = Proposal.Serialize p <-> nm ++ mid = mid ++ nm).
Proof.
  intros hdr nm mid tl.
  assert (Hh : Proposal.hash_stream p = hdr ++ (nm ++ mid) ++ tl).
  { unfold Proposal.hash_stream, hdr, nm, mid, tl.
    rewrite <- !List.app_assoc. reflexivity. }
  assert (Hw : Proposal.Serialize p = hdr ++ (mid ++ nm) ++ tl).
  { unfold Proposal.Serialize, hdr, nm, mid, tl.
    rewrite <- !List.app_assoc. reflexivity. }
  assert (Hp : Permutation (Proposal.hash_stream p) (Proposal.Serialize p)).
  { rewrite Hh, Hw. apply Permutation_app_head, Permutation_app_tail,
      Permutation_app_comm. }
  split; [|split; [|split; [|split]]].
  - unfold Proposal.getHash. rewrite Hh, <- List.app_assoc. reflexivity.
  - rewrite Hw, <- List.app_assoc. reflexivity.
  - exact Hp.
  - apply Permutation_length, Hp.
  - rewrite Hh, Hw. split.
    + intros E. apply List.app_inv_head in E. apply List.app_inv_tail in E.
      exact E.
    + intros E. rewrite E. reflexivity.
Qed.
End ProposalCodec.

(** C2, refuted as stated: for the proposal "alpha" the stream that is
    hashed is not the wire stream. *)
Lemma getHash_stream_differs_from_wire :
  Proposal.hash_stream Scenario.alpha <> Proposal.Serialize Scenario.alpha.
Proof. vm_compute. discriminate. Qed.

(** The wire stream is the one the parser reads back. *)
Example wire_roundtrip_alpha :
  stream_read (Proposal.Unserialize (Proposal.init 0))
              (Proposal.Serialize Scenario.alpha)
  = Return Scenario.alpha.
Proof. vm_compute. reflexivity. Qed.

(** ** The state store *)
Section Store.
Context `{Ext : Externals}.
Import Governance.

Lemma In_items {V} (m : gmap Z V) (k : Z) (v : V) :
  In (k, v) (items m) <-> m !! k = Some v.
Proof.
  unfold items. rewrite <- list_elem_of_In. apply elem_of_map_to_list.
Qed.

Lemma In_values {V} (m : gmap Z V) (v : V) :
  In v (List.map snd (items m)) <-> exists k, m !! k = Some v.
Proof.
  rewrite in_map_iff. split.
  - intros [[k v'] [E H]]. simpl in E. subst. exists k. apply In_items, H.
  - intros [k H]. exists (k, v). split; [reflexivity | apply In_items, H].
Qed.

Lemma unspent_marker (v : Vote.t) :
  Vote.spent v = false -> 0 <= Vote.spentBlock v -> Vote.spentBlock v = 0.
Proof. unfold Vote.spent. intros H ?. apply Z.ltb_ge in H. lia. Qed.

Lemma getVotes_sb_unspent st sb v :
  In v (getVotes_sb st sb) -> Vote.spent v = false.
Proof.
  unfold getVotes_sb. destruct (sbvotes st !! sb); [|intros []].
  rewrite filter_In. intros [_ H]. apply negb_true_iff, H.
Qed.

(** C10.  The four vote queries return votes whose spent marker is unset
    only ([spent()] is false, that is [spentBlock] is 0 for a marker that
    is never negative): [getVotes()], [getVotes(proposalHash)],
    [getVotes(superblock)] and the pointers of [getMutableSBVotes].  The
    queries read the maps without changing them, and the votes handed to
    the tally by [getProposalsForSuperblock] are unspent as well. *)
Theorem vote_queries_return_unspent (st : State) :
  (forall v, In v (getVotes st) ->
     Vote.spent v = false /\ exists k, votes st !! k = Some v)
  /\ (forall h v, In v (getVotes_proposal st h) ->
        Vote.spent v = false /\ Vote.proposal v = h)
  /\ (forall sb v, In v (getVotes_sb st sb) ->
        Vote.spent v = false
        /\ exists vs k, sbvotes st !! sb = Some vs /\ vs !! k = Some v)
  /\ (forall h ptr, In ptr (getMutableSBVotes st h) ->
        exists v, deref st ptr = Some v /\ Vote.spent v = false
                  /\ Vote.proposal v = h)
  /\ (forall sb v, In v (snd (getProposalsForSuperblock st sb)) ->
        Vote.spent v = false)
  /\ (forall v, Vote.spent v = false -> 0 <= Vote.spentBlock v ->
        Vote.spentBlock v = 0).
Proof.
  split; [|split; [|split; [|split; [|split]]]].
  - intros v. unfold getVotes. rewrite filter_In, In_values.
    intros [Hk H]. split; [apply negb_true_iff, H | exact Hk].
  - intros h v. unfold getVotes_proposal.
    destruct (proposals st !! h) as [p|]; [|intros []].
    destruct (sbvotes st !! Proposal.superblock p) as [vs|]; [|intros []].
    rewrite filter_In. intros [_ H]. apply andb_true_iff in H.
    destruct H as [H1 H2]. split; [apply negb_true_iff, H2 | lia].
  - intros sb v H. split; [eapply getVotes_sb_unspent, H|].
    unfold getVotes_sb in H. destruct (sbvotes st !! sb) as [vs|]; [|destruct H].
    apply filter_In in H. destruct H as [H _]. apply In_values in H.
    destruct H as [k H]. exists vs, k. split; [reflexivity | exact H].
  - intros h ptr. unfold getMutableSBVotes.
    destruct (proposals st !! h) as [p|]; [|intros []].
    destruct (sbvotes st !! Proposal.superblock p) as [vs|] eqn:Hvs; [|intros []].
    rewrite in_map_iff. intros [[k v] [E H]]. apply filter_In in H.
    destruct H as [Hin H]. simpl in *. apply andb_true_iff in H.
    destruct H as [H1 H2]. apply In_items in Hin. subst ptr.
    exists v. unfold deref. simpl. rewrite Hvs.
    split; [exact Hin | split; [apply negb_true_iff, H2 | lia]].
  - intros sb v. unfold getProposalsForSuperblock. simpl.
    rewrite filter_In. intros [H _]. eapply getVotes_sb_unspent, H.
  - apply unspent_marker.
Qed.

(** *** Spending and unspending *)

Lemma getHash_set_spent (v : Vote.t) (b h : Z) :
  Vote.getHash (Vote.set_spent v b h) = Vote.getHash v.
Proof. reflexivity. Qed.

Lemma set_spent_unset (v : Vote.t) :
  Vote.spentBlock v = 0 -> Vote.spentHash v = 0 -> Vote.set_spent v 0 0 = v.
Proof. destruct v; simpl; intros -> ->; reflexivity. Qed.

Lemma unspend_spend (v : Vote.t) (h t : Z) :
  Vote.spentBlock v = 0 -> Vote.spentHash v = 0 ->
  Vote.unspend (Vote.spend v h t) h t = (v, true).
Proof.
  intros Hb Hh. unfold Vote.unspend, Vote.spend. simpl.
  rewrite !Z.eqb_refl. simpl. f_equal.
  destruct v; simpl in *; subst; reflexivity.
Qed.

Lemma unspend_only_on_match (v : Vote.t) (h t : Z) :
  (snd (Vote.unspend v h t) = true <->
   Vote.spentBlock v = h /\ Vote.spentHash v = t)
  /\ (snd (Vote.unspend v h t) = false -> fst (Vote.unspend v h t) = v).
Proof.
  unfold Vote.unspend.
  destruct (Vote.spentBlock v =? h) eqn:E1;
    destruct (Vote.spentHash v =? t) eqn:E2; simpl;
    (split; [split; [intros ?; try discriminate; lia | intros [? ?]; try reflexivity; lia]
            | intros ?; try discriminate; reflexivity]).
Qed.

Lemma store_deref st ptr v v' :
  deref st ptr = Some v -> deref (store st ptr v') ptr = Some v'.
Proof.
  unfold deref, store. destruct (sbvotes st !! ptr.1) as [vs|] eqn:E; [|discriminate].
  intros _. simpl. rewrite lookup_insert_eq. apply lookup_insert_eq.
Qed.

Lemma store_store st ptr v v1 v2 :
  deref st ptr = Some v -> store (store st ptr v1) ptr v2 = store st ptr v2.
Proof.
  unfold deref, store. destruct (sbvotes st !! ptr.1) as [vs|] eqn:E; [|discriminate].
  intros _. simpl. rewrite lookup_insert_eq. simpl.
  rewrite !insert_insert_eq. reflexivity.
Qed.

Lemma store_same st ptr v : deref st ptr = Some v -> store st ptr v = st.
Proof.
  unfold deref, store. destruct (sbvotes st !! ptr.1) as [vs|] eqn:E; [|discriminate].
  intros H. rewrite (insert_id vs _ _ H), (insert_id _ _ _ E).
  destruct st; reflexivity.
Qed.

Lemma store_votes st ptr v : votes (store st ptr v) = votes st.
Proof. unfold store. destruct (sbvotes st !! ptr.1); reflexivity. Qed.

Lemma store_proposals st ptr v : proposals (store st ptr v) = proposals st.
Proof. unfold store. destruct (sbvotes st !! ptr.1); reflexivity. Qed.

Lemma getHash_unspend (v : Vote.t) (h t : Z) :
  Vote.getHash (Vote.unspend v h t).1 = Vote.getHash v.
Proof.
  unfold Vote.unspend.
  destruct ((Vote.spentBlock v =? h) && (Vote.spentHash v =? t)); reflexivity.
Qed.

Lemma spendVote_active st ptr v p h t :
  deref st ptr = Some v ->
  proposals st !! Vote.proposal v = Some p ->
  (Proposal.superblock p <? h) = false ->
  spendVote st ptr h t
  = set_votes (store st ptr (Vote.spend v h t))
              (<[Vote.getHash v := Vote.spend (votes_at st (Vote.getHash v)) h t]>
                 (votes st)).
Proof.
  intros Hd Hp Hcut. unfold spendVote. rewrite Hd, Hp, Hcut.
  unfold votes_at, Vote.spend. rewrite getHash_set_spent, store_votes.
  reflexivity.
Qed.

Lemma unspendVote_active st ptr v vv p h t :
  deref st ptr = Some v ->
  proposals st !! Vote.proposal v = Some p ->
  (Proposal.superblock p <? h) = false ->
  votes st !! Vote.getHash v = Some vv ->
  unspendVote st ptr h t
  = set_votes (store st ptr (Vote.unspend v h t).1)
              (<[Vote.getHash v := (Vote.unspend vv h t).1]> (votes st)).
Proof.
  intros Hd Hp Hcut Hv. unfold unspendVote. rewrite Hd, Hp, Hcut.
  rewrite getHash_unspend, store_votes, Hv. reflexivity.
Qed.

Lemma unspend_mismatch (v : Vote.t) (h t : Z) :
  ~ recorded_marker v h t ->
  (Vote.unspend v h t).1 = v.
Proof.
  intros H. unfold Vote.unspend.
  destruct (Vote.spentBlock v =? h) eqn:E1;
    destruct (Vote.spentHash v =? t) eqn:E2; simpl; try reflexivity.
  exfalso. apply H. unfold recorded_marker. lia.
Qed.

Lemma unspend_match (v : Vote.t) (h t : Z) :
  Vote.spentBlock v = h -> Vote.spentHash v = t ->
  (Vote.unspend v h t).1 = Vote.set_spent v 0 0.
Proof.
  intros <- <-. unfold Vote.unspend. rewrite !Z.eqb_refl. reflexivity.
Qed.

Lemma store_deref_other st ptr ptr' v v' :
  ptr' <> ptr -> deref st ptr' = Some v' ->
  deref (store st ptr v) ptr' = Some v'.
Proof.
  intros Hne. unfold deref, store.
  destruct (sbvotes st !! ptr.1) as [vs|] eqn:E; [|exact id].
  simpl. destruct (decide (ptr'.1 = ptr.1)) as [E1|E1].
  - rewrite E1, E, lookup_insert_eq. intros H.
    rewrite lookup_insert_ne; [exact H|].
    intros E2. apply Hne. destruct ptr, ptr'; simpl in *; congruence.
  - rewrite lookup_insert_ne by congruence. exact id.
Qed.

(** [unspendVote] leaves every stored record whose recorded pair is not
    the pair given as it is, in [sbvotes] and in [votes]. *)
Lemma unspendVote_keeps_mismatch st ptr h t :
  (forall ptr' v', deref st ptr' = Some v' ->
     ~ recorded_marker v' h t ->
     deref (unspendVote st ptr h t) ptr' = Some v')
  /\ (forall k vv, votes st !! k = Some vv ->
        ~ recorded_marker vv h t ->
        votes (unspendVote st ptr h t) !! k = Some vv).
Proof.
  unfold unspendVote.
  destruct (deref st ptr) as [v|] eqn:Hd; [|split; intros; assumption].
  destruct (proposals st !! Vote.proposal v) as [p|]; [|split; intros; assumption].
  destruct (Proposal.superblock p <? h); [split; intros; assumption|].
  rewrite getHash_unspend, store_votes.
  assert (Hs : forall ptr' v', deref st ptr' = Some v' ->
     ~ recorded_marker v' h t ->
     deref (store st ptr (Vote.unspend v h t).1) ptr' = Some v').
  { intros ptr' v' Hd' Hm. destruct (decide (ptr' = ptr)) as [->|Hne].
    - rewrite Hd in Hd'. injection Hd' as <-.
      rewrite (unspend_mismatch v h t Hm). rewrite (store_same st ptr v Hd).
      exact Hd.
    - apply store_deref_other; assumption. }
  destruct (votes st !! Vote.getHash v) as [vv0|] eqn:Hv.
  - split.
    + intros ptr' v' Hd' Hm. unfold set_votes, deref. simpl.
      apply (Hs ptr' v' Hd' Hm).
    + intros k vv Hk Hm. unfold set_votes. simpl.
      destruct (decide (k = Vote.getHash v)) as [->|Hne].
      * rewrite Hv in Hk. injection Hk as <-.
        rewrite lookup_insert_eq, (unspend_mismatch vv0 h t Hm). reflexivity.
      * rewrite lookup_insert_ne by congruence. exact Hk.
  - split; [exact Hs|]. intros k vv Hk _. rewrite store_votes. exact Hk.
Qed.

(** Where the recorded pair is the pair given and the height is not past
    the superblock, the marker of the record is cleared. *)
Lemma unspendVote_clears_match st ptr v p h t :
  deref st ptr = Some v ->
  proposals st !! Vote.proposal v = Some p ->
  h <= Proposal.superblock p ->
  (Vote.spentBlock v = h -> Vote.spentHash v = t ->
   deref (unspendVote st ptr h t) ptr = Some (Vote.set_spent v 0 0))
  /\ (forall vv, votes st !! Vote.getHash v = Some vv ->
        Vote.spentBlock vv = h -> Vote.spentHash vv = t ->
        votes (unspendVote st ptr h t) !! Vote.getHash v
        = Some (Vote.set_spent vv 0 0)).
Proof.
  intros Hd Hp Hle.
  assert (Hcut : (Proposal.superblock p <? h) = false) by (apply Z.ltb_ge; lia).
  unfold unspendVote. rewrite Hd, Hp, Hcut, getHash_unspend, store_votes.
  split.
  - intros Hb Hh. rewrite (unspend_match v h t Hb Hh).
    destruct (votes st !! Vote.getHash v);
      [unfold set_votes, deref; simpl|]; apply (store_deref st ptr v _ Hd).
  - intros vv Hv Hb Hh. rewrite Hv. unfold set_votes. simpl.
    rewrite lookup_insert_eq, (unspend_match vv h t Hb Hh). reflexivity.
Qed.

Lemma unspendVote_mismatch_id st ptr v h t :
  deref st ptr = Some v ->
  ~ recorded_marker v h t ->
  (forall vv, votes st !! Vote.getHash v = Some vv ->
     ~ recorded_marker vv h t) ->
  unspendVote st ptr h t = st.
Proof.
  intros Hd Hm Hvm. unfold unspendVote. rewrite Hd.
  destruct (proposals st !! Vote.proposal v) as [p|]; [|reflexivity].
  destruct (Proposal.superblock p <? h); [reflexivity|].
  rewrite (unspend_mismatch v h t Hm), (store_same st ptr v Hd).
  destruct (votes st !! Vote.getHash v) as [vv|] eqn:Hv; [|reflexivity].
  rewrite (unspend_mismatch vv h t (Hvm vv eq_refl)).
  unfold set_votes. rewrite (insert_id _ _ _ Hv). destruct st; reflexivity.
Qed.

(** C9, as amended.  For a vote in the store (a pointer [ptr] into
    [sbvotes], with the same record in [votes]) whose spent marker is
    unset, [spendVote] followed by [unspendVote] with the same height and
    transaction hash gives back the state.  [Vote::unspend] clears the
    marker exactly when the recorded pair is the pair given, leaving the
    vote as it is otherwise.  [Governance::unspendVote] does the same to
    the store: in any state, a record of [sbvotes] or of [votes] whose
    recorded pair is not the pair given is left as it is, the whole state
    is left as it is when neither record of the vote holds that pair, and
    a record of the vote that holds it has its marker cleared when the
    height is not past the superblock of the proposal. *)
Theorem spend_then_unspend_is_identity (st : State) (ptr : VotePtr)
        (v : Vote.t) (h t : Z) :
  deref st ptr = Some v ->
  votes st !! Vote.getHash v = Some v ->
  Vote.spentBlock v = 0 -> Vote.spentHash v = 0 ->
  unspendVote (spendVote st ptr h t) ptr h t = st
  /\ (forall v' h' t',
        (snd (Vote.unspend v' h' t') = true <->
         Vote.spentBlock v' = h' /\ Vote.spentHash v' = t')
        /\ (snd (Vote.unspend v' h' t') = false ->
            fst (Vote.unspend v' h' t') = v'))
  /\ (forall st0 ptr0 h' t',
        (forall ptr' v', deref st0 ptr' = Some v' ->
           ~ recorded_marker v' h' t' ->
           deref (unspendVote st0 ptr0 h' t') ptr' = Some v')
        /\ (forall k vv, votes st0 !! k = Some vv ->
              ~ recorded_marker vv h' t' ->
              votes (unspendVote st0 ptr0 h' t') !! k = Some vv)
        /\ (forall v0, deref st0 ptr0 = Some v0 ->
              ~ recorded_marker v0 h' t' ->
              (forall vv, votes st0 !! Vote.getHash v0 = Some vv ->
                 ~ recorded_marker vv h' t') ->
              unspendVote st0 ptr0 h' t' = st0)
        /\ (forall v0 p, deref st0 ptr0 = Some v0 ->
              proposals st0 !! Vote.proposal v0 = Some p ->
              h' <= Proposal.superblock p ->
              (recorded_marker v0 h' t' ->
               deref (unspendVote st0 ptr0 h' t') ptr0
               = Some (Vote.set_spent v0 0 0))
              /\ (forall vv, votes st0 !! Vote.getHash v0 = Some vv ->
                    recorded_marker vv h' t' ->
                    votes (unspendVote st0 ptr0 h' t') !! Vote.getHash v0
                    = Some (Vote.set_spent vv 0 0)))).
Proof.
  intros Hd Hv Hb Hh.
  split; [|split; [intros; apply unspend_only_on_match|]].
  2:{ intros st0 ptr0 h' t'.
      split; [apply unspendVote_keeps_mismatch|].
      split; [apply unspendVote_keeps_mismatch|].
      split; [intros v0; apply unspendVote_mismatch_id|].
      intros v0 p H1 H2 H3.
      destruct (unspendVote_clears_match st0 ptr0 v0 p h' t' H1 H2 H3) as [Ha Hb'].
      split; [intros [? ?]; apply Ha; assumption|].
      intros vv Hvv [? ?]. apply (Hb' vv Hvv); assumption. }
  destruct (proposals st !! Vote.proposal v) as [p|] eqn:Hp.
  2:{ unfold spendVote, unspendVote. rewrite Hd, Hp, Hd, Hp. reflexivity. }
  destruct (Proposal.superblock p <? h) eqn:Hcut.
  { unfold spendVote, unspendVote. rewrite Hd, Hp, Hcut, Hd, Hp, Hcut.
    reflexivity. }
  rewrite (spendVote_active st ptr v p h t Hd Hp Hcut).
  unfold votes_at. rewrite Hv. simpl.
  set (sv := Vote.spend v h t).
  rewrite (unspendVote_active _ ptr sv sv p h t).
  - unfold sv. rewrite (unspend_spend v h t Hb Hh). simpl.
    unfold Vote.spend. rewrite getHash_set_spent.
    rewrite insert_insert_eq, (insert_id _ _ _ Hv).
    unfold set_votes, store, deref in *. simpl.
    destruct (sbvotes st !! ptr.1) as [vs|] eqn:E; [|discriminate]. simpl.
    rewrite lookup_insert_eq. simpl.
    rewrite !insert_insert_eq, (insert_id vs _ _ Hd), (insert_id _ _ _ E).
    destruct st; reflexivity.
  - unfold deref, set_votes. simpl. apply (store_deref st ptr v _ Hd).
  - unfold set_votes. simpl. rewrite store_proposals. exact Hp.
  - exact Hcut.
  - unfold set_votes, sv, Vote.spend. simpl. rewrite getHash_set_spent.
    apply lookup_insert_eq.
Qed.
(** The overloads that take the vote by reference behave alike: the vote
    handed in and the record of [sbvotes] come back as they were. *)
Lemma spend_then_unspend_ref_is_identity (st : State) (v : Vote.t) (h t : Z) :
  Vote.spentBlock v = 0 -> Vote.spentHash v = 0 ->
  (forall p mv sv,
      proposals st !! Vote.proposal v = Some p ->
      sbvotes st !! Proposal.superblock p = Some mv ->
      mv !! Vote.getHash v = Some sv ->
      Vote.spentBlock sv = 0 /\ Vote.spentHash sv = 0) ->
  unspendVote_ref (spendVote_ref st v h t).2 (spendVote_ref st v h t).1 h t
  = (v, st).
Proof.
  intros Hb Hh Hsync.
  assert (Hk : Vote.getHash (Vote.spend v h t) = Vote.getHash v) by reflexivity.
  assert (Hq : Vote.proposal (Vote.spend v h t) = Vote.proposal v) by reflexivity.
  unfold spendVote_ref. rewrite Hk.
  destruct (proposals st !! Vote.proposal v) as [p|] eqn:Hp.
  2:{ cbn [fst snd]. unfold unspendVote_ref. rewrite Hp. reflexivity. }
  destruct (Proposal.superblock p <? h) eqn:Hcut.
  { cbn [fst snd]. unfold unspendVote_ref. rewrite Hp, Hcut. reflexivity. }
  destruct (sbvotes st !! Proposal.superblock p) as [mv|] eqn:Hmv.
  2:{ cbn [fst snd]. unfold unspendVote_ref. rewrite Hq, Hp, Hcut.
      rewrite (unspend_spend v h t Hb Hh). cbn [fst snd]. rewrite Hmv.
      reflexivity. }
  destruct (mv !! Vote.getHash v) as [sv|] eqn:Hsv.
  2:{ cbn [fst snd]. unfold unspendVote_ref. rewrite Hq, Hp, Hcut.
      rewrite (unspend_spend v h t Hb Hh). cbn [fst snd]. rewrite Hmv, Hsv.
      reflexivity. }
  destruct (Hsync p mv sv eq_refl Hmv Hsv) as [Hsb Hsh].
  cbn [fst snd]. unfold unspendVote_ref, set_sbvotes.
  cbn [proposals sbvotes votes]. rewrite Hq, Hp, Hcut.
  rewrite (unspend_spend v h t Hb Hh). cbn [fst snd].
  rewrite lookup_insert_eq, lookup_insert_eq.
  rewrite (unspend_spend sv h t Hsb Hsh). cbn [fst snd].
  rewrite !insert_insert_eq, (insert_id mv _ _ Hsv), (insert_id _ _ _ Hmv).
  destruct st; reflexivity.
Qed.
End Store.

(** ** Payee selection *)
Section Payees.
Context `{Ext : Externals}.
Import Governance.

Lemma sort_insert_perm {A} (lt : A -> A -> bool) (x : A) (l : list A) :
  Permutation (x :: l) (sort_insert lt x l).
Proof.
  induction l as [|y l IH]; simpl; [reflexivity|].
  destruct (lt y x); [|reflexivity].
  rewrite perm_swap. apply perm_skip, IH.
Qed.

Lemma std_sort_perm {A} (lt : A -> A -> bool) (l : list A) :
  Permutation l (std_sort lt l).
Proof.
  induction l as [|x l IH]; simpl; [reflexivity|].
  rewrite <- sort_insert_perm. apply perm_skip, IH.
Qed.

Lemma netyes_counts (t : Tally) : counts_fit t -> netyes t = spec_netYes t.
Proof.
  unfold counts_fit, netyes, spec_netYes. apply to_int32_small.
Qed.

Lemma counts_fit_nonneg (t : Tally) :
  0 <= yes t <= INT32_MAX -> 0 <= no t <= INT32_MAX -> counts_fit t.
Proof. unfold counts_fit, in_int32, INT32_MAX. lia. Qed.

(** The comparator of the sort is the strict order of the rule. *)
Lemma payee_lt_before (a b : Proposal.t * Tally) :
  counts_fit a.2 -> counts_fit b.2 ->
  payee_lt a b = true <-> spec_before a b.
Proof.
  intros Ha Hb. unfold payee_lt, spec_before.
  rewrite (netyes_counts _ Ha), (netyes_counts _ Hb).
  destruct (spec_netYes a.2 =? spec_netYes b.2) eqn:E1;
    destruct (yes a.2 =? yes b.2) eqn:E2; simpl; lia.
Qed.

Lemma payee_lt_true (a b : Proposal.t * Tally) :
  counts_fit a.2 -> counts_fit b.2 ->
  payee_lt a b = true -> spec_order a b.
Proof.
  intros Ha Hb H. apply (payee_lt_before a b Ha Hb) in H.
  unfold spec_before in H. unfold spec_order. lia.
Qed.

Lemma payee_lt_false (a b : Proposal.t * Tally) :
  counts_fit a.2 -> counts_fit b.2 ->
  payee_lt a b = false -> spec_order b a.
Proof.
  intros Ha Hb H. unfold spec_order.
  destruct (payee_lt b a) eqn:E.
  - apply (payee_lt_before b a Hb Ha) in E. unfold spec_before in E. lia.
  - assert (Hn : ~ spec_before a b).
    { intros Hc. apply (payee_lt_before a b Ha Hb) in Hc. congruence. }
    assert (Hn' : ~ spec_before b a).
    { intros Hc. apply (payee_lt_before b a Hb Ha) in Hc. congruence. }
    unfold spec_before in *. lia.
Qed.

Lemma spec_order_trans (a b c : Proposal.t * Tally) :
  spec_order a b -> spec_order b c -> spec_order a c.
Proof. unfold spec_order. lia. Qed.

Lemma sort_insert_sorted (x : Proposal.t * Tally) (l : list (Proposal.t * Tally)) :
  counts_fit x.2 -> (forall r, In r l -> counts_fit r.2) ->
  StronglySorted spec_order l -> StronglySorted spec_order (sort_insert payee_lt x l).
Proof.
  intros Hx Hl Hs. induction Hs as [|y l Hs IH Hy]; simpl.
  - constructor; constructor.
  - assert (Hfy : counts_fit y.2) by (apply Hl; left; reflexivity).
    assert (Hl' : forall r, In r l -> counts_fit r.2)
      by (intros r Hr; apply Hl; right; exact Hr).
    destruct (payee_lt y x) eqn:E.
    + constructor; [exact (IH Hl')|].
      apply (Permutation_Forall (sort_insert_perm payee_lt x l)).
      constructor; [exact (payee_lt_true _ _ Hfy Hx E) | exact Hy].
    + pose proof (payee_lt_false _ _ Hfy Hx E) as Hxy.
      constructor; [constructor; assumption|].
      constructor; [exact Hxy|].
      eapply List.Forall_impl; [|exact Hy].
      intros c Hc. eapply spec_order_trans; eassumption.
Qed.

Lemma std_sort_sorted (l : list (Proposal.t * Tally)) :
  (forall r, In r l -> counts_fit r.2) ->
  StronglySorted spec_order (std_sort payee_lt l).
Proof.
  induction l as [|x l IH]; intros Hl; simpl; [constructor|].
  assert (Hl' : forall r, In r l -> counts_fit r.2)
    by (intros r Hr; apply Hl; right; exact Hr).
  apply sort_insert_sorted; [apply Hl; left; reflexivity | | exact (IH Hl')].
  intros r Hr. apply Hl'.
  exact (Permutation_in _ (Permutation_sym (std_sort_perm payee_lt l)) Hr).
Qed.

(** Two results that the rule orders strictly stand in that order after
    the sort, wherever they stood before it. *)
Lemma std_sort_pair (a b : Proposal.t * Tally) :
  counts_fit a.2 -> counts_fit b.2 -> spec_before a b ->
  std_sort payee_lt [a; b] = [a; b] /\ std_sort payee_lt [b; a] = [a; b].
Proof.
  intros Ha Hb Hab.
  assert (E1 : payee_lt a b = true) by (apply payee_lt_before; assumption).
  assert (E2 : payee_lt b a = false).
  { destruct (payee_lt b a) eqn:E; [|reflexivity].
    apply (payee_lt_before b a Hb Ha) in E.
    unfold spec_before in *. lia. }
  simpl. rewrite E1, E2. split; reflexivity.
Qed.

Lemma fill_payees_spec (props : list (Proposal.t * Tally)) (total : Z) :
  0 <= total <= INT64_MAX ->
  (forall r, In r props -> 0 <= Proposal.amount r.1 <= INT64_MAX) ->
  fill_payees props total = spec_fill props total.
Proof.
  revert total. induction props as [|r props IH]; intros total Ht Ha; simpl;
    [reflexivity|].
  assert (Hr : 0 <= Proposal.amount r.1 <= INT64_MAX) by (apply Ha; left; reflexivity).
  assert (Hin : in_int64 (total - Proposal.amount r.1)).
  { unfold in_int64, INT64_MAX in *. lia. }
  rewrite (to_int64_small _ Hin).
  assert (Hrest : forall r', In r' props -> 0 <= Proposal.amount r'.1 <= INT64_MAX)
    by (intros; apply Ha; right; assumption).
  destruct (0 <=? total - Proposal.amount r.1) eqn:E1;
    destruct (Proposal.amount r.1 <=? total) eqn:E2; try lia.
  - unfold payee_of. f_equal. apply IH; [lia | exact Hrest].
  - apply IH; assumption.
Qed.

(** C7.  [getSuperblockPayees] works on a rearrangement of the results
    that is sorted by net yes votes (yes - no, [spec_netYes]) descending,
    then yes votes descending, then block number ascending, and fills the
    budget min(proposalMaxAmount, blockSubsidy(h)) greedily over it: a
    proposal whose amount fits what remains is paid and deducted, one that
    does not fit is skipped and later ones are still tried.  Amounts and
    budget are non-negative 64-bit amounts, and yes - no of each tally is
    a value of the [int] that [Tally::netyes] returns. *)
Theorem getSuperblockPayees_sorted_greedy (h : Z)
        (results : list (Proposal.t * Tally)) (params : Consensus.Params) :
  0 <= superblockBudget h params <= INT64_MAX ->
  (forall r, In r results -> 0 <= Proposal.amount (fst r) <= INT64_MAX) ->
  (forall r, In r results -> in_int32 (yes (snd r) - no (snd r))) ->
  superblockBudget h params
  = Z.min (Consensus.proposalMaxAmount params) (Consensus.GetBlockSubsidy params h)
  /\ exists props,
      Permutation results props
      /\ StronglySorted spec_order props
      /\ getSuperblockPayees h results params
         = spec_fill props (superblockBudget h params).
Proof.
  intros Hb Ha Hc. split; [reflexivity|].
  exists (std_sort payee_lt results).
  split; [apply std_sort_perm | split; [apply std_sort_sorted, Hc|]].
  unfold getSuperblockPayees. destruct results as [|r results]; [reflexivity|].
  apply fill_payees_spec; [exact Hb|].
  intros r' Hr'. apply Ha.
  apply (Permutation_in _ (Permutation_sym (std_sort_perm payee_lt (r :: results)))),
    Hr'.
Qed.
End Payees.

(** ** Ordered containers *)
Section OrderedFacts.
Context {A : Type} (key : A -> Z).

Lemma set_insert_In (x e : A) (s : list A) :
  In e (set_insert key x s) -> e = x \/ In e s.
Proof.
  induction s as [|y s IH]; simpl.
  - intros [H|[]]; left; congruence.
  - destruct (key x <? key y); [|destruct (key y <? key x)]; simpl.
    + intros [H|H]; [left; congruence | right; exact H].
    + intros [H|H]; [right; left; exact H|].
      destruct (IH H) as [H'|H']; [left | right; right]; assumption.
    + intros H. right. exact H.
Qed.

Lemma set_insert_keys (x : A) (s : list A) (k : Z) :
  In k (List.map key (set_insert key x s)) <-> k = key x \/ In k (List.map key s).
Proof.
  induction s as [|y s IH]; simpl.
  - intuition congruence.
  - destruct (key x <? key y) eqn:E1; [|destruct (key y <? key x) eqn:E2]; simpl.
    + intuition congruence.
    + rewrite IH. intuition congruence.
    + assert (key x = key y) by lia. intuition congruence.
Qed.

Lemma set_insert_sorted (x : A) (s : list A) :
  key_sorted key s -> key_sorted key (set_insert key x s).
Proof.
  unfold key_sorted. induction 1 as [|y s Hs IH Hy]; simpl.
  - constructor; constructor.
  - destruct (key x <? key y) eqn:E1; [|destruct (key y <? key x) eqn:E2].
    + constructor; [constructor; assumption|].
      constructor; [lia|].
      eapply List.Forall_impl; [|exact Hy]. simpl. intros; lia.
    + constructor; [exact IH|].
      apply List.Forall_forall. intros e He.
      destruct (set_insert_In _ _ _ He) as [->|He']; [lia|].
      exact (proj1 (List.Forall_forall _ _) Hy e He').
    + constructor; assumption.
Qed.

Lemma set_count_sorted (x : A) (s : list A) :
  key_sorted key s ->
  (set_count key x s = true <-> In (key x) (List.map key s)).
Proof.
  unfold set_count, key_sorted. induction 1 as [|y s Hs IH Hy]; simpl.
  - split; [discriminate | intros []].
  - destruct (key x <? key y) eqn:E1; [|destruct (key y <? key x) eqn:E2].
    + split; [discriminate|]. intros [H|H]; [lia|].
      apply in_map_iff in H. destruct H as [e [He Hin]].
      pose proof (proj1 (List.Forall_forall _ _) Hy e Hin) as Hlt.
      cbv beta in Hlt. lia.
    + rewrite IH. split; [right; assumption | intros [H|H]; [lia | exact H]].
    + split; [intros _; left; lia | reflexivity].
Qed.

Lemma set_insert_present (x : A) (s : list A) :
  set_count key x s = true -> set_insert key x s = s.
Proof.
  unfold set_count. induction s as [|y s IH]; simpl; [discriminate|].
  destruct (key x <? key y); [discriminate|].
  destruct (key y <? key x); [|reflexivity].
  intros H. rewrite (IH H). reflexivity.
Qed.

Lemma set_insert_perm (x : A) (s : list A) :
  ~ In (key x) (List.map key s) -> Permutation (set_insert key x s) (x :: s).
Proof.
  induction s as [|y s IH]; simpl; intros Hn; [reflexivity|].
  destruct (key x <? key y) eqn:E1; [reflexivity|].
  destruct (key y <? key x) eqn:E2.
  - rewrite IH by tauto. apply perm_swap.
  - exfalso. apply Hn. left. lia.
Qed.

Lemma set_insert_range_In (xs s : list A) (e : A) :
  In e (set_insert_range key xs s) -> In e xs \/ In e s.
Proof.
  unfold set_insert_range. revert s.
  induction xs as [|x xs IH]; simpl; intros s H; [right; exact H|].
  destruct (IH _ H) as [H'|H']; [left; right; exact H'|].
  destruct (set_insert_In _ _ _ H') as [->|H'']; [left; left; reflexivity|].
  right; exact H''.
Qed.

Lemma set_insert_range_sorted (xs s : list A) :
  key_sorted key s -> key_sorted key (set_insert_range key xs s).
Proof.
  unfold set_insert_range. revert s.
  induction xs as [|x xs IH]; simpl; intros s H; [exact H|].
  apply IH, set_insert_sorted, H.
Qed.

Lemma set_insert_range_keys (xs s : list A) (k : Z) :
  In k (List.map key (set_insert_range key xs s))
  <-> In k (List.map key xs) \/ In k (List.map key s).
Proof.
  unfold set_insert_range. revert s.
  induction xs as [|x xs IH]; simpl; intros s; [tauto|].
  rewrite IH, set_insert_keys. intuition congruence.
Qed.

Lemma set_insert_range_perm (xs s : list A) :
  List.NoDup (List.map key xs) ->
  (forall k, In k (List.map key xs) -> ~ In k (List.map key s)) ->
  Permutation (set_insert_range key xs s) (xs ++ s).
Proof.
  unfold set_insert_range. revert s.
  induction xs as [|x xs IH]; simpl; intros s Hnd Hdis; [reflexivity|].
  apply NoDup_cons_iff in Hnd. destruct Hnd as [Hx Hnd].
  rewrite IH; [| exact Hnd |].
  - rewrite set_insert_perm by (apply Hdis; left; reflexivity).
    symmetry. apply Permutation_middle.
  - intros k Hk. rewrite set_insert_keys. intros [->|H]; [contradiction|].
    apply (Hdis k); [right; exact Hk | exact H].
Qed.

Lemma key_sorted_NoDup (s : list A) :
  key_sorted key s -> List.NoDup (List.map key s).
Proof.
  unfold key_sorted. induction 1 as [|y s Hs IH Hy]; simpl; constructor;
    [|exact IH].
  intros H. apply in_map_iff in H. destruct H as [e [He Hin]].
  pose proof (proj1 (List.Forall_forall _ _) Hy e Hin) as Hlt.
      cbv beta in Hlt. lia.
Qed.

Lemma key_sorted_filter (f : A -> bool) (s : list A) :
  key_sorted key s -> key_sorted key (List.filter f s).
Proof.
  unfold key_sorted. induction 1 as [|y s Hs IH Hy]; simpl; [constructor|].
  destruct (f y); [|exact IH].
  constructor; [exact IH|].
  apply List.Forall_forall. intros e He. apply filter_In in He.
  exact (proj1 (List.Forall_forall _ _) Hy e (proj1 He)).
Qed.

Context {V : Type}.

Lemma map_find_In (k : A) (m : list (A * V)) (v : V) :
  map_find key k m = Some v -> exists k', In (k', v) m /\ key k' = key k.
Proof.
  induction m as [|[k' v'] m IH]; simpl; [discriminate|].
  destruct (key k <? key k') eqn:E1; [discriminate|].
  destruct (key k' <? key k) eqn:E2.
  - intros H. destruct (IH H) as [k'' [Hin Hk]]. exists k''. tauto.
  - intros [= ->]. exists k'. split; [left; reflexivity | lia].
Qed.

Lemma map_assign_In (k : A) (v : V) (m : list (A * V)) (k0 : A) (v0 : V) :
  In (k0, v0) (map_assign key k v m) ->
  (k0 = k /\ v0 = v) \/ In (k0, v0) m
  \/ (v0 = v /\ key k0 = key k /\ exists v', In (k0, v') m).
Proof.
  induction m as [|[k' v'] m IH]; simpl.
  - intros [[= <- <-]|[]]. left. split; reflexivity.
  - destruct (key k <? key k') eqn:E1; [|destruct (key k' <? key k) eqn:E2]; simpl.
    + intros [[= <- <-]|H]; [left; split; reflexivity | right; left; exact H].
    + intros [H|H]; [right; left; left; exact H|].
      destruct (IH H) as [H'|[H'|[H1 [H2 [v'' H3]]]]];
        [left; exact H' | right; left; right; exact H'|].
      right; right. split; [exact H1 | split; [exact H2|]].
      exists v''. right. exact H3.
    + intros [[= <- <-]|H]; [|right; left; right; exact H].
      right; right. split; [reflexivity | split; [lia|]].
      exists v'. left. reflexivity.
Qed.

Lemma map_assign_has (k : A) (v : V) (m : list (A * V)) :
  exists k', In (k', v) (map_assign key k v m) /\ key k' = key k.
Proof.
  induction m as [|[k' v'] m IH]; simpl.
  - exists k. split; [left; reflexivity | reflexivity].
  - destruct (key k <? key k') eqn:E1; [|destruct (key k' <? key k) eqn:E2].
    + exists k. split; [left; reflexivity | reflexivity].
    + destruct IH as [k'' [Hin Hk]]. exists k''. split; [right; exact Hin | exact Hk].
    + exists k'. split; [left; reflexivity | lia].
Qed.

Lemma map_assign_keeps (k : A) (v : V) (m : list (A * V)) (k0 : A) (v0 : V) :
  In (k0, v0) m -> key k0 <> key k -> In (k0, v0) (map_assign key k v m).
Proof.
  induction m as [|[k' v'] m IH]; simpl; [intros []|].
  intros Hin Hne.
  destruct (key k <? key k') eqn:E1; [|destruct (key k' <? key k) eqn:E2].
  - right. exact Hin.
  - destruct Hin as [H|H]; [left; exact H | right; apply IH; assumption].
  - destruct Hin as [[= -> ->]|H]; [lia | right; exact H].
Qed.
End OrderedFacts.

(** ** Tallying *)
Section TallyFacts.
Context `{Ext : Externals}.
Import Governance.

Lemma sum_amounts_app (a b : list Vote.t) :
  sum_amounts (a ++ b) = sum_amounts a + sum_amounts b.
Proof. induction a as [|v a IH]; simpl; [reflexivity | rewrite IH; lia]. Qed.

Lemma sum_amounts_perm (a b : list Vote.t) :
  Permutation a b -> sum_amounts a = sum_amounts b.
Proof. induction 1; simpl; lia. Qed.

Lemma kind_amount_app (kind : Z) (a b : list Vote.t) :
  kind_amount kind (a ++ b) = kind_amount kind a + kind_amount kind b.
Proof. unfold kind_amount. rewrite List.filter_app. apply sum_amounts_app. Qed.

Lemma Permutation_filter_bool {A} (f : A -> bool) (a b : list A) :
  Permutation a b -> Permutation (List.filter f a) (List.filter f b).
Proof.
  induction 1 as [|x a b _ IH|x y a|a b c _ IH1 _ IH2]; simpl.
  - constructor.
  - destruct (f x); [apply perm_skip|]; exact IH.
  - destruct (f x), (f y); try reflexivity. apply perm_swap.
  - etransitivity; eassumption.
Qed.

Lemma kind_amount_perm (kind : Z) (a b : list Vote.t) :
  Permutation a b -> kind_amount kind a = kind_amount kind b.
Proof.
  intros H. unfold kind_amount. apply sum_amounts_perm, Permutation_filter_bool, H.
Qed.

Lemma kind_amount_cons (kind : Z) (v : Vote.t) (vs : list Vote.t) :
  kind_amount kind (v :: vs)
  = (if Vote.getVote v =? kind then Vote.amount v else 0) + kind_amount kind vs.
Proof.
  unfold kind_amount. simpl. destruct (Vote.getVote v =? kind); simpl; lia.
Qed.

(** The amounts of a per-user tally. *)
Lemma add_amount_fold (vs : list Vote.t) (T : Tally) (y n a : Z) :
  cyes T = to_int64 y -> cno T = to_int64 n -> cabstain T = to_int64 a ->
  let T' := fold_left add_amount vs T in
  cyes T' = to_int64 (y + kind_amount YES vs)
  /\ cno T' = to_int64 (n + kind_amount NO vs)
  /\ cabstain T' = to_int64 (a + kind_amount ABSTAIN vs).
Proof.
  revert T y n a. induction vs as [|v vs IH]; intros T y n a Hy Hn Ha; simpl.
  - unfold kind_amount. simpl. rewrite !Z.add_0_r. tauto.
  - rewrite !kind_amount_cons.
    specialize (IH (add_amount T v)
                   (y + (if Vote.getVote v =? YES then Vote.amount v else 0))
                   (n + (if Vote.getVote v =? NO then Vote.amount v else 0))
                   (a + (if Vote.getVote v =? ABSTAIN then Vote.amount v else 0))).
    rewrite !Z.add_assoc. apply IH; unfold add_amount, YES, NO, ABSTAIN in *;
      destruct (Vote.getVote v =? 1) eqn:E1;
      destruct (Vote.getVote v =? 0) eqn:E0;
      destruct (Vote.getVote v =? 2) eqn:E2; simpl;
      rewrite ?Z.add_0_r, ?Hy, ?Hn, ?Ha, ?to_int64_add_l; try reflexivity; lia.
Qed.

Lemma user_tally_amounts (params : Consensus.Params) (vs : list Vote.t) :
  cyes (user_tally params vs) = to_int64 (kind_amount YES vs)
  /\ cno (user_tally params vs) = to_int64 (kind_amount NO vs)
  /\ cabstain (user_tally params vs) = to_int64 (kind_amount ABSTAIN vs).
Proof.
  unfold user_tally. simpl.
  apply (add_amount_fold vs Tally_init 0 0 0); reflexivity.
Qed.

(** The amounts of the final tally. *)
Lemma add_tally_fold (ts : list Tally) (T : Tally) (y n a : Z) :
  cyes T = to_int64 y -> cno T = to_int64 n -> cabstain T = to_int64 a ->
  let T' := fold_left add_tally ts T in
  cyes T' = to_int64 (y + fold_right (fun t acc => cyes t + acc) 0 ts)
  /\ cno T' = to_int64 (n + fold_right (fun t acc => cno t + acc) 0 ts)
  /\ cabstain T' = to_int64 (a + fold_right (fun t acc => cabstain t + acc) 0 ts).
Proof.
  revert T y n a. induction ts as [|t ts IH]; intros T y n a Hy Hn Ha; simpl.
  - rewrite !Z.add_0_r. tauto.
  - rewrite !Z.add_assoc.
    apply IH; simpl; rewrite ?Hy, ?Hn, ?Ha, to_int64_add_l; reflexivity.
Qed.

Lemma group_insert_within pv k vote m :
  In vote pv -> groups_within pv m -> groups_within pv (group_insert k vote m).
Proof.
  intros Hv Hm k0 g0 v Hin Hg. unfold group_insert in Hin.
  assert (Hnew : forall e,
             In e (set_insert Vote.getHash vote (default [] (map_find id k m))) ->
             In e pv).
  { intros e He. destruct (set_insert_In _ _ _ _ He) as [->|He']; [exact Hv|].
    destruct (map_find id k m) as [g|] eqn:Ef; [|destruct He'].
    destruct (map_find_In _ _ _ _ Ef) as [k' [Hk' _]].
    eapply Hm; eassumption. }
  destruct (map_assign_In _ _ _ _ _ _ Hin) as [[_ ->]|[H|[-> _]]].
  - apply Hnew, Hg.
  - eapply Hm; eassumption.
  - apply Hnew, Hg.
Qed.

Lemma prep_within (kf : Vote.t -> Z) (pv l : list Vote.t) m :
  (forall v, In v l -> In v pv) -> groups_within pv m ->
  groups_within pv (fold_left (fun m vote => group_insert (kf vote) vote m) l m).
Proof.
  revert m. induction l as [|v l IH]; intros m Hl Hm; simpl; [exact Hm|].
  apply IH; [intros; apply Hl; right; assumption|].
  apply group_insert_within; [apply Hl; left; reflexivity | exact Hm].
Qed.

Lemma allUnique_of_sorted uvd item :
  key_sorted Vote.getHash (allUnique_of uvd item).
Proof.
  unfold allUnique_of.
  assert (H0 : key_sorted Vote.getHash (set_insert_range Vote.getHash item []))
    by (apply set_insert_range_sorted; constructor).
  revert H0. generalize (set_insert_range Vote.getHash item []).
  induction item as [|v item IH]; intros acc Hacc; simpl; [exact Hacc|].
  apply IH, set_insert_range_sorted, Hacc.
Qed.

Lemma allUnique_of_within pv uvd item :
  groups_within pv uvd -> (forall v, In v item -> In v pv) ->
  forall v, In v (allUnique_of uvd item) -> In v pv.
Proof.
  intros Hu Hi. unfold allUnique_of.
  assert (H0 : forall v, In v (set_insert_range Vote.getHash item []) -> In v pv).
  { intros v Hv. destruct (set_insert_range_In _ _ _ _ Hv) as [H|[]]. apply Hi, H. }
  revert H0. generalize (set_insert_range Vote.getHash item []).
  assert (Hsub : forall v, In v item -> In v item) by tauto.
  revert Hsub. generalize item at 1 3.
  induction item0 as [|v item0 IH]; intros Hsub acc Hacc; simpl; [exact Hacc|].
  apply IH; [intros; apply Hsub; right; assumption|].
  intros e He. destruct (set_insert_range_In _ _ _ _ He) as [H|H]; [|apply Hacc, H].
  destruct (map_find id (GetID (Vote.pubkey v)) uvd) as [g|] eqn:Ef; [|destruct H].
  destruct (map_find_In _ _ _ _ Ef) as [k' [Hk' _]].
  eapply Hu; eassumption.
Qed.

Lemma fold_right_sum_app (sel : Tally -> Z) (ts : list Tally) (t : Tally) :
  fold_right (fun t a => sel t + a) 0 (ts ++ [t])
  = fold_right (fun t a => sel t + a) 0 ts + sel t.
Proof. induction ts as [|t' ts IH]; simpl; [lia | rewrite IH; lia]. Qed.

Lemma to_int64_sum_step (s c a : Z) :
  to_int64 s = to_int64 c -> to_int64 (s + to_int64 a) = to_int64 (a + c).
Proof.
  intros H. rewrite to_int64_add_r, <- to_int64_add_l, H, to_int64_add_l.
  f_equal. lia.
Qed.

Lemma tally_step_inv params pv uvd acc item :
  groups_within pv uvd -> (forall v, In v (snd item) -> In v pv) ->
  tally_inv params pv acc -> tally_inv params pv (tally_step params uvd acc item).
Proof.
  intros Hu Hi. destruct acc as [counted tallies].
  intros (Hs & Hw & (groups & Hg1 & Hg2) & Hy & Hn & Ha). simpl in *.
  unfold tally_step.
  set (au := List.filter (fun v => negb (set_count Vote.getHash v counted))
                         (allUnique_of uvd item.2)).
  assert (Hau_sorted : key_sorted Vote.getHash au)
    by (apply key_sorted_filter, allUnique_of_sorted).
  assert (Hau_in : forall v, In v au -> In v pv).
  { intros v Hv. apply filter_In in Hv.
    eapply allUnique_of_within; [exact Hu | exact Hi | exact (proj1 Hv)]. }
  assert (Hperm : Permutation (set_insert_range Vote.getHash au counted)
                              (au ++ counted)).
  { apply set_insert_range_perm; [apply key_sorted_NoDup, Hau_sorted|].
    intros k Hk Hc. apply in_map_iff in Hk. destruct Hk as [v [<- Hv]].
    apply filter_In in Hv. destruct Hv as [_ Hv].
    apply negb_true_iff in Hv.
    apply (set_count_sorted Vote.getHash v counted Hs) in Hc. congruence. }
  destruct au as [|a0 au'] eqn:Eau.
  { split; [assumption|]. split; [assumption|].
    split; [exists groups; split; assumption|]. repeat split; assumption. }
  rewrite <- Eau in *. clear Eau.
  destruct (user_tally_amounts params au) as (Uy & Un & Ua).
  unfold tally_inv. simpl.
  split; [apply set_insert_range_sorted, Hs|].
  split.
  { intros v Hv. destruct (set_insert_range_In _ _ _ _ Hv); auto. }
  split.
  { exists (groups ++ [au]). split.
    - rewrite List.map_app, Hg1. reflexivity.
    - rewrite concat_app. simpl. rewrite List.app_nil_r, Hperm, Hg2.
      apply Permutation_app_comm. }
  rewrite !fold_right_sum_app, !(kind_amount_perm _ _ _ Hperm), !kind_amount_app.
  rewrite Uy, Un, Ua.
  repeat split; apply to_int64_sum_step; assumption.
Qed.

Lemma tally_loop_inv params pv uvd items acc :
  groups_within pv uvd -> groups_within pv items ->
  tally_inv params pv acc ->
  tally_inv params pv (fold_left (tally_step params uvd) items acc).
Proof.
  intros Hu. revert acc. induction items as [|item items IH]; intros acc Hi Hacc;
    simpl; [exact Hacc|].
  apply IH.
  - intros k g v Hin. apply (Hi k g v). right. exact Hin.
  - apply tally_step_inv; [exact Hu | | exact Hacc].
    intros v Hv. destruct item as [k g]. apply (Hi k g v); [left; reflexivity|exact Hv].
Qed.

(** C8.  When the loop of [getTally] ends, the [counted] set holds no two
    votes with the same vote hash; the per-user tallies are the tallies of
    groups of votes that together are the [counted] set, each vote in one
    group; every vote in it is a vote of the input for the proposal asked
    for; and each amount of the final tally is the (64-bit) sum of the
    amounts of the votes of that kind in [counted]: a vote's amount enters
    one per-user tally at most and the final tally once at most, whatever
    the input votes are. *)
Theorem getTally_counts_each_vote_once (proposal : Z) (votes : list Vote.t)
        (params : Consensus.Params) :
  let counted := fst (getTally_loop proposal votes params) in
  let tally := getTally proposal votes params in
  List.NoDup (List.map Vote.getHash counted)
  /\ (exists groups,
        snd (getTally_loop proposal votes params)
        = List.map (user_tally params) groups
        /\ Permutation (concat groups) counted)
  /\ (forall v, In v counted -> In v votes /\ Vote.proposal v = proposal)
  /\ cyes tally = to_int64 (kind_amount YES counted)
  /\ cno tally = to_int64 (kind_amount NO counted)
  /\ cabstain tally = to_int64 (kind_amount ABSTAIN counted).
Proof.
  intros counted tally.
  set (pv := proposalVotes_of proposal votes).
  assert (Hinv : tally_inv params pv (getTally_loop proposal votes params)).
  { unfold getTally_loop. fold pv.
    apply tally_loop_inv.
    - apply prep_within; [tauto | intros k g v []].
    - apply prep_within; [tauto | intros k g v []].
    - split; [constructor|]. split; [intros v []|].
      split; [exists []; split; reflexivity|]. repeat split; reflexivity. }
  destruct Hinv as (Hs & Hw & Hg & Hy & Hn & Ha).
  split; [apply key_sorted_NoDup, Hs|].
  split; [exact Hg|].
  split.
  { intros v Hv. apply Hw in Hv. unfold pv, proposalVotes_of in Hv.
    apply filter_In in Hv. destruct Hv as [H1 H2]. split; [exact H1 | lia]. }
  unfold tally, getTally.
  destruct (add_tally_fold (snd (getTally_loop proposal votes params))
                           Tally_init 0 0 0) as (Fy & Fn & Fa);
    try reflexivity.
  rewrite !Z.add_0_l in Fy, Fn, Fa.
  rewrite Fy, Fn, Fa, Hy, Hn, Ha. tauto.
Qed.
End TallyFacts.

(** ** Superblock results *)
Section Results.
Context `{Ext : Externals}.
Import Governance.

Lemma erased_iff (t : Tally) (uniqueVotes : Z) :
  erased t uniqueVotes = false <-> spec_passes t uniqueVotes.
Proof.
  unfold erased, spec_passes.
  set (yaynay := to_int32 (yes t + no t)).
  set (total := to_int32 (yaynay + abstain t)).
  rewrite !orb_false_iff, !negb_false_iff, !Qle_bool_iff.
  rewrite Z.eqb_neq, Z.leb_gt.
  split.
  - intros [[[H0 H1] H2] H3]. repeat split; try assumption.
    clearbody yaynay. clear total H2.
    destruct yaynay as [|q|q]; [contradiction | lia | exfalso].
    revert H1 H3. unfold Qle, Qdiv, Qmult, Qinv, inject_Z. simpl.
    destruct (yes t) as [|y|y]; simpl; lia.
  - intros (H0 & H1 & H2 & H3). repeat split; try assumption. lia.
Qed.

(** The two ratio tests, multiplied out. *)
Lemma spec_passes_int (t : Tally) (uniqueVotes : Z) :
  spec_passes t uniqueVotes <->
  let yaynay := to_int32 (yes t + no t) in
  let total := to_int32 (yaynay + abstain t) in
  0 < yaynay /\ 3 * yaynay <= 5 * yes t /\ uniqueVotes <= 4 * total /\ 0 < yes t.
Proof.
  unfold spec_passes.
  set (yaynay := to_int32 (yes t + no t)).
  set (total := to_int32 (yaynay + abstain t)). simpl.
  unfold Qle, Qdiv, Qmult, Qinv, inject_Z. simpl.
  split.
  - intros (H0 & H1 & H2 & H3). destruct yaynay as [|q|q]; try lia.
    simpl in H1. repeat split; lia.
  - intros (H0 & H1 & H2 & H3). destruct yaynay as [|q|q]; try lia.
    simpl. repeat split; lia.
Qed.

Lemma unique_step_fold (vs : list Vote.t) (seen : list COutPoint) (a : Z) :
  snd (fold_left unique_step vs (seen, to_int64 a))
  = to_int64 (a + sum_amounts (first_by_utxo seen vs)).
Proof.
  revert seen a. induction vs as [|v vs IH]; intros seen a; simpl.
  - f_equal. lia.
  - destruct (existsb (COutPoint_eqb (Vote.utxo v)) seen); [apply IH|].
    rewrite to_int64_add_l, IH. simpl. f_equal. lia.
Qed.

Lemma uniqueVotes_of_spec (vs : list Vote.t) (params : Consensus.Params) :
  uniqueVotes_of vs params
  = to_int32 (Z.quot (to_int64 (sum_amounts (first_by_utxo [] vs)))
                     (Consensus.voteBalance params)).
Proof.
  unfold uniqueVotes_of.
  change (fold_left unique_step vs ([], 0))
    with (fold_left unique_step vs ([], to_int64 0)).
  rewrite unique_step_fold. reflexivity.
Qed.

Lemma tallied_sound vs params ps r seen :
  (forall p t, In (p, t) r ->
     In p seen /\ t = getTally (Proposal.getHash p) vs params) ->
  forall p t, In (p, t) (tallied vs params ps r) ->
    (In p seen \/ In p ps) /\ t = getTally (Proposal.getHash p) vs params.
Proof.
  revert r seen. induction ps as [|q ps IH]; intros r seen Hr p t; simpl.
  - intros H. destruct (Hr p t H). tauto.
  - intros H.
    assert (Hr' : forall p0 t0,
               In (p0, t0)
                  (map_assign Proposal.getHash q
                              (getTally (Proposal.getHash q) vs params) r) ->
               In p0 (q :: seen)
               /\ t0 = getTally (Proposal.getHash p0) vs params).
    { intros p0 t0 Hin.
      destruct (map_assign_In _ _ _ _ _ _ Hin)
        as [[-> ->]|[Hin'|(-> & E & t' & Hin')]].
      - split; [left; reflexivity | reflexivity].
      - destruct (Hr _ _ Hin'). split; [right; assumption | assumption].
      - destruct (Hr _ _ Hin'). split; [right; assumption | rewrite E; reflexivity]. }
    destruct (IH _ _ Hr' p t H) as [[[->|Hs]|Hp] Ht]; tauto.
Qed.

Lemma tallied_complete vs params ps r :
  forall p,
    (In p ps \/ exists p', In (p', getTally (Proposal.getHash p) vs params) r
                           /\ Proposal.getHash p' = Proposal.getHash p) ->
    exists p', In (p', getTally (Proposal.getHash p) vs params) (tallied vs params ps r)
               /\ Proposal.getHash p' = Proposal.getHash p.
Proof.
  revert r. induction ps as [|q ps IH]; intros r p; simpl.
  - intros [[]|H]. exact H.
  - intros H. apply IH.
    destruct (Z.eq_dec (Proposal.getHash q) (Proposal.getHash p)) as [E|NE].
    + right. rewrite <- E. destruct (map_assign_has Proposal.getHash q
                 (getTally (Proposal.getHash q) vs params) r) as [p' [Hin Hk]].
      exists p'. split; [exact Hin | exact Hk].
    + destruct H as [[->|H]|[p' [Hin Hk]]]; [contradiction | left; exact H|].
      right. exists p'. split; [|exact Hk].
      apply map_assign_keeps; [exact Hin | lia].
Qed.

Lemma In_proposals_for st h p :
  In p (fst (getProposalsForSuperblock st h)) <->
  (exists k, proposals st !! k = Some p) /\ Proposal.superblock p = h.
Proof.
  unfold getProposalsForSuperblock, getProposals_sb. simpl.
  rewrite !filter_In, In_values. split.
  - intros [[Hk _] H]. split; [exact Hk | lia].
  - intros [Hk H]. repeat split; try exact Hk; lia.
Qed.

Lemma getSuperblockResults_eq st h params :
  isSuperblock h params = true ->
  getSuperblockResults st h params
  = List.filter
      (fun item =>
         negb (erased (snd item)
                      (uniqueVotes_of (snd (getProposalsForSuperblock st h)) params)))
      (tallied (snd (getProposalsForSuperblock st h)) params
               (fst (getProposalsForSuperblock st h)) []).
Proof.
  intros Hsb. unfold getSuperblockResults. rewrite Hsb. cbn [negb].
  unfold tallied.
  destruct (getProposalsForSuperblock st h) as [ps0 vs0]. reflexivity.
Qed.

Lemma getSuperblockResults_stored st h params p t :
  In (p, t) (getSuperblockResults st h params) ->
  (exists k, proposals st !! k = Some p) /\ Proposal.superblock p = h.
Proof.
  destruct (isSuperblock h params) eqn:Hsb.
  - rewrite (getSuperblockResults_eq st h params Hsb).
    intros Hin. apply filter_In in Hin. destruct Hin as [Hin _].
    destruct (tallied_sound _ params _ [] [] (fun _ _ F => match F with end)
                            p t Hin) as [[[]|Hp] _].
    apply In_proposals_for, Hp.
  - unfold getSuperblockResults. rewrite Hsb. intros [].
Qed.

(** C6.  At a superblock height [h], [getSuperblockResults] returns
    exactly the proposals stored for [h] whose tally, taken over the
    unspent votes recorded for [h], satisfies the four conditions
    yes + no > 0, yes / (yes + no) >= 0.60 (6 of 10 passes),
    yes + no + abstain >= 0.25 * uniqueVotes, and yes > 0, where
    uniqueVotes is the amount of the votes with distinct utxos divided by
    [voteBalance].  Proposals are compared by their hash, as
    [operator==] of the source does. *)
Theorem getSuperblockResults_exactly_passing (st : State) (h : Z)
        (params : Consensus.Params) :
  isSuperblock h params = true ->
  let ps := fst (getProposalsForSuperblock st h) in
  let vs := snd (getProposalsForSuperblock st h) in
  let uniqueVotes :=
    to_int32 (Z.quot (to_int64 (sum_amounts (first_by_utxo [] vs)))
                     (Consensus.voteBalance params)) in
  (forall p t, In (p, t) (getSuperblockResults st h params) ->
     (exists k, proposals st !! k = Some p) /\ Proposal.superblock p = h
     /\ t = getTally (Proposal.getHash p) vs params
     /\ spec_passes t uniqueVotes)
  /\ (forall k p, proposals st !! k = Some p -> Proposal.superblock p = h ->
        spec_passes (getTally (Proposal.getHash p) vs params) uniqueVotes ->
        exists p', In (p', getTally (Proposal.getHash p) vs params)
                      (getSuperblockResults st h params)
                   /\ Proposal.getHash p' = Proposal.getHash p)
  /\ spec_passes {| cyes := 6; cno := 4; cabstain := 0;
                    yes := 6; no := 4; abstain := 0 |} 10.
Proof.
  intros Hsb ps vs uniqueVotes.
  assert (Hps : forall p, In p ps <->
                  (exists k, proposals st !! k = Some p) /\ Proposal.superblock p = h)
    by (intros p; apply In_proposals_for).
  rewrite (getSuperblockResults_eq st h params Hsb).
  fold ps vs. rewrite uniqueVotes_of_spec. fold uniqueVotes.
  split; [|split].
  - intros p t Hin. apply filter_In in Hin. destruct Hin as [Hin He].
    simpl in He. apply negb_true_iff, erased_iff in He.
    destruct (tallied_sound vs params ps [] [] (fun _ _ F => match F with end)
                            p t Hin) as [[[]|Hp] Ht].
    apply Hps in Hp. tauto.
  - intros k p Hk Hh Hpass.
    destruct (tallied_complete vs params ps [] p) as [p' [Hin Hk']].
    { left. apply Hps. split; [exists k; exact Hk | exact Hh]. }
    exists p'. split; [|exact Hk'].
    apply filter_In. split; [exact Hin|]. simpl.
    apply negb_true_iff, erased_iff, Hpass.
  - apply spec_passes_int. vm_compute. repeat split; discriminate.
Qed.
End Results.

(** ** Superblock validation *)
Section Superblock.
Context `{Ext : Externals}.
Import Governance.

Lemma isValid_amount (p : Proposal.t) (params : Consensus.Params) :
  Proposal.isValid p params = true ->
  Consensus.proposalMinAmount params <= Proposal.amount p
  /\ Proposal.amount p
     <= Z.min (Consensus.proposalMaxAmount params)
              (Consensus.GetBlockSubsidy params (Proposal.superblock p)).
Proof.
  unfold Proposal.isValid.
  destruct (negb (Proposal.rrname (Proposal.name p))); [discriminate|].
  destruct (negb (Z.rem (Proposal.superblock p) (Consensus.superblock params) =? 0));
    [discriminate|].
  destruct ((Consensus.proposalMinAmount params <=? Proposal.amount p)
            && (Proposal.amount p <=?
                Z.min (Consensus.proposalMaxAmount params)
                      (Consensus.GetBlockSubsidy params (Proposal.superblock p))))
           eqn:E; [|discriminate].
  intros _. apply andb_true_iff in E. lia.
Qed.

Lemma std_sort_nonempty {A} (lt : A -> A -> bool) (l : list A) :
  l <> [] -> exists x rest, std_sort lt l = x :: rest /\ In x l.
Proof.
  intros Hne. pose proof (std_sort_perm lt l) as Hp.
  destruct (std_sort lt l) as [|x rest] eqn:E.
  - apply Permutation_sym, Permutation_nil in Hp. contradiction.
  - exists x, rest. split; [reflexivity|].
    apply (Permutation_in _ (Permutation_sym Hp)). left. reflexivity.
Qed.

(** *** Stored proposals are valid ones *)

Lemma addVote_proposals st v : proposals (addVote st v) = proposals st.
Proof.
  unfold addVote. destruct (proposals st !! Vote.proposal v); reflexivity.
Qed.

Lemma removeVote_proposals st v : proposals (removeVote st v) = proposals st.
Proof.
  unfold removeVote. destruct (votes st !! Vote.getHash v); [|reflexivity].
  simpl. destruct (proposals st !! Vote.proposal v) as [p|]; [|reflexivity].
  destruct (sbvotes st !! Proposal.superblock p) as [vs|]; [|reflexivity].
  destruct (vs !! Vote.getHash v); reflexivity.
Qed.

Lemma spendVote_proposals st ptr h t : proposals (spendVote st ptr h t) = proposals st.
Proof.
  unfold spendVote. destruct (deref st ptr) as [v|]; [|reflexivity].
  destruct (proposals st !! Vote.proposal v) as [p|]; [|reflexivity].
  destruct (Proposal.superblock p <? h); [reflexivity|].
  simpl. apply store_proposals.
Qed.

Lemma unspendVote_proposals st ptr h t :
  proposals (unspendVote st ptr h t) = proposals st.
Proof.
  unfold unspendVote. destruct (deref st ptr) as [v|]; [|reflexivity].
  destruct (proposals st !! Vote.proposal v) as [p|]; [|reflexivity].
  destruct (Proposal.superblock p <? h); [reflexivity|].
  destruct (votes _ !! _); simpl; apply store_proposals.
Qed.

Lemma fold_left_proposals {A} (f : State -> A -> State) (l : list A) (st : State) :
  (forall st a, proposals (f st a) = proposals st) ->
  proposals (fold_left f l st) = proposals st.
Proof.
  intros Hf. revert st. induction l as [|a l IH]; intros st; simpl; [reflexivity|].
  rewrite IH. apply Hf.
Qed.

Lemma addProposal_valid params st p :
  proposals_valid params st -> Proposal.isValid p params = true ->
  proposals_valid params (addProposal st p).
Proof.
  intros Hst Hp k q. unfold addProposal.
  destruct (proposals st !! Proposal.getHash p) eqn:E; [apply Hst|].
  simpl. rewrite lookup_insert. case_decide.
  - intros [= <-]. exact Hp.
  - apply Hst.
Qed.

Lemma remove_block_proposal_valid params h st p :
  proposals_valid params st -> proposals_valid params (remove_block_proposal h st p).
Proof.
  intros Hst k q. unfold remove_block_proposal.
  destruct (proposals st !! Proposal.getHash p) as [sp|]; [|apply Hst].
  destruct (Proposal.blockNumber sp =? h); [|apply Hst].
  unfold removeProposal. simpl. rewrite lookup_delete. case_decide; [discriminate|].
  apply Hst.
Qed.

Lemma dataFromOut_valid st block tx params bi cp n out ret ret' :
  Forall (fun p => Proposal.isValid p params = true) (fst ret) ->
  dataFromOut st block tx params bi cp n out ret = Return ret' ->
  Forall (fun p => Proposal.isValid p params = true) (fst ret').
Proof.
  intros Hret. unfold dataFromOut. destruct ret as [ps vs]. simpl in Hret.
  destruct (scriptPubKey out) as [|b0 rest] eqn:Escript; [intros [= <-]; exact Hret|].
  destruct (negb (Z_of_byte b0 =? OP_RETURN)); [intros [= <-]; exact Hret|].
  destruct (script_data (b0 :: rest)) as [data|]; [|intros [= <-]; exact Hret].
  destruct (stream_read NetworkObject.Unserialize data) as [obj|]; [|discriminate].
  simpl.
  destruct (negb (NetworkObject.isValid obj)); [intros [= <-]; exact Hret|].
  destruct (NetworkObject.getType obj =? PROPOSAL).
  - destruct (stream_read _ data) as [proposal|]; [|discriminate]. simpl.
    destruct (Proposal.isValid proposal params) eqn:Ev; simpl;
      [|intros [= <-]; exact Hret].
    destruct (match bi with Some h => _ | None => true end);
      intros [= <-]; [|exact Hret].
    simpl. apply List.Forall_forall. intros e He.
    destruct (set_insert_In _ _ _ _ He) as [->|He']; [exact Ev|].
    exact (proj1 (List.Forall_forall _ _) Hret e He').
  - destruct (NetworkObject.getType obj =? VOTE); [|intros [= <-]; exact Hret].
    destruct (stream_read _ data) as [vote|]; [|discriminate]. simpl.
    destruct (_ || _ || _); intros [= <-]; exact Hret.
Qed.

Lemma dataFromOuts_valid st block tx params bi cp outs n ret ret' :
  Forall (fun p => Proposal.isValid p params = true) (fst ret) ->
  dataFromOuts st block tx params bi cp n outs ret = Return ret' ->
  Forall (fun p => Proposal.isValid p params = true) (fst ret').
Proof.
  revert n ret. induction outs as [|out outs IH]; intros n ret Hret; simpl.
  - intros [= <-]. exact Hret.
  - destruct (dataFromOut st block tx params bi cp n out ret) as [r1|] eqn:E1;
      [|discriminate].
    simpl. apply IH. eapply dataFromOut_valid; eassumption.
Qed.

Lemma dataFromBlock_valid st block params bi cp ps vs :
  dataFromBlock st block [] [] params bi cp = Return (ps, vs) ->
  Forall (fun p => Proposal.isValid p params = true) ps.
Proof.
  unfold dataFromBlock.
  assert (H0 : Forall (fun p => Proposal.isValid p params = true)
                      (fst (([] : list Proposal.t), ([] : list Vote.t))))
    by constructor.
  revert H0. generalize (([] : list Proposal.t), ([] : list Vote.t)).
  induction (vtx block) as [|tx txs IH]; intros ret Hret; simpl.
  - intros [= ->]. exact Hret.
  - destruct (IsCoinBase tx); [apply IH, Hret|].
    destruct (dataFromOuts st block tx params bi cp 0 (vout tx) ret) as [r1|] eqn:E1;
      [|discriminate].
    simpl. apply IH. eapply dataFromOuts_valid; eassumption.
Qed.

Lemma proposals_valid_eq params st st' :
  proposals st' = proposals st -> proposals_valid params st ->
  proposals_valid params st'.
Proof. unfold proposals_valid. intros ->. tauto. Qed.

Lemma processBlock_valid params st block pindex tip st' :
  proposals_valid params st ->
  processBlock st block pindex params tip = Return st' ->
  proposals_valid params st'.
Proof.
  intros Hst. unfold processBlock.
  destruct (dataFromBlock st block [] [] params (Some pindex) tip) as [[ps vs]|] eqn:E;
    [|discriminate].
  simpl. apply dataFromBlock_valid in E.
  assert (H1 : proposals_valid params (fold_left addProposal ps st)).
  { revert st Hst. induction E as [|p ps Hp _ IH]; intros st Hst; simpl; [exact Hst|].
    apply IH, addProposal_valid; assumption. }
  assert (H2 : proposals_valid params
                 (fold_left (insert_block_vote tip) vs (fold_left addProposal ps st))).
  { eapply proposals_valid_eq; [|exact H1].
    apply fold_left_proposals. intros s v. unfold insert_block_vote.
    destruct (tip && negb (hasProposal s (Vote.proposal v))); [reflexivity|].
    destruct (votes s !! Vote.getHash v) as [stored|].
    - destruct (Vote.time stored <? Vote.time v); [apply addVote_proposals|].
      destruct (_ <? _); [apply addVote_proposals | reflexivity].
    - destruct (tip && Vote.IsVoteSpent v false); [reflexivity | apply addVote_proposals]. }
  destruct (negb tip || bool_decide _); intros [= <-]; [exact H2|].
  eapply proposals_valid_eq; [|exact H2].
  unfold spend_block_votes. apply fold_left_proposals. intros s ptr.
  destruct (deref s ptr) as [v|]; [|reflexivity].
  destruct (prevouts_of block !! _); [apply spendVote_proposals | reflexivity].
Qed.

Lemma BlockDisconnected_valid params st block h st' :
  proposals_valid params st ->
  BlockDisconnected st block h params = Return st' ->
  proposals_valid params st'.
Proof.
  intros Hst. unfold BlockDisconnected.
  destruct (dataFromBlock st block [] [] params None true) as [[ps vs]|];
    [|discriminate].
  simpl.
  assert (H1 : proposals_valid params (fold_left (remove_block_vote h) vs st)).
  { eapply proposals_valid_eq; [|exact Hst].
    apply fold_left_proposals. intros s v. unfold remove_block_vote.
    destruct (votes s !! Vote.getHash v) as [sv|]; [|reflexivity].
    destruct (Vote.blockNumber sv =? h); [apply removeVote_proposals | reflexivity]. }
  assert (H2 : proposals_valid params
                 (fold_left (remove_block_proposal h) ps
                            (fold_left (remove_block_vote h) vs st))).
  { revert H1. generalize (fold_left (remove_block_vote h) vs st).
    induction ps as [|p ps IH]; intros s Hs; simpl; [exact Hs|].
    apply IH, remove_block_proposal_valid, Hs. }
  destruct (h =? INT32_MAX); intros [= <-]; [exact H2|].
  eapply proposals_valid_eq; [|exact H2].
  unfold unspend_block_votes. apply fold_left_proposals. intros s ptr.
  destruct (deref s ptr) as [v|]; [|reflexivity].
  destruct (prevouts_of block !! _); [apply unspendVote_proposals | reflexivity].
Qed.

(** Every store the node goes through holds valid proposals only. *)
Lemma reachable_valid params st :
  reachable params st -> proposals_valid params st.
Proof.
  induction 1 as [|st block pindex tip st' _ IH Hp|st block h st' _ IH Hd|st v _ IH].
  - intros k p H. unfold reset in H. simpl in H. rewrite lookup_empty in H.
    discriminate.
  - eapply processBlock_valid; eassumption.
  - eapply BlockDisconnected_valid; eassumption.
  - eapply proposals_valid_eq; [apply addVote_proposals | exact IH].
Qed.

(** With valid proposals in the store, results that are not empty give
    payees that are not empty: the proposal sorted first fits the budget. *)
Lemma payees_nonempty (st : State) (h : Z) (params : Consensus.Params) :
  proposals_valid params st ->
  0 <= Consensus.proposalMinAmount params ->
  Consensus.proposalMaxAmount params <= INT64_MAX ->
  getSuperblockResults st h params <> [] ->
  getSuperblockPayees h (getSuperblockResults st h params) params <> [].
Proof.
  intros Hvalid Hmin Hmax Hne.
  unfold getSuperblockPayees.
  destruct (getSuperblockResults st h params) as [|r0 rs] eqn:Er; [contradiction|].
  destruct (std_sort_nonempty payee_lt (r0 :: rs)) as [x [rest [Es Hx]]];
    [discriminate|].
  rewrite Es. simpl.
  destruct x as [p t]. rewrite <- Er in Hx.
  destruct (getSuperblockResults_stored st h params p t Hx) as [[k Hk] Hh].
  destruct (isValid_amount p params (Hvalid k p Hk)) as [Hlo Hhi].
  rewrite Hh in Hhi. simpl.
  assert (Hin : in_int64 (superblockBudget h params - Proposal.amount p)).
  { unfold in_int64, superblockBudget, INT64_MAX in *. lia. }
  rewrite (to_int64_small _ Hin).
  destruct (0 <=? superblockBudget h params - Proposal.amount p) eqn:E;
    [discriminate|].
  unfold superblockBudget in *. lia.
Qed.

(** C5.  For a proof-of-stake block at a superblock height, when the
    expected payee list computed for that height is empty,
    [isValidSuperblock] returns true (and leaves [paymentsRet] as it
    was).  The store is one the node goes through, from the empty store by
    connecting and disconnecting blocks under the same parameters; the
    minimum proposal amount is not negative and the maximum is a 64-bit
    amount. *)
Theorem isValidSuperblock_without_payees (st : State) (block : CBlock) (h : Z)
        (params : Consensus.Params) (paymentsRet : Z) :
  reachable params st ->
  0 <= Consensus.proposalMinAmount params ->
  Consensus.proposalMaxAmount params <= INT64_MAX ->
  isSuperblock h params = true ->
  IsProofOfStake block = true ->
  getSuperblockPayees h (getSuperblockResults st h params) params = [] ->
  isValidSuperblock st block h params paymentsRet = (true, paymentsRet).
Proof.
  intros Hreach Hmin Hmax Hsb Hpos Hempty.
  pose proof (reachable_valid params st Hreach) as Hvalid.
  unfold isValidSuperblock. rewrite Hsb, Hpos. simpl.
  destruct (getSuperblockResults st h params) as [|r0 rs] eqn:Er; [reflexivity|].
  exfalso. apply (payees_nonempty st h params Hvalid Hmin Hmax).
  - rewrite Er. discriminate.
  - rewrite Er. exact Hempty.
Qed.
End Superblock.

(** ** Block extraction and the disconnect handler *)
Section Blocks.
Context `{Ext : Externals}.
Import Governance.

(** A vote whose hash is in [votesRet] already leaves the set as it is,
    whatever its signature hash: [std::set::insert] does not replace. *)
Lemma insert_vote_present (votesRet : list Vote.t) (vote : Vote.t) :
  set_count Vote.getHash vote votesRet = true ->
  insert_vote votesRet vote = votesRet.
Proof.
  intros H. unfold insert_vote. rewrite H.
  destruct (set_find Vote.getHash vote votesRet) as [it|]; [|reflexivity].
  destruct (UintToArith256 (Vote.sigHash it) <? UintToArith256 (Vote.sigHash vote));
    [|reflexivity].
  apply set_insert_present, H.
Qed.

(** An OP_RETURN output whose push-data is shorter than the two-byte header
    makes the loop body throw. *)
Lemma dataFromOut_short_header st block tx params bi cp n out ret b0 rest data :
  scriptPubKey out = b0 :: rest -> Z_of_byte b0 = OP_RETURN ->
  script_data (scriptPubKey out) = Some data ->
  (List.length data < 2)%nat ->
  dataFromOut st block tx params bi cp n out ret = Throw.
Proof.
  intros Hs Hop Hd Hlen. unfold dataFromOut. destruct ret as [ps vs].
  rewrite Hd, Hs, Hop. simpl.
  destruct data as [|d0 [|d1 data]]; simpl in Hlen; try lia; reflexivity.
Qed.

(** A throw in one output ends the loops over the outputs and over the
    transactions. *)
Lemma dataFromOuts_throw st block tx params bi cp n outs1 out outs2 ret :
  (forall m r, dataFromOut st block tx params bi cp m out r = Throw) ->
  dataFromOuts st block tx params bi cp n (outs1 ++ out :: outs2) ret = Throw.
Proof.
  intros Hout. revert n ret.
  induction outs1 as [|o outs1 IH]; intros n ret; simpl.
  - rewrite Hout. reflexivity.
  - destruct (dataFromOut st block tx params bi cp n o ret); simpl;
      [apply IH | reflexivity].
Qed.

Lemma getMutableSBVotes_unspent st hash ptr :
  In ptr (getMutableSBVotes st hash) ->
  exists v, deref st ptr = Some v /\ Vote.spent v = false.
Proof.
  unfold getMutableSBVotes.
  destruct (proposals st !! hash) as [p|]; [|intros []].
  destruct (sbvotes st !! Proposal.superblock p) as [vs|] eqn:Hvs; [|intros []].
  rewrite in_map_iff. intros [[k v] [E H]]. apply filter_In in H.
  destruct H as [Hin H]. simpl in *. apply andb_true_iff in H.
  destruct H as [_ H2]. apply In_items in Hin. subst ptr.
  exists v. unfold deref. simpl. rewrite Hvs.
  split; [exact Hin | apply negb_true_iff, H2].
Qed.

Lemma unspendVote_on_unspent st ptr v h t :
  0 < h -> deref st ptr = Some v -> Vote.spent v = false ->
  sbvotes (unspendVote st ptr h t) = sbvotes st.
Proof.
  intros Hh Hd Hs. unfold unspendVote. rewrite Hd.
  destruct (proposals st !! Vote.proposal v) as [p|]; [|reflexivity].
  destruct (Proposal.superblock p <? h); [reflexivity|].
  assert (E : (Vote.unspend v h t).1 = v).
  { unfold Vote.unspend, Vote.spent in *.
    destruct (Vote.spentBlock v =? h) eqn:E1; [lia | reflexivity]. }
  rewrite E, (store_same st ptr v Hd).
  destruct (votes st !! Vote.getHash v); reflexivity.
Qed.

(** The unspend pass of [BlockDisconnected] works on the pointers
    [getMutableSBVotes] returns, which are those of unspent votes: at a
    positive height it leaves every record of [sbvotes] as it is. *)
Lemma unspend_block_votes_sbvotes (block : CBlock) (h : Z) (st : State) :
  0 < h -> sbvotes (unspend_block_votes block h st) = sbvotes st.
Proof.
  intros Hh. unfold unspend_block_votes.
  assert (Hptrs : forall ptr, In ptr (svotes_of st h) ->
                    exists v, deref st ptr = Some v /\ Vote.spent v = false).
  { intros ptr Hin. unfold svotes_of in Hin. apply in_flat_map in Hin.
    destruct Hin as [p [_ Hin]]. eapply getMutableSBVotes_unspent, Hin. }
  revert Hptrs. generalize (svotes_of st h). intros ptrs.
  assert (Hgen : forall st', sbvotes st' = sbvotes st ->
            (forall ptr, In ptr ptrs ->
               exists v, deref st ptr = Some v /\ Vote.spent v = false) ->
            sbvotes
              (fold_left
                 (fun st0 v =>
                    match deref st0 v with
                    | Some vote =>
                        match prevouts_of block !! COutPoint_key (Vote.utxo vote) with
                        | Some txhash => unspendVote st0 v h txhash
                        | None => st0
                        end
                    | None => st0
                    end) ptrs st') = sbvotes st).
  { induction ptrs as [|ptr ptrs IH]; intros st' Hst' Hp; simpl; [exact Hst'|].
    apply IH; [|intros; apply Hp; right; assumption].
    destruct (Hp ptr (or_introl eq_refl)) as [v [Hd Hs]].
    assert (Hd' : deref st' ptr = Some v) by (unfold deref in *; rewrite Hst'; exact Hd).
    rewrite Hd'.
    destruct (prevouts_of block !! COutPoint_key (Vote.utxo v)); [|exact Hst'].
    rewrite (unspendVote_on_unspent st' ptr v h _ Hh Hd' Hs). exact Hst'. }
  intros Hp. apply Hgen; [reflexivity | exact Hp].
Qed.
End Blocks.

(** ** The worked chain *)
Module ScenarioFacts.
Import Governance Scenario.

(** C1, on the code: [change_block] carries two votes with one vote hash
    in one transaction, NO first and YES second, and the signature hash
    of the YES vote is the larger 256-bit integer; [dataFromBlock]
    returns the NO vote.  The vote found first is kept in every case,
    since the [insert] meant to replace it does not touch a [std::set]
    that holds the key. *)
Theorem dataFromBlock_keeps_first_of_two_votes :
  Vote.getHash (cast NO) = Vote.getHash (cast YES)
  /\ UintToArith256 (Vote.sigHash (cast NO)) < UintToArith256 (Vote.sigHash (cast YES))
  /\ (exists kept,
        dataFromBlock st140 change_block [] [] params (Some 150) true
        = Return ([], [kept])
        /\ Vote.vote kept = NO /\ Vote.time kept = 1500
        /\ Vote.getHash kept = Vote.getHash (cast YES))
  /\ (forall (E : Externals) votesRet vote,
        set_count Vote.getHash vote votesRet = true ->
        insert_vote votesRet vote = votesRet).
Proof.
  split; [vm_compute; reflexivity|]. split; [vm_compute; reflexivity|]. split.
  - eexists. split; [vm_compute; reflexivity|].
    split; [vm_compute; reflexivity|]. split; vm_compute; reflexivity.
  - intros E votesRet vote. apply insert_vote_present.
Qed.

(** C3, on the code: the first governance output of [truncated_block]
    pushes the single byte 01.  Reading the two-byte header from it runs
    off the end of the stream, nothing in [dataFromBlock] or
    [processBlock] handles that, and the call ends there by throwing,
    for every store and all collaborators: the well-formed vote in the
    next output is not reached.  A proposal cut off inside its body
    ([truncated_body_block]) ends the call in the same way.  The same vote
    alone in a block is extracted.  In general a push-data shorter than the header makes the
    loop over the outputs of its transaction throw, whatever the outputs
    before and after it are. *)
Theorem truncated_payload_throws :
  (forall (E : Externals) st prm blockIndex checkProposal,
      dataFromBlock st truncated_block [] [] prm blockIndex checkProposal = Throw)
  /\ (forall (E : Externals) st prm pindex tip,
        processBlock st truncated_block pindex prm tip = Throw)
  /\ (forall (E : Externals) st prm blockIndex checkProposal,
        dataFromBlock st truncated_body_block [] [] prm blockIndex checkProposal
        = Throw)
  /\ dataFromBlock st140 vote_block [] [] params (Some 150) true
     = Return ([], [recorded])
  /\ (forall (E : Externals) st block tx prm bi cp n outs1 out outs2 ret b0 rest data,
        scriptPubKey out = b0 :: rest -> Z_of_byte b0 = OP_RETURN ->
        script_data (scriptPubKey out) = Some data ->
        (List.length data < 2)%nat ->
        dataFromOuts st block tx prm bi cp n (outs1 ++ out :: outs2) ret = Throw).
Proof.
  split; [|split; [|split; [|split]]].
  - intros E st prm blockIndex checkProposal. vm_compute. reflexivity.
  - intros E st prm pindex tip. vm_compute. reflexivity.
  - intros E st prm blockIndex checkProposal. vm_compute. reflexivity.
  - vm_compute. reflexivity.
  - intros E st block tx prm bi cp n outs1 out outs2 ret b0 rest data Hs Hop Hd Hlen.
    apply dataFromOuts_throw. intros m r.
    eapply dataFromOut_short_header; eassumption.
Qed.

(** C4, on the code: the vote recorded at height 150 is marked spent by
    the block at height 160, whose transaction 33 spends its utxo; its
    proposal's superblock is 200.  Disconnecting that block gives back
    the same store: the vote still carries (160, 33).  The handler takes
    the votes to unspend from [getMutableSBVotes], which returns unspent
    votes only, so that for every store and every block at a positive
    height its unspend pass leaves [sbvotes] as it is. *)
Theorem BlockDisconnected_leaves_vote_spent :
  deref st150 recorded_ptr = Some recorded
  /\ deref st160 recorded_ptr = Some (Vote.spend recorded 160 33)
  /\ prevouts_of spend_block !! COutPoint_key (Vote.utxo recorded) = Some 33
  /\ Proposal.superblock (getProposal st160 (Vote.proposal recorded)) = 200
  /\ BlockDisconnected st160 spend_block 160 params = Return st160
  /\ getMutableSBVotes st160 (Vote.proposal recorded) = []
  /\ (forall (E : Externals) block h st,
        0 < h -> sbvotes (unspend_block_votes block h st) = sbvotes st).
Proof.
  split; [vm_compute; reflexivity|]. split; [vm_compute; reflexivity|].
  split; [vm_compute; reflexivity|]. split; [vm_compute; reflexivity|].
  split; [vm_compute; reflexivity|]. split; [vm_compute; reflexivity|].
  intros E block h st. apply unspend_block_votes_sbvotes.
Qed.

(** C9, refuted as stated: the vote of the store [st160] is spent at
    (160, 33); spending it at (170, 99) and unspending it at (170, 99)
    leaves it unspent, which is not the state before. *)
Lemma spend_then_unspend_changes_spent_vote :
  deref st160 recorded_ptr = Some (Vote.spend recorded 160 33)
  /\ unspendVote (spendVote st160 recorded_ptr 170 99) recorded_ptr 170 99 <> st160.
Proof.
  split; [vm_compute; reflexivity|].
  intros H.
  assert (E1 : option_map Vote.spentBlock
                 (deref (unspendVote (spendVote st160 recorded_ptr 170 99)
                                     recorded_ptr 170 99) recorded_ptr)
               = Some 0) by (vm_compute; reflexivity).
  assert (E2 : option_map Vote.spentBlock (deref st160 recorded_ptr) = Some 160)
    by (vm_compute; reflexivity).
  rewrite H, E2 in E1. clear H. discriminate E1.
Qed.

(** The vote recorded at 150 is spent at (160, 33) and unspent again; in
    the state [st160], where it is spent at (160, 33), unspending it at
    (170, 99) changes nothing and unspending it at (160, 33) clears the
    marker. *)
Lemma spend_then_unspend_is_identity_witness :
  unspendVote (spendVote st150 recorded_ptr 160 33) recorded_ptr 160 33 = st150
  /\ unspendVote st160 recorded_ptr 170 99 = st160
  /\ deref (unspendVote st160 recorded_ptr 160 33) recorded_ptr = Some recorded.
Proof.
  assert (H1 : deref st150 recorded_ptr = Some recorded) by (vm_compute; reflexivity).
  assert (H2 : votes st150 !! Vote.getHash recorded = Some recorded)
    by (vm_compute; reflexivity).
  assert (H3 : Vote.spentBlock recorded = 0) by reflexivity.
  assert (H4 : Vote.spentHash recorded = 0) by reflexivity.
  destruct (spend_then_unspend_is_identity st150 recorded_ptr recorded 160 33
              H1 H2 H3 H4) as (Hid & _ & Hgov).
  split; [exact Hid|].
  assert (D : deref st160 recorded_ptr = Some (Vote.spend recorded 160 33))
    by (vm_compute; reflexivity).
  assert (V : votes st160 !! Vote.getHash (Vote.spend recorded 160 33)
              = Some (Vote.spend recorded 160 33)) by (vm_compute; reflexivity).
  assert (P : proposals st160 !! Vote.proposal (Vote.spend recorded 160 33)
              = Some stored_alpha) by (vm_compute; reflexivity).
  split.
  - destruct (Hgov st160 recorded_ptr 170 99) as (_ & _ & Hsame & _).
    apply (Hsame (Vote.spend recorded 160 33) D).
    + intros [E _]. discriminate E.
    + intros vv Hvv [E _].
      pose proof (eq_trans (eq_sym V) Hvv) as E2. injection E2 as <-.
      discriminate E.
  - destruct (Hgov st160 recorded_ptr 160 33) as (_ & _ & _ & Hclear).
    destruct (Hclear (Vote.spend recorded 160 33) stored_alpha D P) as [Hc _].
    + vm_compute. discriminate.
    + apply Hc. split; reflexivity.
Defined.

(** The payout scenario: net yes 5 for A (amount 100) and 10 for B
    (amount 50). *)
Example payees_budget_120 :
  getSuperblockPayees 200 resultsAB (budget 120)
  = [payee_of (propB, tally_of 10 0)].
Proof. vm_compute. reflexivity. Qed.

Example payees_budget_150 :
  getSuperblockPayees 200 resultsAB (budget 150)
  = [payee_of (propB, tally_of 10 0); payee_of (propA, tally_of 7 2)].
Proof. vm_compute. reflexivity. Qed.

(** Net yes comes before yes: "bb" with 8 yes, net 8, is sorted before
    "aa" with 10 yes, net 6, and with a budget of 120 it is "bb" that is
    paid; with 150 both are, "bb" first. *)
Example sort_net_yes_before_yes :
  std_sort payee_lt resultsNet = [(propB, tally_of 8 0); (propA, tally_of 10 4)].
Proof. vm_compute. reflexivity. Qed.

Example payees_net_yes_budget_120 :
  getSuperblockPayees 200 resultsNet (budget 120)
  = [payee_of (propB, tally_of 8 0)].
Proof. vm_compute. reflexivity. Qed.

Example payees_net_yes_budget_150 :
  getSuperblockPayees 200 resultsNet (budget 150)
  = [payee_of (propB, tally_of 8 0); payee_of (propA, tally_of 10 4)].
Proof. vm_compute. reflexivity. Qed.

(** The rule leaves one arrangement of these two results. *)
Lemma resultsNet_one_order (props : list (Proposal.t * Tally)) :
  Permutation resultsNet props -> StronglySorted spec_order props ->
  props = [(propB, tally_of 8 0); (propA, tally_of 10 4)].
Proof.
  intros Hp Hs. unfold resultsNet in Hp.
  apply Permutation_length_2_inv in Hp. destruct Hp as [-> | ->].
  - exfalso. apply StronglySorted_inv in Hs. destruct Hs as [_ Hf].
    apply Forall_inv in Hf. unfold spec_order, spec_netYes in Hf.
    simpl in Hf. lia.
  - reflexivity.
Qed.

(** With the one arrangement the rule leaves, the payees of a budget of
    120 follow from the rule: "bb" is paid, "aa" no longer fits. *)
Lemma getSuperblockPayees_sorted_greedy_witness :
  superblockBudget 200 (budget 120) = 120
  /\ getSuperblockPayees 200 resultsNet (budget 120)
     = [payee_of (propB, tally_of 8 0)].
Proof.
  assert (H1 : 0 <= superblockBudget 200 (budget 120) <= INT64_MAX)
    by (vm_compute; split; discriminate).
  assert (H2 : forall r, In r resultsNet ->
                         0 <= Proposal.amount (fst r) <= INT64_MAX)
    by (intros r [<-|[<-|[]]]; vm_compute; split; discriminate).
  assert (H3 : forall r, In r resultsNet -> counts_fit (snd r))
    by (intros r [<-|[<-|[]]]; vm_compute; split; discriminate).
  destruct (getSuperblockPayees_sorted_greedy 200 resultsNet (budget 120)
              H1 H2 H3) as [Hb (props & Hp & Hs & E)].
  split; [rewrite Hb; reflexivity|].
  rewrite E, (resultsNet_one_order props Hp Hs). vm_compute. reflexivity.
Defined.

Lemma getSuperblockResults_exactly_passing_witness :
  isSuperblock 200 params = true
  /\ exists p',
      In (p', getTally (Proposal.getHash stored_alpha)
                       (snd (getProposalsForSuperblock st150 200)) params)
         (getSuperblockResults st150 200 params)
      /\ Proposal.getHash p' = Proposal.getHash stored_alpha.
Proof.
  assert (Hsb : isSuperblock 200 params = true) by (vm_compute; reflexivity).
  split; [exact Hsb|].
  destruct (getSuperblockResults_exactly_passing st150 200 params Hsb)
    as (_ & Hcomplete & _).
  apply (Hcomplete (Proposal.getHash stored_alpha) stored_alpha).
  - vm_compute. reflexivity.
  - vm_compute. reflexivity.
  - apply erased_iff. vm_compute. reflexivity.
Defined.

Lemma st140_reachable : reachable params st140.
Proof.
  apply (reach_processBlock params reset proposal_block 140 true st140).
  - apply reach_reset.
  - vm_compute. reflexivity.
Defined.

Lemma isValidSuperblock_without_payees_witness :
  getSuperblockPayees 200 (getSuperblockResults st140 200 params) params = []
  /\ isValidSuperblock st140 proposal_block 200 params 0 = (true, 0).
Proof.
  split; [vm_compute; reflexivity|].
  apply (isValidSuperblock_without_payees st140 proposal_block 200 params 0).
  - exact st140_reachable.
  - vm_compute. discriminate.
  - vm_compute. discriminate.
  - vm_compute. reflexivity.
  - vm_compute. reflexivity.
  - vm_compute. reflexivity.
Defined.
End ScenarioFacts.

(** * Further properties of the code *)

(** ** Recording and removing votes and proposals *)
Section StoreUpdates.
Context `{Ext : Externals}.
Import Governance.

(** [addVote] with a known proposal: the vote is found under its hash in
    [votes] and in the bucket of its proposal's superblock; the proposals,
    the other votes and the other records of [sbvotes] are as before. *)
Theorem addVote_records_vote (st : State) (v : Vote.t) (p : Proposal.t) :
  proposals st !! Vote.proposal v = Some p ->
  votes (addVote st v) !! Vote.getHash v = Some v
  /\ deref (addVote st v) (Proposal.superblock p, Vote.getHash v) = Some v
  /\ proposals (addVote st v) = proposals st
  /\ (forall k, k <> Vote.getHash v -> votes (addVote st v) !! k = votes st !! k)
  /\ (forall ptr, ptr <> (Proposal.superblock p, Vote.getHash v) ->
        deref (addVote st v) ptr = deref st ptr).
Proof.
  intros Hp. unfold addVote. rewrite Hp. simpl.
  split; [apply lookup_insert_eq|].
  split; [unfold deref; simpl; rewrite lookup_insert_eq; apply lookup_insert_eq|].
  split; [reflexivity|].
  split; [intros k Hk; apply lookup_insert_ne; congruence|].
  intros [sb k] Hne. unfold deref. simpl.
  destruct (decide (sb = Proposal.superblock p)) as [->|Hsb].
  - rewrite lookup_insert_eq.
    assert (Hk : Vote.getHash v <> k) by congruence.
    rewrite lookup_insert_ne by exact Hk.
    destruct (sbvotes st !! Proposal.superblock p); [reflexivity|].
    simpl. apply lookup_empty.
  - rewrite lookup_insert_ne by congruence. reflexivity.
Qed.

(** A vote whose proposal is not in the store is dropped. *)
Theorem addVote_unknown_proposal (st : State) (v : Vote.t) :
  proposals st !! Vote.proposal v = None -> addVote st v = st.
Proof. intros H. unfold addVote. rewrite H. reflexivity. Qed.

Lemma getHash_ignores_vote_kind (a b : Vote.t) :
  Vote.version a = Vote.version b -> Vote.type a = Vote.type b ->
  Vote.proposal a = Vote.proposal b -> Vote.utxo a = Vote.utxo b ->
  Vote.getHash a = Vote.getHash b.
Proof.
  intros H1 H2 H3 H4. unfold Vote.getHash, Vote.hash_stream.
  rewrite H1, H2, H3, H4. reflexivity.
Qed.

(** A change of vote: recording a second vote with the same version, type,
    proposal and utxo (whatever its kind, time or signature) leaves the
    store as if only the second had been recorded. *)
Theorem addVote_change_of_vote (st : State) (v v' : Vote.t) :
  Vote.version v = Vote.version v' -> Vote.type v = Vote.type v' ->
  Vote.proposal v = Vote.proposal v' -> Vote.utxo v = Vote.utxo v' ->
  addVote (addVote st v) v' = addVote st v'.
Proof.
  intros H1 H2 H3 H4.
  pose proof (getHash_ignores_vote_kind v v' H1 H2 H3 H4) as Hk.
  unfold addVote. rewrite H3.
  destruct (proposals st !! Vote.proposal v') as [p|] eqn:Hp; simpl.
  - rewrite Hp, Hk, lookup_insert_eq. simpl.
    rewrite !insert_insert_eq. reflexivity.
  - rewrite Hp. reflexivity.
Qed.

(** Removing a vote just recorded gives back [votes] and [proposals]; it
    gives back [sbvotes] when the superblock had a bucket already, and
    leaves an empty bucket behind when [addVote] had to create it. *)
Theorem removeVote_after_addVote (st : State) (v : Vote.t) (p : Proposal.t) :
  proposals st !! Vote.proposal v = Some p ->
  votes st !! Vote.getHash v = None ->
  (forall vs, sbvotes st !! Proposal.superblock p = Some vs ->
              vs !! Vote.getHash v = None ->
              removeVote (addVote st v) v = st)
  /\ (sbvotes st !! Proposal.superblock p = None ->
      removeVote (addVote st v) v
      = set_sbvotes st (<[Proposal.superblock p := ∅]> (sbvotes st))
      /\ removeVote (addVote st v) v <> st).
Proof.
  intros Hp Hv.
  assert (E : removeVote (addVote st v) v
              = set_sbvotes st
                  (<[Proposal.superblock p :=
                       delete (Vote.getHash v)
                              (default ∅ (sbvotes st !! Proposal.superblock p))]>
                     (sbvotes st))).
  { unfold removeVote, addVote. rewrite Hp. simpl.
    rewrite lookup_insert_eq. simpl. rewrite Hp, lookup_insert_eq, lookup_insert_eq.
    unfold set_sbvotes, set_votes. simpl.
    rewrite delete_insert_eq, insert_insert_eq, delete_insert_eq.
    rewrite (delete_id _ _ Hv). reflexivity. }
  split.
  - intros vs Hvs Hk. rewrite E, Hvs. simpl.
    rewrite (delete_id _ _ Hk).
    unfold set_sbvotes. rewrite (insert_id _ _ _ Hvs). destruct st; reflexivity.
  - intros Hnone. rewrite E, Hnone. simpl. rewrite delete_empty.
    split; [reflexivity|].
    intros Heq. apply (f_equal (fun s => sbvotes s !! Proposal.superblock p)) in Heq.
    simpl in Heq. rewrite lookup_insert_eq, Hnone in Heq. discriminate.
Qed.

(** [removeVote] of a vote that is not recorded changes nothing. *)
Lemma removeVote_absent (st : State) (v : Vote.t) :
  votes st !! Vote.getHash v = None -> removeVote st v = st.
Proof. intros H. unfold removeVote. rewrite H. reflexivity. Qed.

Lemma addProposal_keeps st q k p :
  proposals st !! k = Some p -> proposals (addProposal st q) !! k = Some p.
Proof.
  intros H. unfold addProposal.
  destruct (proposals st !! Proposal.getHash q) eqn:E; [exact H|].
  simpl. rewrite lookup_insert_ne; [exact H|]. intros Heq. subst k. congruence.
Qed.

Lemma fold_addProposal_keeps ps st k p :
  proposals st !! k = Some p ->
  proposals (fold_left addProposal ps st) !! k = Some p.
Proof.
  revert st. induction ps as [|q ps IH]; intros st H; simpl; [exact H|].
  apply IH, addProposal_keeps, H.
Qed.

Lemma insert_block_vote_proposals tip st v :
  proposals (insert_block_vote tip st v) = proposals st.
Proof.
  unfold insert_block_vote.
  destruct (tip && negb (hasProposal st (Vote.proposal v))); [reflexivity|].
  destruct (votes st !! Vote.getHash v) as [stored|].
  - destruct (Vote.time stored <? Vote.time v); [apply addVote_proposals|].
    destruct (_ <? _); [apply addVote_proposals | reflexivity].
  - destruct (tip && Vote.IsVoteSpent v false); [reflexivity | apply addVote_proposals].
Qed.

Lemma spend_block_votes_proposals block h st :
  proposals (spend_block_votes block h st) = proposals st.
Proof.
  unfold spend_block_votes. apply fold_left_proposals. intros s ptr.
  destruct (deref s ptr) as [v|]; [|reflexivity].
  destruct (prevouts_of block !! _); [apply spendVote_proposals | reflexivity].
Qed.

(** First observation wins: a proposal in the store stays under its key,
    unchanged, whatever block is processed. *)
Theorem processBlock_keeps_stored_proposals (st st' : State) (block : CBlock)
        (pindex : Z) (params : Consensus.Params) (tip : bool) (k : Z)
        (p : Proposal.t) :
  processBlock st block pindex params tip = Return st' ->
  proposals st !! k = Some p ->
  proposals st' !! k = Some p.
Proof.
  unfold processBlock.
  destruct (dataFromBlock st block [] [] params (Some pindex) tip) as [[ps vs]|];
    [|discriminate].
  simpl. intros Hret Hk.
  assert (H2 : proposals (fold_left (insert_block_vote tip) vs
                                    (fold_left addProposal ps st)) !! k = Some p).
  { rewrite (fold_left_proposals _ vs _ (insert_block_vote_proposals tip)).
    apply fold_addProposal_keeps, Hk. }
  destruct (negb tip || bool_decide _); injection Hret as <-; [exact H2|].
  rewrite spend_block_votes_proposals. exact H2.
Qed.

(** [addProposal] does not overwrite: with the hash taken, the store is
    unchanged. *)
Lemma addProposal_first_wins (st : State) (p q : Proposal.t) :
  proposals st !! Proposal.getHash q = Some p ->
  addProposal st q = st
  /\ getProposal (addProposal st q) (Proposal.getHash q) = p.
Proof.
  intros H. unfold addProposal, getProposal. rewrite H.
  split; [reflexivity | rewrite H; reflexivity].
Qed.
End StoreUpdates.

(** ** The passes over the votes of a block *)
Section BlockPasses.
Context `{Ext : Externals}.
Import Governance.

Lemma store_deref_ne st ptr ptr' v :
  ptr <> ptr' -> deref (store st ptr' v) ptr = deref st ptr.
Proof.
  intros Hne. unfold store, deref.
  destruct (sbvotes st !! ptr'.1) as [vs|] eqn:E; [|reflexivity]. simpl.
  destruct (decide (ptr.1 = ptr'.1)) as [E1|N1].
  - rewrite E1, lookup_insert_eq, E.
    apply lookup_insert_ne. intros E2. apply Hne.
    destruct ptr, ptr'; simpl in *; congruence.
  - rewrite lookup_insert_ne by congruence. reflexivity.
Qed.

Lemma spendVote_deref_ne st ptr ptr' h t :
  ptr <> ptr' -> deref (spendVote st ptr' h t) ptr = deref st ptr.
Proof.
  intros Hne. unfold spendVote.
  destruct (deref st ptr') as [v|]; [|reflexivity].
  destruct (proposals st !! Vote.proposal v) as [p|]; [|reflexivity].
  destruct (Proposal.superblock p <? h); [reflexivity|].
  unfold deref at 1. simpl. apply (store_deref_ne st ptr ptr' _ Hne).
Qed.

Lemma spendVote_deref_same st ptr v p h t :
  deref st ptr = Some v ->
  proposals st !! Vote.proposal v = Some p -> h <= Proposal.superblock p ->
  deref (spendVote st ptr h t) ptr = Some (Vote.spend v h t).
Proof.
  intros Hd Hp Hle.
  assert (Hcut : (Proposal.superblock p <? h) = false) by lia.
  rewrite (spendVote_active st ptr v p h t Hd Hp Hcut).
  unfold deref, set_votes. simpl. apply (store_deref st ptr v _ Hd).
Qed.

Lemma spend_iter_proposals block h st ptr :
  proposals (spend_iter block h st ptr) = proposals st.
Proof.
  unfold spend_iter. destruct (deref st ptr) as [v|]; [|reflexivity].
  destruct (prevouts_of block !! _); [apply spendVote_proposals | reflexivity].
Qed.

Lemma spend_iter_done block h st ptr ptr' v p t :
  prevouts_of block !! COutPoint_key (Vote.utxo v) = Some t ->
  proposals st !! Vote.proposal v = Some p -> h <= Proposal.superblock p ->
  deref st ptr = Some (Vote.spend v h t) ->
  deref (spend_iter block h st ptr') ptr = Some (Vote.spend v h t).
Proof.
  intros Hprev Hp Hle Hd. unfold spend_iter.
  destruct (decide (ptr = ptr')) as [<-|Hne].
  - rewrite Hd. simpl. rewrite Hprev.
    apply (spendVote_deref_same st ptr (Vote.spend v h t) p h t Hd Hp Hle).
  - destruct (deref st ptr') as [v'|]; [|exact Hd].
    destruct (prevouts_of block !! COutPoint_key (Vote.utxo v')); [|exact Hd].
    rewrite spendVote_deref_ne by exact Hne. exact Hd.
Qed.

Lemma spend_fold_done block h ptrs st ptr v p t :
  prevouts_of block !! COutPoint_key (Vote.utxo v) = Some t ->
  proposals st !! Vote.proposal v = Some p -> h <= Proposal.superblock p ->
  deref st ptr = Some (Vote.spend v h t) ->
  deref (fold_left (spend_iter block h) ptrs st) ptr = Some (Vote.spend v h t).
Proof.
  intros Hprev Hp Hle. revert st Hp.
  induction ptrs as [|ptr' ptrs IH]; intros st Hp Hd; simpl; [exact Hd|].
  apply IH.
  - rewrite spend_iter_proposals. exact Hp.
  - eapply spend_iter_done; eassumption.
Qed.

Lemma spend_fold_marks block h ptrs st ptr v p t :
  In ptr ptrs ->
  prevouts_of block !! COutPoint_key (Vote.utxo v) = Some t ->
  proposals st !! Vote.proposal v = Some p -> h <= Proposal.superblock p ->
  deref st ptr = Some v ->
  deref (fold_left (spend_iter block h) ptrs st) ptr = Some (Vote.spend v h t).
Proof.
  intros Hin Hprev Hp Hle. revert st Hp.
  induction ptrs as [|ptr' ptrs IH]; intros st Hp Hd; [destruct Hin|]. simpl.
  destruct (decide (ptr = ptr')) as [<-|Hne].
  - eapply spend_fold_done; try eassumption.
    + rewrite spend_iter_proposals. exact Hp.
    + unfold spend_iter. rewrite Hd, Hprev.
      apply (spendVote_deref_same st ptr v p h t Hd Hp Hle).
  - destruct Hin as [->|Hin]; [contradiction|].
    apply IH; [exact Hin | rewrite spend_iter_proposals; exact Hp|].
    unfold spend_iter.
    destruct (deref st ptr') as [v'|]; [|exact Hd].
    destruct (prevouts_of block !! COutPoint_key (Vote.utxo v')); [|exact Hd].
    rewrite spendVote_deref_ne by exact Hne. exact Hd.
Qed.

(** The spend pass of [processBlock] at height [h]: a vote it is handed
    (an unspent vote of a proposal since [h]) whose utxo is an input of the
    block, and whose proposal's superblock is not before [h], carries
    [h] and the hash of the spending transaction afterwards. *)
Theorem spend_block_votes_marks_spent (block : CBlock) (h : Z) (st : State)
        (ptr : VotePtr) (v : Vote.t) (p : Proposal.t) (t : Z) :
  In ptr (svotes_of st h) ->
  deref st ptr = Some v ->
  prevouts_of block !! COutPoint_key (Vote.utxo v) = Some t ->
  proposals st !! Vote.proposal v = Some p ->
  h <= Proposal.superblock p ->
  deref (spend_block_votes block h st) ptr = Some (Vote.spend v h t)
  /\ Vote.spentBlock (Vote.spend v h t) = h
  /\ Vote.spentHash (Vote.spend v h t) = t.
Proof.
  intros Hin Hd Hprev Hp Hle. split; [|split; reflexivity].
  unfold spend_block_votes.
  change (fold_left _ (svotes_of st h) st)
    with (fold_left (spend_iter block h) (svotes_of st h) st).
  eapply spend_fold_marks; eassumption.
Qed.

(** [spendVote] and [unspendVote] keep the record of [votes] and the record
    of [sbvotes] equal: after either call both hold the same vote, which is
    the vote as it was or the vote with its marker set, respectively
    cleared. *)
Theorem spend_unspend_keep_records_equal (st : State) (ptr : VotePtr)
        (v : Vote.t) (h t : Z) :
  deref st ptr = Some v ->
  votes st !! Vote.getHash v = Some v ->
  (exists v', deref (spendVote st ptr h t) ptr = Some v'
              /\ votes (spendVote st ptr h t) !! Vote.getHash v = Some v'
              /\ (v' = v \/ v' = Vote.spend v h t))
  /\ (exists v', deref (unspendVote st ptr h t) ptr = Some v'
                 /\ votes (unspendVote st ptr h t) !! Vote.getHash v = Some v'
                 /\ (v' = v \/ v' = (Vote.unspend v h t).1)).
Proof.
  intros Hd Hv. split.
  - destruct (proposals st !! Vote.proposal v) as [p|] eqn:Hp.
    2:{ exists v. unfold spendVote. rewrite Hd, Hp. tauto. }
    destruct (Proposal.superblock p <? h) eqn:Hcut.
    { exists v. unfold spendVote. rewrite Hd, Hp, Hcut. tauto. }
    exists (Vote.spend v h t).
    rewrite (spendVote_active st ptr v p h t Hd Hp Hcut).
    unfold votes_at. rewrite Hv. simpl.
    split; [apply (store_deref st ptr v _ Hd)|].
    split; [apply lookup_insert_eq | right; reflexivity].
  - destruct (proposals st !! Vote.proposal v) as [p|] eqn:Hp.
    2:{ exists v. unfold unspendVote. rewrite Hd, Hp. tauto. }
    destruct (Proposal.superblock p <? h) eqn:Hcut.
    { exists v. unfold unspendVote. rewrite Hd, Hp, Hcut. tauto. }
    exists (Vote.unspend v h t).1.
    rewrite (unspendVote_active st ptr v v p h t Hd Hp Hcut Hv).
    simpl.
    split; [apply (store_deref st ptr v _ Hd)|].
    split; [apply lookup_insert_eq | right; reflexivity].
Qed.
End BlockPasses.

(** ** Superblock heights and cutoffs *)
Section Heights.
Context `{Ext : Externals}.
Import Governance.

Lemma rem_multiple_step (from sb : Z) :
  0 <= from -> 0 < sb ->
  0 <= Z.rem from sb < sb
  /\ Z.rem (from - Z.rem from sb + sb) sb = 0
  /\ Z.rem (from - Z.rem from sb) sb = 0.
Proof.
  intros Hf Hs.
  pose proof (Z.rem_bound_pos from sb Hf Hs) as Hb.
  pose proof (Z.quot_rem' from sb) as Hq.
  split; [exact Hb|].
  assert (E : from - Z.rem from sb = (from ÷ sb) * sb) by lia.
  rewrite E. split.
  - replace ((from ÷ sb) * sb + sb) with ((from ÷ sb + 1) * sb) by lia.
    apply Z.rem_mul. lia.
  - apply Z.rem_mul. lia.
Qed.

(** [NextSuperblock] and [PreviousSuperblock] for a period [superblock > 0]
    and a height [from >= 0] (the chain tip when [fromBlock] is 0) with
    [from + superblock] a 32-bit value: both results are multiples of the
    period, one period apart, with [previous <= from < next].  A height that
    is a multiple of the period is its own previous superblock and is not
    its own next one.  From the governance start on, the next superblock
    is a superblock height for [isSuperblock]. *)
Theorem NextSuperblock_brackets (params : Consensus.Params)
        (fromBlock chainHeight : Z) :
  let from := if fromBlock =? 0 then chainHeight else fromBlock in
  let next := NextSuperblock params fromBlock chainHeight in
  let prev := PreviousSuperblock params fromBlock chainHeight in
  0 < Consensus.superblock params ->
  0 <= from ->
  from + Consensus.superblock params <= INT32_MAX ->
  prev <= from < next
  /\ next = prev + Consensus.superblock params
  /\ Z.rem next (Consensus.superblock params) = 0
  /\ Z.rem prev (Consensus.superblock params) = 0
  /\ (Z.rem from (Consensus.superblock params) = 0 -> prev = from)
  /\ (Consensus.governanceBlock params <= from ->
      isSuperblock next params = true).
Proof.
  intros from next prev Hs Hf Hmax.
  destruct (rem_multiple_step from _ Hf Hs) as (Hb & Hn & Hp).
  assert (E1 : to_int32 (from - Z.rem from (Consensus.superblock params))
               = from - Z.rem from (Consensus.superblock params)).
  { apply to_int32_small. unfold in_int32, INT32_MAX in *. lia. }
  assert (En : next = from - Z.rem from (Consensus.superblock params)
                      + Consensus.superblock params).
  { unfold next, NextSuperblock. fold from. rewrite E1.
    apply to_int32_small. unfold in_int32, INT32_MAX in *. lia. }
  assert (Ep : prev = from - Z.rem from (Consensus.superblock params)).
  { unfold prev, PreviousSuperblock. fold next. rewrite En.
    replace (from - Z.rem from (Consensus.superblock params)
             + Consensus.superblock params - Consensus.superblock params)
      with (from - Z.rem from (Consensus.superblock params)) by lia.
    exact E1. }
  rewrite En, Ep.
  split; [lia|]. split; [lia|]. split; [exact Hn|]. split; [exact Hp|].
  split; [intros H0; lia|].
  intros Hg. unfold isSuperblock. rewrite Hn.
  apply andb_true_intro. split; [apply Z.leb_le; lia | reflexivity].
Qed.

(** The two readings of the voting cutoff agree: for a proposal that is
    not null and a height up to its superblock, [insideVoteCutoff] holds
    exactly when [outsideVotingCutoff] does not. *)
Theorem insideVoteCutoff_complements (p : Proposal.t) (h : Z)
        (params : Consensus.Params) :
  Proposal.isNull p = false ->
  h <= Proposal.superblock p ->
  insideVoteCutoff (Proposal.superblock p) h params
  = negb (outsideVotingCutoff p h params).
Proof.
  intros Hn Hle. unfold insideVoteCutoff, outsideVotingCutoff. rewrite Hn.
  destruct (h <? _) eqn:E1; destruct (_ <=? h) eqn:E2;
    destruct (h <=? Proposal.superblock p) eqn:E3; simpl; try reflexivity; lia.
Qed.

(** A height at which a proposal may still be submitted is one at which
    votes on it are accepted, when the voting cutoff is the shorter one and
    nothing overflows. *)
Theorem proposal_window_within_voting_window (p : Proposal.t) (h : Z)
        (params : Consensus.Params) :
  0 <= Consensus.votingCutoff params <= Consensus.proposalCutoff params ->
  0 <= Proposal.superblock p <= INT32_MAX ->
  Consensus.proposalCutoff params <= INT32_MAX ->
  outsideProposalCutoff p h params = true ->
  outsideVotingCutoff p h params = true.
Proof.
  intros Hc Hs Hm. unfold outsideProposalCutoff, outsideVotingCutoff.
  destruct (Proposal.isNull p); [discriminate|].
  rewrite !to_int32_small by (unfold in_int32, INT32_MAX in *; lia).
  intros H. apply Z.ltb_lt in H. apply Z.ltb_lt. lia.
Qed.
End Heights.

(** ** Vote kinds as strings *)
Section VoteKinds.

Lemma to_lower_ascii_idem (c : ascii) :
  to_lower_ascii (to_lower_ascii c) = to_lower_ascii c.
Proof. destruct c as [[] [] [] [] [] [] [] []]; reflexivity. Qed.

Lemma to_lower_idem (s : string) : to_lower (to_lower s) = to_lower s.
Proof.
  induction s as [|c s IH]; simpl; [reflexivity|].
  rewrite to_lower_ascii_idem, IH. reflexivity.
Qed.

Lemma isValidVoteType_cases (k : Z) :
  Vote.isValidVoteType k = true <-> k = YES \/ k = NO \/ k = ABSTAIN.
Proof.
  unfold Vote.isValidVoteType, YES, NO, ABSTAIN. split.
  - intros H. apply andb_prop in H. destruct H as [H1 H2]. lia.
  - intros [->|[->| ->]]; reflexivity.
Qed.

Lemma same_letter_to_lower (c d : ascii) :
  same_letter c d -> to_lower_ascii c = to_lower_ascii d.
Proof.
  unfold same_letter, letter_pairs. simpl.
  intros [->|[H|H]]; [reflexivity| |];
    repeat (destruct H as [H|H]; [injection H as <- <-; reflexivity|]);
    destruct H.
Qed.

Lemma to_lower_ascii_same_letter (c : ascii) : same_letter c (to_lower_ascii c).
Proof.
  unfold same_letter, letter_pairs.
  destruct c as [[] [] [] [] [] [] [] []];
    first [left; reflexivity | right; left; simpl; tauto].
Qed.

Lemma same_spelling_to_lower (s s' : string) :
  same_spelling s s' -> to_lower s = to_lower s'.
Proof.
  unfold same_spelling. revert s'.
  induction s as [|c s IH]; intros [|d s'] H; simpl in H; inversion H; subst;
    simpl; [reflexivity|].
  f_equal; [apply same_letter_to_lower; assumption | apply IH; assumption].
Qed.

Lemma to_lower_same_spelling (s : string) : same_spelling s (to_lower s).
Proof.
  unfold same_spelling. induction s as [|c s IH]; simpl; constructor;
    [apply to_lower_ascii_same_letter | exact IH].
Qed.

Lemma voteTypeForString_same_spelling (s s' : string) (voteType : Z) :
  same_spelling s s' -> voteTypeForString s voteType = voteTypeForString s' voteType.
Proof.
  intros H. unfold voteTypeForString.
  rewrite (same_spelling_to_lower s s' H). reflexivity.
Qed.

(** The strings [voteTypeForString] accepts are the three names
    [voteTypeToString] produces, in any mix of upper and lower case
    ([same_spelling]): on such a string it returns true and sets the kind
    of that name; on every other string it returns false and leaves
    [voteType] as it was; and two strings that differ in the case of
    letters only are read alike, the lowered string among them. *)
Theorem voteTypeForString_accepts_names (strVote : string) (voteType : Z) :
  (forall k, Vote.isValidVoteType k = true ->
             same_spelling strVote (fst (voteTypeToString k None)) ->
             voteTypeForString strVote voteType = (true, k))
  /\ ((forall k, Vote.isValidVoteType k = true ->
                 ~ same_spelling strVote (fst (voteTypeToString k None))) ->
      voteTypeForString strVote voteType = (false, voteType))
  /\ (forall s, same_spelling strVote s ->
                voteTypeForString s voteType
                = voteTypeForString strVote voteType)
  /\ voteTypeForString (to_lower strVote) voteType
     = voteTypeForString strVote voteType.
Proof.
  split; [|split; [|split]].
  - intros k Hk E. apply isValidVoteType_cases in Hk.
    rewrite (voteTypeForString_same_spelling _ _ voteType E).
    destruct Hk as [->|[->| ->]]; reflexivity.
  - intros H. unfold voteTypeForString.
    pose proof (to_lower_same_spelling strVote) as Hs.
    destruct (String.eqb (to_lower strVote) "yes") eqn:E1.
    { apply String.eqb_eq in E1. rewrite E1 in Hs. exfalso.
      apply (H YES); [reflexivity | exact Hs]. }
    destruct (String.eqb (to_lower strVote) "no") eqn:E2.
    { apply String.eqb_eq in E2. rewrite E2 in Hs. exfalso.
      apply (H NO); [reflexivity | exact Hs]. }
    destruct (String.eqb (to_lower strVote) "abstain") eqn:E3.
    { apply String.eqb_eq in E3. rewrite E3 in Hs. exfalso.
      apply (H ABSTAIN); [reflexivity | exact Hs]. }
    reflexivity.
  - intros s Hs. symmetry. apply voteTypeForString_same_spelling, Hs.
  - symmetry. apply voteTypeForString_same_spelling, to_lower_same_spelling.
Qed.

(** Round trip: the name of a valid kind is read back as that kind,
    whatever [voteType] held before and whether or not a [valid] flag is
    passed. *)
Theorem voteType_string_roundtrip (k voteType : Z) (valid : option bool) :
  Vote.isValidVoteType k = true ->
  voteTypeForString (fst (voteTypeToString k valid)) voteType = (true, k).
Proof.
  intros Hk. apply isValidVoteType_cases in Hk.
  destruct Hk as [->|[->| ->]]; destruct valid; reflexivity.
Qed.

(** [voteTypeToString] returns the empty string exactly for a kind that is
    none of the three, and a [valid] flag that is passed reads true after
    the call in every case: the assignment of false for an unknown kind is
    overwritten by the unconditional assignment of true that follows it. *)
Theorem voteTypeToString_valid_flag (k : Z) (b : bool) :
  snd (voteTypeToString k (Some b)) = Some true
  /\ snd (voteTypeToString k None) = None
  /\ (fst (voteTypeToString k (Some b)) = EmptyString
      <-> Vote.isValidVoteType k = false).
Proof.
  unfold voteTypeToString.
  destruct (k =? YES) eqn:E1; [|destruct (k =? NO) eqn:E2;
                                 [|destruct (k =? ABSTAIN) eqn:E3]];
    simpl; (split; [reflexivity|]); (split; [reflexivity|]);
    unfold Vote.isValidVoteType, YES, NO, ABSTAIN in *.
  - split; [discriminate|]. intros H. apply andb_false_iff in H. lia.
  - split; [discriminate|]. intros H. apply andb_false_iff in H. lia.
  - split; [discriminate|]. intros H. apply andb_false_iff in H. lia.
  - split; [intros _|reflexivity]. apply andb_false_iff. lia.
Qed.
End VoteKinds.

(** Names in mixed case are read, and [voteType] is set; other strings are
    refused, and [voteType] keeps its value. *)
Example voteTypeForString_mixed_case :
  List.map (fun s => voteTypeForString s ABSTAIN)
           ["YES"; "yEs"; "Yes"; "NO"; "nO"; "ABSTAIN"; "AbStAiN"]%string
  = [(true, YES); (true, YES); (true, YES); (true, NO); (true, NO);
     (true, ABSTAIN); (true, ABSTAIN)].
Proof. vm_compute. reflexivity. Qed.

Example voteTypeForString_refuses :
  List.map (fun s => voteTypeForString s YES)
           [""; "y"; "yes "; " no"; "ye5"; "abstained"; "@es"; "Y[S"]%string
  = [(false, YES); (false, YES); (false, YES); (false, YES); (false, YES);
     (false, YES); (false, YES); (false, YES)].
Proof. vm_compute. reflexivity. Qed.

Example to_lower_letters :
  to_lower "ABCDEFGHIJKLMNOPQRSTUVWXYZ @[`{ 09 az"
  = "abcdefghijklmnopqrstuvwxyz @[`{ 09 az"%string.
Proof. vm_compute. reflexivity. Qed.

(** ** The wire format read back *)
Section Codec.
Context `{Ext : Externals}.

Lemma Z_of_byte_of_Z (z : Z) : Z_of_byte (byte_of_Z z) = z mod 256.
Proof.
  unfold Z_of_byte, byte_of_Z.
  pose proof (Z.mod_pos_bound z 256 ltac:(lia)) as Hb.
  destruct (Byte.of_N (Z.to_N (z mod 256))) as [b|] eqn:E.
  - apply Byte.to_of_N in E. rewrite E. lia.
  - exfalso. pose proof (Byte.to_of_N_option_map (Z.to_N (z mod 256))) as H.
    rewrite E in H. simpl in H.
    destruct (N.leb_spec (Z.to_N (z mod 256)) 255); [discriminate | lia].
Qed.

Lemma length_ser_le (n : nat) (z : Z) : List.length (ser_le n z) = n.
Proof. revert z. induction n; intros z; simpl; [reflexivity | f_equal; apply IHn]. Qed.

Lemma le_decode_ser_le (n : nat) (z : Z) :
  le_decode (ser_le n z) = z mod 2 ^ (8 * Z.of_nat n).
Proof.
  revert z. induction n as [|n IH]; intros z.
  - simpl. rewrite Z.mod_1_r. reflexivity.
  - cbn [ser_le le_decode]. rewrite Z_of_byte_of_Z, IH, Z.shiftr_div_pow2 by lia.
    replace (8 * Z.of_nat (S n)) with (8 + 8 * Z.of_nat n) by lia.
    rewrite Z.pow_add_r by lia.
    change (2 ^ 8) with 256.
    rewrite (Z.rem_mul_r z 256 (2 ^ (8 * Z.of_nat n))) by lia. reflexivity.
Qed.

Lemma read_raw_app (bs rest : list byte) :
  read_raw (List.length bs) (bs ++ rest) = Some (bs, rest).
Proof.
  unfold read_raw. rewrite List.length_app.
  destruct (Nat.leb_spec (List.length bs) (List.length bs + List.length rest)); [|lia].
  rewrite List.firstn_app, Nat.sub_diag, List.firstn_all, List.skipn_app, Nat.sub_diag,
    List.skipn_all. simpl. rewrite List.app_nil_r. reflexivity.
Qed.

Lemma read_le_ser (n : nat) (z : Z) (rest : list byte) :
  0 <= z < 2 ^ (8 * Z.of_nat n) ->
  read_le n (ser_le n z ++ rest) = Some (z, rest).
Proof.
  intros Hz. unfold read_le, rd_bind.
  pose proof (read_raw_app (ser_le n z) rest) as H.
  rewrite length_ser_le in H. rewrite H. unfold rd_ret.
  rewrite le_decode_ser_le, Z.mod_small by exact Hz. reflexivity.
Qed.

Lemma read_uint8_ser (z : Z) (rest : list byte) :
  0 <= z < 256 -> read_uint8 (ser_uint8 z ++ rest) = Some (z, rest).
Proof. intros Hz. apply (read_le_ser 1). exact Hz. Qed.

Lemma read_uint32_ser (z : Z) (rest : list byte) :
  0 <= z < 2 ^ 32 -> read_uint32 (ser_uint32 z ++ rest) = Some (z, rest).
Proof. intros Hz. apply (read_le_ser 4). exact Hz. Qed.

Lemma wrap_signed_mod (bits z : Z) :
  0 < bits -> wrap_signed bits (z mod 2 ^ bits) = wrap_signed bits z.
Proof.
  intros Hb. unfold wrap_signed. rewrite Zplus_mod_idemp_l. reflexivity.
Qed.

Lemma read_signed_ser (n : nat) (z : Z) (rest : list byte) :
  (0 < n)%nat ->
  - 2 ^ (8 * Z.of_nat n - 1) <= z < 2 ^ (8 * Z.of_nat n - 1) ->
  (rdo v <~ read_le n ; rd_ret (wrap_signed (8 * Z.of_nat n) v))
    (ser_le n z ++ rest) = Some (z, rest).
Proof.
  intros Hn Hz. unfold read_le, rd_bind.
  pose proof (read_raw_app (ser_le n z) rest) as H.
  rewrite length_ser_le in H. rewrite H. unfold rd_ret.
  rewrite le_decode_ser_le, wrap_signed_mod by lia.
  rewrite wrap_signed_small by lia. reflexivity.
Qed.

Lemma read_int32_ser (z : Z) (rest : list byte) :
  in_int32 z -> read_int32 (ser_int32 z ++ rest) = Some (z, rest).
Proof.
  intros Hz. apply (read_signed_ser 4); [lia|].
  unfold in_int32, INT32_MAX in Hz. simpl. lia.
Qed.

Lemma read_int64_ser (z : Z) (rest : list byte) :
  in_int64 z -> read_int64 (ser_int64 z ++ rest) = Some (z, rest).
Proof.
  intros Hz. apply (read_signed_ser 8); [lia|].
  unfold in_int64, INT64_MAX in Hz. simpl. lia.
Qed.

Lemma read_uint256_ser (h : Z) (rest : list byte) :
  0 <= h < 2 ^ 256 -> read_uint256 (ser_uint256 h ++ rest) = Some (h, rest).
Proof.
  intros Hh. unfold read_uint256, ser_uint256, rd_bind.
  pose proof (read_raw_app (rev (ser_le 32 h)) rest) as H.
  rewrite List.length_rev, length_ser_le in H. rewrite H. unfold rd_ret.
  rewrite List.rev_involutive, le_decode_ser_le, Z.mod_small by exact Hh.
  reflexivity.
Qed.

Lemma ReadCompactSize_Write (n : Z) (rest : list byte) :
  0 <= n <= MAX_SIZE ->
  ReadCompactSize (WriteCompactSize n ++ rest) = Some (n, rest).
Proof.
  intros Hn. unfold MAX_SIZE in Hn. unfold ReadCompactSize, WriteCompactSize.
  assert (Hmax : (MAX_SIZE <? n) = false) by (unfold MAX_SIZE; lia).
  destruct (n <? 253) eqn:E1.
  - unfold rd_bind at 1. unfold read_uint8.
    rewrite (read_le_ser 1 n rest) by (simpl; lia).
    unfold rd_bind. rewrite E1. unfold rd_ret. rewrite Hmax. reflexivity.
  - destruct (n <=? 65535) eqn:E2.
    + unfold rd_bind at 1.
      change (byte_of_Z 253 :: ser_le 2 n) with (ser_le 1 253 ++ ser_le 2 n).
      rewrite <- List.app_assoc. unfold read_uint8.
      rewrite (read_le_ser 1 253) by (simpl; lia).
      change (253 <? 253) with false. change (253 =? 253) with true. cbv iota.
      unfold rd_bind at 1. unfold rd_bind at 1.
      rewrite (read_le_ser 2 n rest) by (simpl; lia).
      rewrite E1. unfold rd_ret. rewrite Hmax. reflexivity.
    + assert (E3 : (n <=? 4294967295) = true) by lia. rewrite E3.
      unfold rd_bind at 1.
      change (byte_of_Z 254 :: ser_le 4 n) with (ser_le 1 254 ++ ser_le 4 n).
      rewrite <- List.app_assoc. unfold read_uint8.
      rewrite (read_le_ser 1 254) by (simpl; lia).
      change (254 <? 253) with false. change (254 =? 253) with false.
      change (254 =? 254) with true. cbv iota.
      unfold rd_bind at 1. unfold rd_bind at 1.
      rewrite (read_le_ser 4 n rest) by (simpl; lia).
      assert (E4 : (n <? 65536) = false) by lia. rewrite E4.
      unfold rd_ret. rewrite Hmax. reflexivity.
Qed.

Lemma read_bytes_ser (bs rest : list byte) :
  Z.of_nat (List.length bs) <= MAX_SIZE ->
  read_bytes (ser_bytes bs ++ rest) = Some (bs, rest).
Proof.
  intros Hn. unfold read_bytes, ser_bytes, rd_bind.
  rewrite <- List.app_assoc, ReadCompactSize_Write by lia.
  rewrite Nat2Z.id. apply read_raw_app.
Qed.

Lemma length_list_byte_of_string (s : string) :
  List.length (list_byte_of_string s) = String.length s.
Proof.
  induction s as [|c s IH]; simpl; [reflexivity | f_equal; exact IH].
Qed.

Lemma read_string_ser (s : string) (rest : list byte) :
  Z.of_nat (String.length s) <= MAX_SIZE ->
  read_string (ser_string s ++ rest) = Some (s, rest).
Proof.
  intros Hn. unfold read_string, ser_string, rd_bind.
  rewrite read_bytes_ser by (rewrite length_list_byte_of_string; exact Hn).
  unfold rd_ret. rewrite string_of_list_byte_of_string. reflexivity.
Qed.

Lemma rd_bind_step {A B} (r : Reader A) (k : A -> Reader B) (s s' : list byte) (a : A) :
  r s = Some (a, s') -> rd_bind r k s = k a s'.
Proof. intros H. unfold rd_bind. rewrite H. reflexivity. Qed.

Lemma Proposal_read_back (p p0 : Proposal.t) (rest : list byte) :
  0 <= Proposal.version p < 256 -> 0 <= Proposal.type p < 256 ->
  in_int32 (Proposal.superblock p) -> in_int64 (Proposal.amount p) ->
  Z.of_nat (String.length (Proposal.name p)) <= MAX_SIZE ->
  Z.of_nat (String.length (Proposal.address p)) <= MAX_SIZE ->
  Z.of_nat (String.length (Proposal.url p)) <= MAX_SIZE ->
  Z.of_nat (String.length (Proposal.description p)) <= MAX_SIZE ->
  Proposal.Unserialize p0 (Proposal.Serialize p ++ rest)
  = Some ({| Proposal.version := Proposal.version p;
             Proposal.type := Proposal.type p;
             Proposal.name := Proposal.name p;
             Proposal.superblock := Proposal.superblock p;
             Proposal.amount := Proposal.amount p;
             Proposal.address := Proposal.address p;
             Proposal.url := Proposal.url p;
             Proposal.description := Proposal.description p;
             Proposal.blockNumber := Proposal.blockNumber p0 |}, rest).
Proof.
  intros Hv Ht Hs Ha Hn Had Hu Hd.
  unfold Proposal.Unserialize, Proposal.Serialize.
  rewrite <- !List.app_assoc.
  rewrite (rd_bind_step _ _ _ _ _ (read_uint8_ser _ _ Hv)).
  rewrite (rd_bind_step _ _ _ _ _ (read_uint8_ser _ _ Ht)).
  rewrite (rd_bind_step _ _ _ _ _ (read_int32_ser _ _ Hs)).
  rewrite (rd_bind_step _ _ _ _ _ (read_int64_ser _ _ Ha)).
  rewrite (rd_bind_step _ _ _ _ _ (read_string_ser _ _ Had)).
  rewrite (rd_bind_step _ _ _ _ _ (read_string_ser _ _ Hn)).
  rewrite (rd_bind_step _ _ _ _ _ (read_string_ser _ _ Hu)).
  rewrite (rd_bind_step _ _ _ _ _ (read_string_ser _ _ Hd)).
  reflexivity.
Qed.

(** Reading back a serialised proposal into an object [p0]: the fields
    written are the fields read, [blockNumber] (not on the wire) is that of
    [p0], and the proposal read has the hash of the one written.  The
    fields are within the widths of their C++ types and the strings within
    the size [ReadCompactSize] accepts. *)
Theorem Proposal_wire_roundtrip (p p0 : Proposal.t) (rest : list byte) :
  0 <= Proposal.version p < 256 -> 0 <= Proposal.type p < 256 ->
  in_int32 (Proposal.superblock p) -> in_int64 (Proposal.amount p) ->
  Z.of_nat (String.length (Proposal.name p)) <= MAX_SIZE ->
  Z.of_nat (String.length (Proposal.address p)) <= MAX_SIZE ->
  Z.of_nat (String.length (Proposal.url p)) <= MAX_SIZE ->
  Z.of_nat (String.length (Proposal.description p)) <= MAX_SIZE ->
  exists q,
    Proposal.Unserialize p0 (Proposal.Serialize p ++ rest) = Some (q, rest)
    /\ Proposal.blockNumber q = Proposal.blockNumber p0
    /\ Proposal.Serialize q = Proposal.Serialize p
    /\ Proposal.getHash q = Proposal.getHash p
    /\ (Proposal.blockNumber p = Proposal.blockNumber p0 -> q = p).
Proof.
  intros Hv Ht Hs Ha Hn Had Hu Hd.
  eexists. split; [apply Proposal_read_back; assumption|].
  split; [reflexivity|]. split; [reflexivity|]. split; [reflexivity|].
  intros E. destruct p; simpl in *. rewrite E. reflexivity.
Qed.

Lemma read_COutPoint_ser (o : COutPoint) (rest : list byte) :
  0 <= op_hash o < 2 ^ 256 -> 0 <= op_n o < 2 ^ 32 ->
  read_COutPoint (ser_COutPoint o ++ rest) = Some (o, rest).
Proof.
  intros Hh Hn. unfold read_COutPoint, ser_COutPoint.
  rewrite <- List.app_assoc.
  rewrite (rd_bind_step _ _ _ _ _ (read_uint256_ser _ _ Hh)).
  rewrite (rd_bind_step _ _ _ _ _ (read_uint32_ser _ _ Hn)).
  destruct o; reflexivity.
Qed.

Lemma loadKeyID_wire (v : Vote.t) :
  let v' := Vote.loadKeyID v in
  Vote.version v' = Vote.version v /\ Vote.type v' = Vote.type v
  /\ Vote.proposal v' = Vote.proposal v /\ Vote.vote v' = Vote.vote v
  /\ Vote.vinhash v' = Vote.vinhash v /\ Vote.signature v' = Vote.signature v
  /\ Vote.utxo v' = Vote.utxo v /\ Vote.pubkey v' = Vote.pubkey v
  /\ Vote.outpoint v' = Vote.outpoint v /\ Vote.time v' = Vote.time v
  /\ Vote.blockNumber v' = Vote.blockNumber v
  /\ Vote.spentBlock v' = Vote.spentBlock v
  /\ Vote.spentHash v' = Vote.spentHash v.
Proof.
  unfold Vote.loadKeyID. destruct (GetKeyIDForUTXO (Vote.utxo v)) as [[tx kid]|];
    simpl; repeat split; reflexivity.
Qed.

(** The vote [Unserialize] builds before it loads the key id. *)
Lemma Vote_read_back (v v0 : Vote.t) (rest : list byte) :
  0 <= Vote.version v < 256 -> 0 <= Vote.type v < 256 ->
  0 <= Vote.proposal v < 2 ^ 256 -> 0 <= Vote.vote v < 256 ->
  0 <= op_hash (Vote.utxo v) < 2 ^ 256 -> 0 <= op_n (Vote.utxo v) < 2 ^ 32 ->
  List.length (Vote.vinhash v) = VINHASH_SIZE ->
  Z.of_nat (List.length (Vote.signature v)) <= MAX_SIZE ->
  Vote.Unserialize v0 (Vote.Serialize v ++ rest)
  = Some (Vote.loadKeyID
            {| Vote.version := Vote.version v; Vote.type := Vote.type v;
               Vote.proposal := Vote.proposal v; Vote.vote := Vote.vote v;
               Vote.vinhash := Vote.vinhash v;
               Vote.signature := Vote.signature v;
               Vote.utxo := Vote.utxo v;
               Vote.pubkey := RecoverCompact (Vote.sigHash v) (Vote.signature v);
               Vote.outpoint := Vote.outpoint v0; Vote.time := Vote.time v0;
               Vote.amount := Vote.amount v0; Vote.keyid := Vote.keyid v0;
               Vote.blockNumber := Vote.blockNumber v0;
               Vote.spentBlock := Vote.spentBlock v0;
               Vote.spentHash := Vote.spentHash v0 |}, rest).
Proof.
  intros Hv Ht Hp Hk Hh Hn Hl Hs.
  unfold Vote.Unserialize, Vote.Serialize.
  rewrite <- !List.app_assoc.
  rewrite (rd_bind_step _ _ _ _ _ (read_uint8_ser _ _ Hv)).
  rewrite (rd_bind_step _ _ _ _ _ (read_uint8_ser _ _ Ht)).
  rewrite (rd_bind_step _ _ _ _ _ (read_uint256_ser _ _ Hp)).
  rewrite (rd_bind_step _ _ _ _ _ (read_uint8_ser _ _ Hk)).
  rewrite (rd_bind_step _ _ _ _ _ (read_COutPoint_ser _ _ Hh Hn)).
  pose proof (read_raw_app (Vote.vinhash v)
                (ser_bytes (Vote.signature v) ++ rest)) as Hraw.
  rewrite Hl in Hraw.
  rewrite (rd_bind_step _ _ _ _ _ Hraw).
  rewrite (rd_bind_step _ _ _ _ _ (read_bytes_ser _ _ Hs)).
  reflexivity.
Qed.

Lemma loadKeyID_digests (v2 v : Vote.t) :
  Vote.version v2 = Vote.version v -> Vote.type v2 = Vote.type v ->
  Vote.proposal v2 = Vote.proposal v -> Vote.vote v2 = Vote.vote v ->
  Vote.vinhash v2 = Vote.vinhash v -> Vote.signature v2 = Vote.signature v ->
  Vote.utxo v2 = Vote.utxo v ->
  Vote.Serialize (Vote.loadKeyID v2) = Vote.Serialize v
  /\ Vote.getHash (Vote.loadKeyID v2) = Vote.getHash v
  /\ Vote.sigHash (Vote.loadKeyID v2) = Vote.sigHash v.
Proof.
  intros H1 H2 H3 H4 H5 H6 H7.
  destruct (loadKeyID_wire v2)
    as (E1 & E2 & E3 & E4 & E5 & E6 & E7 & _).
  unfold Vote.Serialize, Vote.getHash, Vote.sigHash, Vote.hash_stream,
    Vote.sig_stream.
  rewrite E1, E2, E3, E4, E5, E6, E7, H1, H2, H3, H4, H5, H6, H7.
  repeat split; reflexivity.
Qed.

(** Reading back a serialised vote into an object [v0]: the wire fields
    are those written, the public key is the one recovered from the
    signature over the sig-hash of the vote written, and the memory-only
    fields (outpoint, time, block number, spent marker) are those of [v0].
    The vote read has the hash and the sig-hash of the vote written. *)
Theorem Vote_wire_roundtrip (v v0 : Vote.t) (rest : list byte) :
  0 <= Vote.version v < 256 -> 0 <= Vote.type v < 256 ->
  0 <= Vote.proposal v < 2 ^ 256 -> 0 <= Vote.vote v < 256 ->
  0 <= op_hash (Vote.utxo v) < 2 ^ 256 -> 0 <= op_n (Vote.utxo v) < 2 ^ 32 ->
  List.length (Vote.vinhash v) = VINHASH_SIZE ->
  Z.of_nat (List.length (Vote.signature v)) <= MAX_SIZE ->
  exists v',
    Vote.Unserialize v0 (Vote.Serialize v ++ rest) = Some (v', rest)
    /\ Vote.Serialize v' = Vote.Serialize v
    /\ Vote.getHash v' = Vote.getHash v
    /\ Vote.sigHash v' = Vote.sigHash v
    /\ Vote.pubkey v' = RecoverCompact (Vote.sigHash v) (Vote.signature v)
    /\ Vote.outpoint v' = Vote.outpoint v0 /\ Vote.time v' = Vote.time v0
    /\ Vote.blockNumber v' = Vote.blockNumber v0
    /\ Vote.spentBlock v' = Vote.spentBlock v0
    /\ Vote.spentHash v' = Vote.spentHash v0.
Proof.
  intros Hv Ht Hp Hk Hh Hn Hl Hs.
  eexists. split; [apply Vote_read_back; assumption|].
  match goal with |- context [Vote.loadKeyID ?v2] =>
    destruct (loadKeyID_wire v2)
      as (_ & _ & _ & _ & _ & _ & _ & E8 & E9 & E10 & E11 & E12 & E13);
    destruct (loadKeyID_digests v2 v) as (D1 & D2 & D3); try reflexivity
  end.
  rewrite D1, D2, D3, E8, E9, E10, E11, E12, E13. repeat split; reflexivity.
Qed.
End Codec.

(** ** What [dataFromBlock] extracts *)
Section Extraction.
Context `{Ext : Externals}.
Import Governance.

Lemma rd_bind_inv {A B} (r : Reader A) (k : A -> Reader B) (s : list byte)
      (x : B * list byte) :
  rd_bind r k s = Some x -> exists a s', r s = Some (a, s') /\ k a s' = Some x.
Proof.
  unfold rd_bind. destruct (r s) as [[a s']|]; [|discriminate].
  intros H. exists a, s'. split; [reflexivity | exact H].
Qed.

Lemma Proposal_Unserialize_blockNumber (p0 q : Proposal.t) (s s' : list byte) :
  Proposal.Unserialize p0 s = Some (q, s') ->
  Proposal.blockNumber q = Proposal.blockNumber p0.
Proof.
  unfold Proposal.Unserialize. intros H.
  repeat (apply rd_bind_inv in H; destruct H as (? & ? & _ & H)).
  unfold rd_ret in H. injection H as <- _. reflexivity.
Qed.

Lemma Vote_Unserialize_memory (v0 v : Vote.t) (s s' : list byte) :
  Vote.Unserialize v0 s = Some (v, s') ->
  Vote.outpoint v = Vote.outpoint v0 /\ Vote.time v = Vote.time v0
  /\ Vote.blockNumber v = Vote.blockNumber v0
  /\ Vote.spentBlock v = Vote.spentBlock v0
  /\ Vote.spentHash v = Vote.spentHash v0.
Proof.
  unfold Vote.Unserialize. intros H.
  repeat (apply rd_bind_inv in H; destruct H as (? & ? & _ & H)).
  unfold rd_ret in H. injection H as <- _.
  match goal with |- context [Vote.loadKeyID ?v2] =>
    destruct (loadKeyID_wire v2)
      as (_ & _ & _ & _ & _ & _ & _ & _ & E9 & E10 & E11 & E12 & E13) end.
  rewrite E9, E10, E11, E12, E13. repeat split; reflexivity.
Qed.

Lemma set_insert_keeps {A} (key : A -> Z) (x e : A) (s : list A) :
  In e s -> In e (set_insert key x s).
Proof.
  induction s as [|y s IH]; simpl; [intros []|].
  intros Hin.
  destruct (key x <? key y); [right; exact Hin|].
  destruct (key y <? key x); [|exact Hin].
  destruct Hin as [H|H]; [left; exact H | right; apply IH, H].
Qed.

(** The vote-change block of [dataFromBlock] comes to a plain
    [std::set::insert]. *)
Lemma insert_vote_eq (votesRet : list Vote.t) (vote : Vote.t) :
  insert_vote votesRet vote = set_insert Vote.getHash vote votesRet.
Proof.
  destruct (set_count Vote.getHash vote votesRet) eqn:E.
  - rewrite (insert_vote_present _ _ E), (set_insert_present _ _ _ E). reflexivity.
  - unfold insert_vote. rewrite E. reflexivity.
Qed.

Lemma dataFromOut_inv st block tx params bi cp n out ps vs ps' vs' :
  dataFromOut st block tx params bi cp n out (ps, vs) = Return (ps', vs') ->
  (ps' = ps /\ vs' = vs)
  \/ (exists p, checked_proposal params bi p
                /\ ps' = set_insert Proposal.getHash p ps /\ vs' = vs)
  \/ (exists v, checked_vote st block tx params bi cp v
                /\ ps' = ps /\ vs' = set_insert Vote.getHash v vs).
Proof.
  unfold dataFromOut.
  destruct (scriptPubKey out) as [|b0 rest] eqn:Escript;
    [intros [= <- <-]; left; tauto|].
  destruct (negb (Z_of_byte b0 =? OP_RETURN)); [intros [= <- <-]; left; tauto|].
  destruct (script_data (b0 :: rest)) as [data|]; [|intros [= <- <-]; left; tauto].
  destruct (stream_read NetworkObject.Unserialize data) as [obj|]; [|discriminate].
  simpl.
  destruct (negb (NetworkObject.isValid obj)); [intros [= <- <-]; left; tauto|].
  destruct (NetworkObject.getType obj =? PROPOSAL).
  - unfold stream_read.
    destruct (Proposal.Unserialize _ data) as [[proposal s']|] eqn:Eu;
      [|discriminate].
    simpl.
    destruct (Proposal.isValid proposal params) eqn:Ev; simpl;
      [|intros [= <- <-]; left; tauto].
    destruct (match bi with Some h => _ | None => true end) eqn:Ec;
      intros [= <- <-]; [|left; tauto].
    right. left. exists proposal. split; [|tauto].
    split; [exact Ev|]. split.
    + apply Proposal_Unserialize_blockNumber in Eu. exact Eu.
    + intros h ->. exact Ec.
  - destruct (NetworkObject.getType obj =? VOTE); [|intros [= <- <-]; left; tauto].
    unfold stream_read.
    destruct (Vote.Unserialize _ data) as [[vote s']|] eqn:Eu; [|discriminate].
    simpl.
    destruct (match bi with
              | Some h => cp && negb (hasProposal_before st (Vote.proposal vote) h)
              | None => false
              end) eqn:E1; simpl; [intros [= <- <-]; left; tauto|].
    destruct (Vote.isValid_vin vote (vinHashes_of tx) params) eqn:E2; simpl;
      [|intros [= <- <-]; left; tauto].
    destruct (match bi with
              | Some h => negb (outsideVotingCutoff
                                  (getProposal st (Vote.proposal vote)) h params)
              | None => false
              end) eqn:E3; intros [= <- <-]; [left; tauto|].
    right. right. exists vote. rewrite insert_vote_eq. split; [|tauto].
    apply Vote_Unserialize_memory in Eu. simpl in Eu.
    destruct Eu as (Eo & Et & Eb & Esb & Esh).
    unfold Vote.isValid_vin in E2.
    destruct (Vote.isValid vote params) eqn:Ev; [|discriminate]. simpl in E2.
    split; [exact Ev|]. split; [exact E2|].
    split; [rewrite Eo; reflexivity|]. split; [exact Et|]. split; [exact Eb|].
    split; [unfold Vote.spent; rewrite Esb; reflexivity|].
    intros h ->. split.
    + destruct (outsideVotingCutoff _ h params); [reflexivity | discriminate].
    + intros ->. simpl in E1.
      destruct (hasProposal_before st (Vote.proposal vote) h);
        [reflexivity | discriminate].
Qed.

Lemma dataFromOuts_step_inv (I : list Proposal.t * list Vote.t -> Prop)
      st block tx params bi cp outs n ret ret' :
  (forall m out r r', I r ->
     dataFromOut st block tx params bi cp m out r = Return r' -> I r') ->
  I ret ->
  dataFromOuts st block tx params bi cp n outs ret = Return ret' -> I ret'.
Proof.
  intros Hstep. revert n ret.
  induction outs as [|out outs IH]; intros n ret Hret; simpl.
  - intros [= <-]. exact Hret.
  - destruct (dataFromOut st block tx params bi cp n out ret) as [r1|] eqn:E1;
      [|discriminate].
    simpl. apply IH. eapply Hstep; eassumption.
Qed.

Lemma dataFromTxs_step_inv (I : list Proposal.t * list Vote.t -> Prop)
      st block txs params bi cp ret ret' :
  (forall tx m out r r', In tx txs -> IsCoinBase tx = false -> I r ->
     dataFromOut st block tx params bi cp m out r = Return r' -> I r') ->
  I ret ->
  dataFromTxs st block txs params bi cp ret = Return ret' -> I ret'.
Proof.
  revert ret. induction txs as [|tx txs IH]; intros ret Hstep Hret; simpl.
  - intros [= <-]. exact Hret.
  - destruct (IsCoinBase tx) eqn:Ecb.
    + apply IH; [|exact Hret]. intros tx' m out r r' Hin. apply Hstep. right. exact Hin.
    + destruct (dataFromOuts st block tx params bi cp 0 (vout tx) ret) as [r1|] eqn:E1;
        [|discriminate].
      simpl. apply IH.
      * intros tx' m out r r' Hin. apply Hstep. right. exact Hin.
      * eapply (dataFromOuts_step_inv I); [|exact Hret|exact E1].
        intros m out r r'. apply Hstep; [left; reflexivity | exact Ecb].
Qed.

(** Every proposal and vote that [dataFromBlock] adds to the caller's sets
    passed the checks of the loop body: a proposal is valid, carries the
    height of the block index and, with a block index, lies outside the
    proposal cutoff; a vote is valid, is bound by its vin hash to an input
    of the transaction (not a coinbase) that holds it, carries that
    transaction's hash, the block time and the height of the block index,
    is unspent and, with a block index, is on a proposal outside the voting
    cutoff that (when [checkProposal] is set) was recorded in an earlier
    block. *)
Theorem dataFromBlock_adds_checked_items (st : State) (block : CBlock)
        (ps : list Proposal.t) (vs : list Vote.t) (params : Consensus.Params)
        (bi : option Z) (cp : bool) (ps' : list Proposal.t) (vs' : list Vote.t) :
  dataFromBlock st block ps vs params bi cp = Return (ps', vs') ->
  (forall p, In p ps' -> In p ps \/ checked_proposal params bi p)
  /\ (forall v, In v vs' ->
        In v vs
        \/ exists tx, In tx (vtx block) /\ IsCoinBase tx = false
                      /\ checked_vote st block tx params bi cp v).
Proof.
  unfold dataFromBlock. intros H.
  apply (dataFromTxs_step_inv
           (fun r => (forall p, In p (fst r) -> In p ps \/ checked_proposal params bi p)
                     /\ (forall v, In v (snd r) ->
                           In v vs
                           \/ exists tx, In tx (vtx block) /\ IsCoinBase tx = false
                                         /\ checked_vote st block tx params bi cp v)))
    in H; [exact H| |simpl; split; intros x Hx; left; exact Hx].
  intros tx m out [ps1 vs1] [ps2 vs2] Hin Hcb [Hp Hv] Hout. simpl in *.
  apply dataFromOut_inv in Hout.
  destruct Hout as [[-> ->]|[(p & Hc & -> & ->)|(v & Hc & -> & ->)]].
  - split; assumption.
  - split; [|exact Hv]. intros q Hq.
    destruct (set_insert_In _ _ _ _ Hq) as [->|Hq']; [right; exact Hc | apply Hp, Hq'].
  - split; [exact Hp|]. intros q Hq.
    destruct (set_insert_In _ _ _ _ Hq) as [->|Hq']; [|apply Hv, Hq'].
    right. exists tx. tauto.
Qed.

(** [dataFromBlock] only adds to the caller's sets: what was in them stays,
    they stay in the order of the hashes, hence without two elements of one
    hash. *)
Theorem dataFromBlock_sets_grow (st : State) (block : CBlock)
        (ps : list Proposal.t) (vs : list Vote.t) (params : Consensus.Params)
        (bi : option Z) (cp : bool) (ps' : list Proposal.t) (vs' : list Vote.t) :
  key_sorted Proposal.getHash ps -> key_sorted Vote.getHash vs ->
  dataFromBlock st block ps vs params bi cp = Return (ps', vs') ->
  key_sorted Proposal.getHash ps' /\ key_sorted Vote.getHash vs'
  /\ List.NoDup (List.map Proposal.getHash ps')
  /\ List.NoDup (List.map Vote.getHash vs')
  /\ (forall p, In p ps -> In p ps') /\ (forall v, In v vs -> In v vs').
Proof.
  unfold dataFromBlock. intros Hps Hvs H.
  apply (dataFromTxs_step_inv
           (fun r => key_sorted Proposal.getHash (fst r)
                     /\ key_sorted Vote.getHash (snd r)
                     /\ (forall p, In p ps -> In p (fst r))
                     /\ (forall v, In v vs -> In v (snd r))))
    in H.
  - simpl in H. destruct H as (H1 & H2 & H3 & H4).
    repeat split; try assumption; apply key_sorted_NoDup; assumption.
  - intros tx m out [ps1 vs1] [ps2 vs2] Hin Hcb (H1 & H2 & H3 & H4) Hout.
    simpl in *. apply dataFromOut_inv in Hout.
    destruct Hout as [[-> ->]|[(p & Hc & -> & ->)|(v & Hc & -> & ->)]].
    + tauto.
    + split; [apply set_insert_sorted, H1|]. split; [exact H2|].
      split; [|exact H4]. intros q Hq. apply set_insert_keeps, H3, Hq.
    + split; [exact H1|]. split; [apply set_insert_sorted, H2|].
      split; [exact H3|]. intros q Hq. apply set_insert_keeps, H4, Hq.
  - simpl. tauto.
Qed.

Lemma dataFromOut_plain st block tx params bi cp n out ret :
  plain_output out ->
  dataFromOut st block tx params bi cp n out ret = Return ret.
Proof.
  unfold plain_output, dataFromOut. destruct ret as [ps vs].
  destruct (scriptPubKey out) as [|b0 rest]; [reflexivity|].
  intros H. apply Z.eqb_neq in H. rewrite H. reflexivity.
Qed.

Lemma dataFromOuts_plain st block tx params bi cp outs n ret :
  Forall plain_output outs ->
  dataFromOuts st block tx params bi cp n outs ret = Return ret.
Proof.
  intros H. revert n. induction H as [|out outs Ho _ IH]; intros n; simpl;
    [reflexivity|].
  rewrite (dataFromOut_plain _ _ _ _ _ _ _ _ _ Ho). simpl. apply IH.
Qed.

(** A block in which no output of a transaction other than the coinbase
    starts with OP_RETURN: [dataFromBlock] returns, with the caller's sets
    as they were.  The outputs of the coinbase are not looked at. *)
Theorem dataFromBlock_without_op_return (st : State) (block : CBlock)
        (ps : list Proposal.t) (vs : list Vote.t) (params : Consensus.Params)
        (bi : option Z) (cp : bool) :
  (forall tx, In tx (vtx block) -> IsCoinBase tx = false ->
              Forall plain_output (vout tx)) ->
  dataFromBlock st block ps vs params bi cp = Return (ps, vs).
Proof.
  unfold dataFromBlock. induction (vtx block) as [|tx txs IH]; intros H; simpl;
    [reflexivity|].
  assert (Hrest : forall tx', In tx' txs -> IsCoinBase tx' = false ->
                              Forall plain_output (vout tx'))
    by (intros tx' Hin; apply H; right; exact Hin).
  destruct (IsCoinBase tx) eqn:Ecb; [apply IH, Hrest|].
  rewrite dataFromOuts_plain by (apply H; [left; reflexivity | exact Ecb]).
  simpl. apply IH, Hrest.
Qed.

Lemma Z_of_byte_small (z : Z) : 0 <= z < 256 -> Z_of_byte (byte_of_Z z) = z.
Proof. intros H. rewrite Z_of_byte_of_Z. apply Z.mod_small, H. Qed.

Lemma GetOp_opcode (op : Z) (pc : list byte) :
  OP_PUSHDATA4 < op < 256 -> GetOp (byte_of_Z op :: pc) = Some (op, [], pc).
Proof.
  unfold OP_PUSHDATA4. intros H. unfold GetOp.
  rewrite Z_of_byte_small by lia.
  destruct (Z.leb_spec op OP_PUSHDATA4); [unfold OP_PUSHDATA4 in *; lia|].
  reflexivity.
Qed.

Lemma GetOp_direct_push (data : list byte) :
  (List.length data < 76)%nat ->
  GetOp (byte_of_Z (Z.of_nat (List.length data)) :: data)
  = Some (Z.of_nat (List.length data), data, []).
Proof.
  intros H. unfold GetOp. rewrite Z_of_byte_small by lia.
  unfold OP_PUSHDATA4, OP_PUSHDATA1.
  destruct (Z.leb_spec (Z.of_nat (List.length data)) 78); [|lia].
  destruct (Z.ltb_spec (Z.of_nat (List.length data)) 76); [|lia].
  simpl (skipn 0 data). cbn [Nat.ltb Nat.leb].
  rewrite Z.ltb_irrefl, Nat2Z.id, List.firstn_all, List.skipn_all. reflexivity.
Qed.

Lemma GetOp_pushdata1 (data : list byte) :
  (List.length data < 256)%nat ->
  GetOp (byte_of_Z OP_PUSHDATA1
         :: byte_of_Z (Z.of_nat (List.length data)) :: data)
  = Some (OP_PUSHDATA1, data, []).
Proof.
  intros H. unfold GetOp. rewrite Z_of_byte_small by (unfold OP_PUSHDATA1; lia).
  change (OP_PUSHDATA1 <=? OP_PUSHDATA4) with true.
  change (OP_PUSHDATA1 <? OP_PUSHDATA1) with false.
  change (OP_PUSHDATA1 =? OP_PUSHDATA1) with true. cbv iota.
  cbn [List.length firstn skipn le_decode Nat.ltb Nat.leb].
  rewrite Z_of_byte_small by lia.
  change (firstn 0 data) with (@nil byte). change (skipn 0 data) with data.
  change (le_decode []) with 0.
  replace (Z.of_nat (List.length data) + 256 * 0) with (Z.of_nat (List.length data))
    by lia.
  rewrite Z.ltb_irrefl, Nat2Z.id, List.firstn_all, List.skipn_all. reflexivity.
Qed.

(** The data of [OP_RETURN <push data>], for a push of 1 to 255 bytes. *)
Lemma script_data_op_return (data : list byte) :
  (0 < List.length data < 256)%nat ->
  script_data (scriptPubKey (Scenario.op_return data)) = Some data
  /\ exists rest, scriptPubKey (Scenario.op_return data)
                  = byte_of_Z OP_RETURN :: rest.
Proof.
  intros Hlen. unfold Scenario.op_return. cbn [scriptPubKey].
  assert (Hop : OP_PUSHDATA4 < OP_RETURN < 256) by (unfold OP_PUSHDATA4, OP_RETURN; lia).
  destruct (List.length data <? 76)%nat eqn:E.
  - split; [|eexists; reflexivity]. apply Nat.ltb_lt in E.
    unfold script_data. cbn [List.length script_data_loop].
    rewrite (GetOp_opcode _ _ Hop). cbv iota.
    destruct data as [|d data]; [simpl in Hlen; lia|].
    cbn [script_data_loop]. rewrite (GetOp_direct_push _ E).
    cbv iota.
    destruct (Z.ltb_spec (Z.of_nat (List.length (d :: data))) OP_PUSHDATA1);
      [|unfold OP_PUSHDATA1 in *; lia].
    rewrite Z.eqb_refl, !orb_true_r. reflexivity.
  - split; [|eexists; reflexivity].
    unfold script_data. cbn [List.length script_data_loop].
    rewrite (GetOp_opcode _ _ Hop). cbv iota.
    rewrite (GetOp_pushdata1 data) by lia.
    rewrite Z.eqb_refl. cbn [orb].
    destruct data as [|d data]; [simpl in Hlen; lia | reflexivity].
Qed.

Lemma isValid_header (p : Proposal.t) (params : Consensus.Params) :
  Proposal.isValid p params = true ->
  Proposal.version p = NETWORK_VERSION /\ Proposal.type p = PROPOSAL.
Proof.
  unfold Proposal.isValid.
  destruct (negb (Proposal.rrname (Proposal.name p))); [discriminate|].
  destruct (negb (Z.rem _ _ =? 0)); [discriminate|].
  destruct (negb (_ && _)); [discriminate|].
  destruct (negb (IsValidDestination _)); [discriminate|].
  destruct (Proposal.type p =? PROPOSAL) eqn:E1; [|discriminate].
  destruct (Proposal.version p =? NETWORK_VERSION) eqn:E2; [|discriminate].
  intros _. lia.
Qed.

Lemma length_ser_string_ge (s : string) :
  (String.length s <= List.length (ser_string s))%nat.
Proof.
  unfold ser_string, ser_bytes.
  rewrite List.length_app, length_list_byte_of_string. lia.
Qed.

(** A proposal submitted is a proposal extracted: for an output
    [OP_RETURN <push>] whose push is the serialisation (below 256 bytes) of
    a proposal that [isValid] accepts, whose block number is the height of
    the block index and which lies outside the proposal cutoff, the loop
    body of [dataFromBlock] returns, with that proposal inserted into
    [proposalsRet] and [votesRet] as it was. *)
Theorem dataFromOut_reads_proposal (st : State) (block : CBlock)
        (tx : CTransaction) (params : Consensus.Params) (h : Z) (cp : bool)
        (n : Z) (p : Proposal.t) (ps : list Proposal.t) (vs : list Vote.t) :
  in_int32 (Proposal.superblock p) -> in_int64 (Proposal.amount p) ->
  (List.length (Proposal.Serialize p) < 256)%nat ->
  Proposal.isValid p params = true ->
  Proposal.blockNumber p = h ->
  outsideProposalCutoff p h params = true ->
  dataFromOut st block tx params (Some h) cp n
              (Scenario.op_return (Proposal.Serialize p)) (ps, vs)
  = Return (set_insert Proposal.getHash p ps, vs).
Proof.
  intros Hs Ha Hlen Hv Hb Hc.
  destruct (isValid_header _ _ Hv) as [Ever Ety].
  assert (Hpos : (0 < List.length (Proposal.Serialize p) < 256)%nat).
  { split; [|exact Hlen]. unfold Proposal.Serialize, ser_uint8.
    rewrite List.length_app, length_ser_le. lia. }
  destruct (script_data_op_return _ Hpos) as [Hdata [rest Hscript]].
  assert (Hstr : Z.of_nat (String.length (Proposal.name p)) <= MAX_SIZE
                 /\ Z.of_nat (String.length (Proposal.address p)) <= MAX_SIZE
                 /\ Z.of_nat (String.length (Proposal.url p)) <= MAX_SIZE
                 /\ Z.of_nat (String.length (Proposal.description p)) <= MAX_SIZE).
  { revert Hlen. unfold Proposal.Serialize. rewrite !List.length_app.
    pose proof (length_ser_string_ge (Proposal.name p)).
    pose proof (length_ser_string_ge (Proposal.address p)).
    pose proof (length_ser_string_ge (Proposal.url p)).
    pose proof (length_ser_string_ge (Proposal.description p)).
    unfold MAX_SIZE. lia. }
  destruct Hstr as (Hn & Had & Hu & Hd).
  assert (Hver : 0 <= Proposal.version p < 256)
    by (rewrite Ever; unfold NETWORK_VERSION; lia).
  assert (Hty : 0 <= Proposal.type p < 256) by (rewrite Ety; unfold PROPOSAL; lia).
  assert (Hobj : stream_read NetworkObject.Unserialize (Proposal.Serialize p)
                 = Return {| NetworkObject.version := NETWORK_VERSION;
                             NetworkObject.type := PROPOSAL |}).
  { unfold stream_read, NetworkObject.Unserialize, Proposal.Serialize.
    rewrite (rd_bind_step _ _ _ _ _ (read_uint8_ser _ _ Hver)).
    rewrite (rd_bind_step _ _ _ _ _ (read_uint8_ser _ _ Hty)).
    unfold rd_ret. rewrite Ever, Ety. reflexivity. }
  assert (Hrd : stream_read (Proposal.Unserialize (Proposal.init h))
                            (Proposal.Serialize p) = Return p).
  { unfold stream_read.
    rewrite <- (List.app_nil_r (Proposal.Serialize p)).
    rewrite (Proposal_read_back p (Proposal.init h) [] Hver Hty Hs Ha Hn Had Hu Hd).
    f_equal. destruct p; simpl in *. rewrite Hb. reflexivity. }
  unfold dataFromOut. rewrite Hdata, Hscript.
  rewrite Z_of_byte_small by (unfold OP_RETURN; lia).
  rewrite Z.eqb_refl. cbn [negb]. rewrite Hobj. cbn [exc_bind].
  change (NetworkObject.isValid _) with true.
  change (NetworkObject.getType _ =? PROPOSAL) with true. cbv iota.
  cbn [negb]. change (default 0 (Some h)) with h.
  rewrite Hrd. cbn [exc_bind]. rewrite Hv, Hc. reflexivity.
Qed.
End Extraction.

(** ** Every vote is tallied *)
Section TallyCoverage.
Context `{Ext : Externals}.
Import Governance.

Lemma map_assign_sorted {V} (k : Z) (v : V) (m : list (Z * V)) :
  key_sorted fst m -> key_sorted fst (map_assign id k v m).
Proof.
  unfold key_sorted. induction 1 as [|[k' v'] m Hs IH Hy]; simpl.
  - constructor; constructor.
  - idtac.
    destruct (k <? k') eqn:E1; [|destruct (k' <? k) eqn:E2].
    + constructor; [constructor; assumption|].
      constructor; [simpl; lia|].
      apply List.Forall_forall. intros e He.
      pose proof (proj1 (List.Forall_forall _ _) Hy e He) as Hlt.
      cbv beta in Hlt. simpl in *. lia.
    + constructor; [exact IH|].
      apply List.Forall_forall. intros [k0 v0] He.
      destruct (map_assign_In id _ _ _ _ _ He) as [[-> ->]|[H|[_ [Hk _]]]].
      * simpl. lia.
      * exact (proj1 (List.Forall_forall _ _) Hy _ H).
      * unfold id in Hk. simpl. lia.
    + assert (k = k') by lia. subst k'. constructor; assumption.
Qed.

Lemma map_find_sorted {V} (k : Z) (v : V) (m : list (Z * V)) :
  key_sorted fst m -> In (k, v) m -> map_find id k m = Some v.
Proof.
  unfold key_sorted. induction 1 as [|[k' v'] m Hs IH Hy]; simpl; [intros []|].
  intros [[= -> ->]|Hin].
  - rewrite Z.ltb_irrefl. reflexivity.
  - pose proof (proj1 (List.Forall_forall _ _) Hy _ Hin) as Hlt.
    cbv beta in Hlt. simpl in Hlt.
    destruct (k <? k') eqn:E1; [lia|].
    destruct (k' <? k) eqn:E2; [|lia]. apply IH, Hin.
Qed.

Lemma group_insert_sorted k vote m :
  key_sorted fst m -> key_sorted fst (group_insert k vote m).
Proof. apply map_assign_sorted. Qed.

Lemma group_insert_cover S k vote m :
  key_sorted fst m -> groups_cover S m ->
  groups_cover (vote :: S) (group_insert k vote m).
Proof.
  intros Hs Hc v Hv. unfold group_insert.
  set (g' := set_insert Vote.getHash vote (default [] (map_find id k m))).
  destruct (map_assign_has id k g' m) as [k' [Hin' Hk']]. unfold id in Hk'. subst k'.
  destruct Hv as [<-|Hv].
  - exists k, g'. split; [exact Hin'|].
    apply set_insert_keys. left. reflexivity.
  - destruct (Hc v Hv) as (k0 & g0 & Hin0 & Hh0).
    destruct (Z.eq_dec k0 k) as [->|Hne].
    + exists k, g'. split; [exact Hin'|].
      apply set_insert_keys. right.
      rewrite (map_find_sorted _ _ _ Hs Hin0). exact Hh0.
    + exists k0, g0. split; [|exact Hh0].
      apply map_assign_keeps; [exact Hin0 | exact Hne].
Qed.

Lemma prep_cover (kf : Vote.t -> Z) (l : list Vote.t) :
  forall S m, key_sorted fst m -> groups_cover S m ->
  groups_cover (l ++ S)
               (fold_left (fun m vote => group_insert (kf vote) vote m) l m).
Proof.
  induction l as [|v l IH]; intros S m Hs Hc; simpl; [exact Hc|].
  intros x Hx.
  apply (IH (v :: S) (group_insert (kf v) v m)).
  - apply group_insert_sorted, Hs.
  - apply group_insert_cover; assumption.
  - apply in_app_iff. simpl. destruct Hx as [Hx|Hx]; [tauto|].
    apply in_app_iff in Hx. tauto.
Qed.

Lemma allUnique_of_keys uvd item h :
  In h (List.map Vote.getHash item) ->
  In h (List.map Vote.getHash (allUnique_of uvd item)).
Proof.
  intros Hh. unfold allUnique_of.
  assert (H0 : In h (List.map Vote.getHash (set_insert_range Vote.getHash item [])))
    by (apply set_insert_range_keys; left; exact Hh).
  revert H0. generalize (set_insert_range Vote.getHash item []).
  generalize item at 1.
  induction item0 as [|v item0 IH]; intros acc Hacc; simpl; [exact Hacc|].
  apply IH. apply set_insert_range_keys. right. exact Hacc.
Qed.

Lemma tally_step_covers params uvd counted tallies item h :
  key_sorted Vote.getHash counted ->
  In h (List.map Vote.getHash counted)
  \/ In h (List.map Vote.getHash (snd item)) ->
  In h (List.map Vote.getHash
          (fst (tally_step params uvd (counted, tallies) item))).
Proof.
  intros Hs Hh. unfold tally_step.
  set (au := List.filter (fun v => negb (set_count Vote.getHash v counted))
                         (allUnique_of uvd item.2)).
  assert (Hin : In h (List.map Vote.getHash counted)
                \/ In h (List.map Vote.getHash au)).
  { destruct Hh as [Hh|Hh]; [left; exact Hh|].
    apply (allUnique_of_keys uvd) in Hh.
    apply in_map_iff in Hh. destruct Hh as [e [<- He]].
    destruct (set_count Vote.getHash e counted) eqn:Ec.
    - left. apply (set_count_sorted Vote.getHash e counted Hs). exact Ec.
    - right. apply in_map. apply filter_In. split; [exact He|].
      rewrite Ec. reflexivity. }
  destruct au as [|a0 au'] eqn:Eau.
  - simpl. destruct Hin as [H|[]]. exact H.
  - rewrite <- Eau in *. simpl. apply set_insert_range_keys. tauto.
Qed.

Lemma tally_loop_covers params pv uvd items acc h :
  groups_within pv uvd -> groups_within pv items ->
  tally_inv params pv acc ->
  In h (List.map Vote.getHash (fst acc))
  \/ (exists k g, In (k, g) items /\ In h (List.map Vote.getHash g)) ->
  In h (List.map Vote.getHash
          (fst (fold_left (tally_step params uvd) items acc))).
Proof.
  intros Hu. revert acc. induction items as [|item items IH];
    intros acc Hi Hacc Hh; simpl.
  - destruct Hh as [H|(k & g & [] & _)]. exact H.
  - assert (Hitem : forall v, In v (snd item) -> In v pv).
    { intros v Hv. destruct item as [k g]. apply (Hi k g v); [left; reflexivity|exact Hv]. }
    apply IH.
    + intros k g v Hin. apply (Hi k g v). right. exact Hin.
    + apply tally_step_inv; assumption.
    + destruct acc as [counted tallies].
      destruct Hacc as (Hs & _). simpl in Hs.
      destruct Hh as [H|(k & g & [->|Hin] & Hg)].
      * left. apply tally_step_covers; [exact Hs | left; exact H].
      * left. apply tally_step_covers; [exact Hs | right; exact Hg].
      * right. exists k, g. tauto.
Qed.

Lemma tally_inv_init params pv : tally_inv params pv ([], []).
Proof.
  split; [constructor|]. split; [intros v []|].
  split; [exists []; split; reflexivity|]. repeat split; reflexivity.
Qed.

Lemma getTally_loop_inv proposal votes params :
  tally_inv params (proposalVotes_of proposal votes)
            (getTally_loop proposal votes params).
Proof.
  unfold getTally_loop. apply tally_loop_inv.
  - apply prep_within; [tauto | intros k g v []].
  - apply prep_within; [tauto | intros k g v []].
  - apply tally_inv_init.
Qed.

Lemma getTally_loop_covers proposal votes params v :
  In v (proposalVotes_of proposal votes) ->
  In (Vote.getHash v)
     (List.map Vote.getHash (fst (getTally_loop proposal votes params))).
Proof.
  intros Hv. unfold getTally_loop.
  set (pv := proposalVotes_of proposal votes) in *.
  apply (tally_loop_covers params pv).
  - apply prep_within; [tauto | intros k g e []].
  - apply prep_within; [tauto | intros k g e []].
  - apply tally_inv_init.
  - right.
    assert (Hc : groups_cover (pv ++ []) (prep_userVotes pv)).
    { apply prep_cover; [constructor | intros x []]. }
    apply Hc. rewrite List.app_nil_r. exact Hv.
Qed.

(** No vote is left out of the tally: every vote of the input on the
    proposal has its hash in the [counted] set when the loop of [getTally]
    ends.  When the votes on the proposal have distinct hashes, as the
    votes of a store keyed by hash have, [counted] is a rearrangement of
    them and each coin amount of the tally is the (64-bit) sum of the
    amounts of all the votes of that kind. *)
Theorem getTally_counts_every_vote (proposal : Z) (votes : list Vote.t)
        (params : Consensus.Params) :
  let counted := fst (getTally_loop proposal votes params) in
  let pv := proposalVotes_of proposal votes in
  let tally := getTally proposal votes params in
  (forall v, In v votes -> Vote.proposal v = proposal ->
             In (Vote.getHash v) (List.map Vote.getHash counted))
  /\ (List.NoDup (List.map Vote.getHash pv) ->
      Permutation counted pv
      /\ cyes tally = to_int64 (kind_amount YES pv)
      /\ cno tally = to_int64 (kind_amount NO pv)
      /\ cabstain tally = to_int64 (kind_amount ABSTAIN pv)).
Proof.
  intros counted pv tally.
  pose proof (getTally_loop_inv proposal votes params) as Hinv.
  fold pv in Hinv. destruct Hinv as (Hs & Hw & _ & Hy & Hn & Ha).
  fold counted in Hs, Hw.
  assert (Hcov : forall v, In v pv ->
                   In (Vote.getHash v) (List.map Vote.getHash counted))
    by (intros v Hv; apply getTally_loop_covers, Hv).
  split.
  { intros v Hv Hp. apply Hcov. apply filter_In. split; [exact Hv | lia]. }
  intros Hnd.
  assert (Hperm : Permutation counted pv).
  { apply Permutation.NoDup_Permutation.
    - apply (List.NoDup_map_inv Vote.getHash), key_sorted_NoDup, Hs.
    - apply (List.NoDup_map_inv Vote.getHash), Hnd.
    - intros v. split; [apply Hw|].
      intros Hv. pose proof (Hcov v Hv) as Hh.
      apply in_map_iff in Hh. destruct Hh as [c [Hc Hin]].
      assert (c = v); [|subst; exact Hin].
      clear - Hnd Hc Hin Hv Hw. apply Hw in Hin.
      revert Hnd Hin Hv Hc. generalize pv. intros l.
      induction l as [|x l IH]; simpl; [intros _ []|].
      intros Hnd. apply List.NoDup_cons_iff in Hnd. destruct Hnd as [Hx Hl].
      intros [->|Hc'] [->|Hv'] E.
      + reflexivity.
      + exfalso. apply Hx. rewrite E. apply in_map, Hv'.
      + exfalso. apply Hx. rewrite <- E. apply in_map, Hc'.
      + apply IH; assumption. }
  split; [exact Hperm|].
  unfold tally, getTally.
  destruct (add_tally_fold (snd (getTally_loop proposal votes params))
                           Tally_init 0 0 0) as (Fy & Fn & Fa);
    try reflexivity.
  rewrite !Z.add_0_l in Fy, Fn, Fa.
  rewrite Fy, Fn, Fa, Hy, Hn, Ha.
  rewrite !(kind_amount_perm _ _ _ Hperm). tauto.
Qed.
End TallyCoverage.

(** ** Payments of a superblock *)
Section Payments.
Context `{Ext : Externals}.
Import Governance.

Lemma fill_payees_budget (props : list (Proposal.t * Tally)) (total : Z) :
  0 <= total <= INT64_MAX ->
  (forall r, In r props -> 0 <= Proposal.amount (fst r) <= INT64_MAX) ->
  0 <= total_value (fill_payees props total) <= total
  /\ Forall (fun o => 0 <= nValue o) (fill_payees props total)
  /\ (forall o, In o (fill_payees props total) ->
        exists r, In r props /\ o = payee_of r)
  /\ (List.length (fill_payees props total) <= List.length props)%nat.
Proof.
  revert total. induction props as [|r props IH]; intros total Ht Ha; simpl.
  - split; [lia|]. split; [constructor|]. split; [intros o []|lia].
  - assert (Hr : 0 <= Proposal.amount r.1 <= INT64_MAX)
      by (apply Ha; left; reflexivity).
    assert (Hin : in_int64 (total - Proposal.amount r.1)).
    { unfold in_int64, INT64_MAX in *. lia. }
    rewrite (to_int64_small _ Hin).
    assert (Hrest : forall r', In r' props ->
                               0 <= Proposal.amount r'.1 <= INT64_MAX)
      by (intros; apply Ha; right; assumption).
    destruct (0 <=? total - Proposal.amount r.1) eqn:E.
    + destruct (IH (total - Proposal.amount r.1) ltac:(lia) Hrest)
        as (H1 & H2 & H3 & H4).
      simpl. split; [lia|]. split; [constructor; [simpl; lia | exact H2]|].
      split; [|lia].
      intros o [<-|Ho]; [exists r; split; [left; reflexivity | reflexivity]|].
      destruct (H3 o Ho) as [r' [Hr' ->]]. exists r'. split; [right; exact Hr'|reflexivity].
    + destruct (IH total Ht Hrest) as (H1 & H2 & H3 & H4).
      split; [exact H1|]. split; [exact H2|]. split; [|lia].
      intros o Ho. destruct (H3 o Ho) as [r' [Hr' ->]].
      exists r'. split; [right; exact Hr' | reflexivity].
Qed.

Lemma total_value_nonneg (outs : list CTxOut) :
  Forall (fun o => 0 <= nValue o) outs -> 0 <= total_value outs.
Proof. induction 1; simpl; [lia|]. unfold total_value in *. simpl. lia. Qed.

Lemma payments_sum_exact (outs : list CTxOut) (acc : Z) :
  Forall (fun o => 0 <= nValue o) outs ->
  0 <= acc -> acc + total_value outs <= INT64_MAX ->
  fold_left (fun a payee => to_int64 (a + nValue payee)) outs acc
  = acc + total_value outs.
Proof.
  intros H. revert acc. induction H as [|o outs Ho Houts IH]; intros acc Ha Hs;
    simpl in *.
  - lia.
  - pose proof (total_value_nonneg outs Houts) as Hnn.
    assert (Hfit : in_int64 (acc + nValue o)).
    { unfold in_int64, INT64_MAX in *. lia. }
    rewrite (to_int64_small _ Hfit). rewrite IH; lia.
Qed.

(** A superblock never pays more than its budget: the values of the payees
    of [getSuperblockPayees] add up to at most
    min(proposalMaxAmount, blockSubsidy), every payee is the amount and the
    address script of one of the results, there are no more payees than
    results, and the 64-bit sum [isValidSuperblock] reports in
    [paymentsRet] is that total, without wrap-around.  Amounts and budget
    are non-negative 64-bit amounts. *)
Theorem getSuperblockPayees_within_budget (h : Z)
        (results : list (Proposal.t * Tally)) (params : Consensus.Params) :
  0 <= superblockBudget h params <= INT64_MAX ->
  (forall r, In r results -> 0 <= Proposal.amount (fst r) <= INT64_MAX) ->
  let payees := getSuperblockPayees h results params in
  0 <= total_value payees <= superblockBudget h params
  /\ (forall o, In o payees -> exists r, In r results /\ o = payee_of r)
  /\ (List.length payees <= List.length results)%nat
  /\ fold_left (fun acc payee => to_int64 (acc + nValue payee)) payees 0
     = total_value payees.
Proof.
  intros Hb Ha payees. unfold payees, getSuperblockPayees.
  destruct results as [|r0 rs];
    [simpl; split; [lia|]; split; [intros o []|]; split; [lia | reflexivity]|].
  set (props := std_sort payee_lt (r0 :: rs)).
  assert (Hperm : Permutation (r0 :: rs) props) by apply std_sort_perm.
  destruct (fill_payees_budget props (superblockBudget h params) Hb)
    as (H1 & H2 & H3 & H4).
  { intros r Hr. apply Ha.
    apply (Permutation_in _ (Permutation_sym Hperm)), Hr. }
  split; [exact H1|]. split; [|split].
  - intros o Ho. destruct (H3 o Ho) as [r [Hr ->]]. exists r. split; [|reflexivity].
    apply (Permutation_in _ (Permutation_sym Hperm)), Hr.
  - rewrite (Permutation_length Hperm). exact H4.
  - rewrite (payments_sum_exact _ 0 H2); lia.
Qed.

Lemma bytes_eqb_eq (a b : list byte) : bytes_eqb a b = true -> a = b.
Proof.
  revert b. induction a as [|x a IH]; intros [|y b]; simpl; try discriminate;
    [reflexivity|].
  intros H. apply andb_prop in H. destruct H as [H1 H2].
  apply Byte.byte_dec_bl in H1. rewrite H1, (IH _ H2). reflexivity.
Qed.

Lemma CTxOut_eqb_eq (a b : CTxOut) : CTxOut_eqb a b = true -> a = b.
Proof.
  unfold CTxOut_eqb. intros H. apply andb_prop in H. destruct H as [H1 H2].
  apply Z.eqb_eq in H1. apply bytes_eqb_eq in H2.
  destruct a, b; simpl in *. subst. reflexivity.
Qed.

Lemma erase_last_match_spec (o : CTxOut) (payees : list CTxOut) :
  (fst (erase_last_match o payees) = true ->
   Permutation payees (o :: snd (erase_last_match o payees)))
  /\ (fst (erase_last_match o payees) = false ->
      snd (erase_last_match o payees) = payees).
Proof.
  induction payees as [|p payees IH]; simpl.
  - split; [discriminate | reflexivity].
  - destruct (erase_last_match o payees) as [found rest]. simpl in IH.
    destruct found; simpl.
    + split; [|discriminate]. intros _.
      rewrite (proj1 IH eq_refl). apply perm_swap.
    + destruct (CTxOut_eqb o p) eqn:E; simpl.
      * split; [|discriminate]. intros _.
        apply CTxOut_eqb_eq in E. subst p. reflexivity.
      * split; [discriminate | reflexivity].
Qed.

Lemma remove_matched_spec (vouts payees : list CTxOut) :
  exists matched,
    Permutation vouts (matched ++ fst (remove_matched vouts payees))
    /\ Permutation payees (matched ++ snd (remove_matched vouts payees)).
Proof.
  revert payees. induction vouts as [|o vouts IH]; intros payees; simpl.
  - exists []. split; reflexivity.
  - destruct (erase_last_match_spec o payees) as [Ht Hf].
    destruct (erase_last_match o payees) as [found payees1]. simpl in Ht, Hf.
    destruct (IH payees1) as [matched [H1 H2]].
    destruct (remove_matched vouts payees1) as [kept payees2]. simpl in H1, H2.
    destruct found; simpl.
    + exists (o :: matched). split.
      * simpl. constructor. exact H1.
      * rewrite (Ht eq_refl). simpl. constructor. exact H2.
    + exists matched. split.
      * rewrite H1. apply Permutation_middle.
      * rewrite <- (Hf eq_refl). exact H2.
Qed.

(** What an accepted superblock holds, for a block with a second
    transaction (the coinstake): when [isValidSuperblock] returns true, the
    height is a superblock height and the block is proof of stake; and
    unless there are no results, the outputs of the second transaction
    are, in some order, the expected payees and at most two outputs more,
    and [paymentsRet] is the 64-bit sum of the payees' values. *)
Theorem isValidSuperblock_accepts_paid (st : State) (block : CBlock) (h : Z)
        (params : Consensus.Params) (paymentsRet paymentsRet' : Z)
        (tx : CTransaction) :
  nth_error (vtx block) 1 = Some tx ->
  isValidSuperblock st block h params paymentsRet = (true, paymentsRet') ->
  let results := getSuperblockResults st h params in
  let payees := getSuperblockPayees h results params in
  isSuperblock h params = true /\ IsProofOfStake block = true
  /\ ((results = [] /\ paymentsRet' = paymentsRet)
      \/ (payees <> []
          /\ paymentsRet'
             = fold_left (fun acc payee => to_int64 (acc + nValue payee))
                         payees 0
          /\ exists kept,
               Permutation (vout tx) (payees ++ kept)
               /\ (List.length kept <= 2)%nat)).
Proof.
  intros Etx H results payees. unfold isValidSuperblock in H.
  destruct (isSuperblock h params); [|discriminate]. cbn [negb] in H.
  destruct (IsProofOfStake block); [|discriminate]. cbn [negb] in H.
  split; [reflexivity|]. split; [reflexivity|].
  fold results in H.
  destruct results as [|r0 rs] eqn:Er; [left; split; [reflexivity|congruence]|].
  right. fold payees in H.
  destruct payees as [|p0 pl] eqn:Ep; [discriminate|].
  rewrite <- Ep in *.
  set (vouts := match nth_error (vtx block) 1 with
                | Some tx => vout tx
                | None => []
                end) in *.
  destruct (2 <? Z.of_nat (List.length vouts) - Z.of_nat (List.length payees));
    [discriminate|].
  destruct (remove_matched_spec vouts payees) as [matched [H1 H2]].
  destruct (remove_matched vouts payees) as [kept left]. simpl in H1, H2.
  injection H as Hok <-.
  apply andb_prop in Hok. destruct Hok as [Hk Hl].
  destruct left as [|l0 left]; [|discriminate].
  rewrite List.app_nil_r in H2.
  assert (Hv : Permutation vouts (payees ++ kept)).
  { rewrite H1. apply Permutation_app_tail. symmetry. exact H2. }
  split; [rewrite Ep; discriminate|]. split; [reflexivity|].
  exists kept. unfold vouts in Hv. rewrite Etx in Hv.
  split; [exact Hv | lia].
Qed.
End Payments.

(** ** Disconnecting a block *)
Section Disconnect.
Context `{Ext : Externals}.
Import Governance.

Lemma remove_block_proposal_sub h st q k p :
  proposals (remove_block_proposal h st q) !! k = Some p ->
  proposals st !! k = Some p.
Proof.
  unfold remove_block_proposal.
  destruct (proposals st !! Proposal.getHash q) as [sp|]; [|tauto].
  destruct (Proposal.blockNumber sp =? h); [|tauto].
  unfold removeProposal. simpl. intros H.
  apply lookup_delete_Some in H. tauto.
Qed.

Lemma remove_block_proposal_keeps h st q k p :
  proposals st !! k = Some p -> Proposal.blockNumber p <> h ->
  proposals (remove_block_proposal h st q) !! k = Some p.
Proof.
  intros Hk Hb. unfold remove_block_proposal.
  destruct (proposals st !! Proposal.getHash q) as [sp|] eqn:E; [|exact Hk].
  destruct (Proposal.blockNumber sp =? h) eqn:Eb; [|exact Hk].
  unfold removeProposal. simpl. apply lookup_delete_Some. split; [|exact Hk].
  intros <-. rewrite E in Hk. injection Hk as ->. lia.
Qed.

Lemma remove_block_proposal_removes h st q :
  (forall p, proposals st !! Proposal.getHash q = Some p ->
             Proposal.blockNumber p = h) ->
  proposals (remove_block_proposal h st q) !! Proposal.getHash q = None.
Proof.
  intros Hb. unfold remove_block_proposal.
  destruct (proposals st !! Proposal.getHash q) as [sp|] eqn:E; [|exact E].
  rewrite (Hb sp eq_refl), Z.eqb_refl.
  unfold removeProposal. simpl. apply lookup_delete_eq.
Qed.

Lemma fold_remove_sub h ps st k p :
  proposals (fold_left (remove_block_proposal h) ps st) !! k = Some p ->
  proposals st !! k = Some p.
Proof.
  revert st. induction ps as [|q ps IH]; intros st; simpl; [tauto|].
  intros H. apply IH in H. eapply remove_block_proposal_sub, H.
Qed.

Lemma fold_remove_keeps h ps st k p :
  proposals st !! k = Some p -> Proposal.blockNumber p <> h ->
  proposals (fold_left (remove_block_proposal h) ps st) !! k = Some p.
Proof.
  revert st. induction ps as [|q ps IH]; intros st Hk Hb; simpl; [exact Hk|].
  apply IH; [|exact Hb]. apply remove_block_proposal_keeps; assumption.
Qed.

Lemma fold_remove_removes h ps st k :
  In k (List.map Proposal.getHash ps) ->
  (forall p, proposals st !! k = Some p -> Proposal.blockNumber p = h) ->
  proposals (fold_left (remove_block_proposal h) ps st) !! k = None.
Proof.
  revert st. induction ps as [|q ps IH]; intros st Hin Hb; simpl; [destruct Hin|].
  destruct (decide (Proposal.getHash q = k)) as [<-|Hne].
  - pose proof (remove_block_proposal_removes h st q Hb) as Hnone.
    destruct (proposals (fold_left (remove_block_proposal h) ps
                                   (remove_block_proposal h st q))
              !! Proposal.getHash q) as [p|] eqn:E; [|reflexivity].
    apply fold_remove_sub in E. congruence.
  - destruct Hin as [H|Hin]; [contradiction|].
    apply IH; [exact Hin|].
    intros p Hp. apply Hb. eapply remove_block_proposal_sub, Hp.
Qed.

Lemma remove_block_vote_proposals h st v :
  proposals (remove_block_vote h st v) = proposals st.
Proof.
  unfold remove_block_vote.
  destruct (votes st !! Vote.getHash v) as [sv|]; [|reflexivity].
  destruct (Vote.blockNumber sv =? h); [apply removeVote_proposals | reflexivity].
Qed.

Lemma unspend_block_votes_proposals block h st :
  proposals (unspend_block_votes block h st) = proposals st.
Proof.
  unfold unspend_block_votes. apply fold_left_proposals. intros s ptr.
  destruct (deref s ptr) as [v|]; [|reflexivity].
  destruct (prevouts_of block !! COutPoint_key (Vote.utxo v));
    [apply unspendVote_proposals | reflexivity].
Qed.

Lemma BlockDisconnected_proposals st block h params st' :
  BlockDisconnected st block h params = Return st' ->
  exists ps vs stA,
    dataFromBlock st block [] [] params None true = Return (ps, vs)
    /\ proposals stA = proposals st
    /\ proposals st' = proposals (fold_left (remove_block_proposal h) ps stA).
Proof.
  unfold BlockDisconnected.
  destruct (dataFromBlock st block [] [] params None true) as [[ps vs]|];
    [|discriminate].
  simpl. intros H. exists ps, vs, (fold_left (remove_block_vote h) vs st).
  split; [reflexivity|].
  split; [apply fold_left_proposals, remove_block_vote_proposals|].
  destruct (h =? INT32_MAX); injection H as <-; [reflexivity|].
  apply unspend_block_votes_proposals.
Qed.

Lemma processBlock_proposals st block h params tip st' :
  processBlock st block h params tip = Return st' ->
  exists ps vs,
    dataFromBlock st block [] [] params (Some h) tip = Return (ps, vs)
    /\ proposals st' = proposals (fold_left addProposal ps st).
Proof.
  unfold processBlock.
  destruct (dataFromBlock st block [] [] params (Some h) tip) as [[ps vs]|];
    [|discriminate].
  simpl. intros H. exists ps, vs. split; [reflexivity|].
  assert (E : proposals (fold_left (insert_block_vote tip) vs
                                   (fold_left addProposal ps st))
              = proposals (fold_left addProposal ps st))
    by apply fold_left_proposals, insert_block_vote_proposals.
  destruct (negb tip || bool_decide _); injection H as <-; [exact E|].
  rewrite spend_block_votes_proposals. exact E.
Qed.

Lemma fold_addProposal_new ps st k p :
  proposals st !! k = None ->
  proposals (fold_left addProposal ps st) !! k = Some p ->
  In p ps /\ Proposal.getHash p = k.
Proof.
  revert st. induction ps as [|q ps IH]; intros st Hn H; simpl in *; [congruence|].
  destruct (proposals (addProposal st q) !! k) as [p'|] eqn:E.
  - pose proof (fold_addProposal_keeps ps _ _ _ E) as H'.
    rewrite H in H'. injection H' as ->.
    unfold addProposal in E.
    destruct (proposals st !! Proposal.getHash q); [congruence|].
    simpl in E. apply lookup_insert_Some in E.
    destruct E as [[<- <-]|[_ E]]; [split; [left|]; reflexivity | congruence].
  - destruct (IH _ E H) as [Hin Hk]. split; [right; exact Hin | exact Hk].
Qed.

Lemma unspendVote_votes st ptr h t k v' :
  votes (unspendVote st ptr h t) !! k = Some v' ->
  exists v, votes st !! k = Some v /\ (v' = v \/ v' = Vote.set_spent v 0 0).
Proof.
  unfold unspendVote.
  destruct (deref st ptr) as [v|]; [|intros H; exists v'; tauto].
  destruct (proposals st !! Vote.proposal v) as [p|]; [|intros H; exists v'; tauto].
  destruct (Proposal.superblock p <? h); [intros H; exists v'; tauto|].
  rewrite store_votes.
  destruct (votes st !! Vote.getHash (Vote.unspend v h t).1) as [vv|] eqn:E.
  - simpl. intros H. apply lookup_insert_Some in H.
    destruct H as [[<- <-]|[_ H]]; [|exists v'; tauto].
    exists vv. split; [exact E|].
    unfold Vote.unspend. destruct (_ && _); simpl; tauto.
  - rewrite store_votes. intros H. exists v'. tauto.
Qed.

Lemma set_spent_twice v a b c d :
  Vote.set_spent (Vote.set_spent v a b) c d = Vote.set_spent v c d.
Proof. reflexivity. Qed.

Lemma unspend_block_votes_votes block h st k v' :
  votes (unspend_block_votes block h st) !! k = Some v' ->
  exists v, votes st !! k = Some v /\ (v' = v \/ v' = Vote.set_spent v 0 0).
Proof.
  unfold unspend_block_votes. generalize (svotes_of st h). intros ptrs.
  revert st. induction ptrs as [|ptr ptrs IH]; intros st; simpl.
  - intros H. exists v'. tauto.
  - intros H. apply IH in H. destruct H as [v1 [H1 R1]].
    assert (H0 : exists v, votes st !! k = Some v
                           /\ (v1 = v \/ v1 = Vote.set_spent v 0 0)).
    { destruct (deref st ptr) as [vote|]; [|exists v1; tauto].
      destruct (prevouts_of block !! COutPoint_key (Vote.utxo vote));
        [|exists v1; tauto].
      eapply unspendVote_votes, H1. }
    destruct H0 as [v [H0 R0]]. exists v. split; [exact H0|].
    destruct R1 as [->| ->]; [exact R0|].
    destruct R0 as [->| ->]; [right; reflexivity|].
    right. apply set_spent_twice.
Qed.

Lemma removeVote_votes st v k v' :
  votes (removeVote st v) !! k = Some v' -> votes st !! k = Some v'.
Proof.
  unfold removeVote. destruct (votes st !! Vote.getHash v) eqn:E; [|tauto].
  simpl.
  assert (Hdel : delete (Vote.getHash v) (votes st) !! k = Some v' ->
                 votes st !! k = Some v').
  { intros H. apply lookup_delete_Some in H. tauto. }
  destruct (proposals st !! Vote.proposal v) as [p|]; [|exact Hdel].
  destruct (sbvotes st !! Proposal.superblock p) as [vs|]; [|exact Hdel].
  destruct (vs !! Vote.getHash v); exact Hdel.
Qed.

Lemma fold_remove_block_vote_votes h vs st k v' :
  votes (fold_left (remove_block_vote h) vs st) !! k = Some v' ->
  votes st !! k = Some v'.
Proof.
  revert st. induction vs as [|v vs IH]; intros st; simpl; [tauto|].
  intros H. apply IH in H. unfold remove_block_vote in H.
  destruct (votes st !! Vote.getHash v) as [sv|]; [|exact H].
  destruct (Vote.blockNumber sv =? h); [|exact H].
  eapply removeVote_votes, H.
Qed.

Lemma remove_block_proposal_votes h st q :
  votes (remove_block_proposal h st q) = votes st.
Proof.
  unfold remove_block_proposal.
  destruct (proposals st !! Proposal.getHash q) as [sp|]; [|reflexivity].
  destruct (Proposal.blockNumber sp =? h); reflexivity.
Qed.

Lemma fold_remove_block_proposal_votes h ps st :
  votes (fold_left (remove_block_proposal h) ps st) = votes st.
Proof.
  revert st. induction ps as [|q ps IH]; intros st; simpl; [reflexivity|].
  rewrite IH. apply remove_block_proposal_votes.
Qed.

(** [BlockDisconnected] adds no proposal and no vote: a proposal of the
    store afterwards was there before, unchanged; a vote afterwards was
    there before under the same hash, unchanged or with its spent marker
    cleared.  A proposal that was not recorded at the height of the block
    stays. *)
Theorem BlockDisconnected_only_removes (st st' : State) (block : CBlock)
        (h : Z) (params : Consensus.Params) :
  BlockDisconnected st block h params = Return st' ->
  (forall k p, proposals st' !! k = Some p -> proposals st !! k = Some p)
  /\ (forall k p, proposals st !! k = Some p -> Proposal.blockNumber p <> h ->
                  proposals st' !! k = Some p)
  /\ (forall k v', votes st' !! k = Some v' ->
        exists v, votes st !! k = Some v
                  /\ (v' = v \/ v' = Vote.set_spent v 0 0)).
Proof.
  intros H.
  destruct (BlockDisconnected_proposals _ _ _ _ _ H) as (ps & vs & stA & _ & EA & E').
  split; [|split].
  - intros k p Hk. rewrite E' in Hk. apply fold_remove_sub in Hk.
    rewrite EA in Hk. exact Hk.
  - intros k p Hk Hb. rewrite E'. apply fold_remove_keeps; [|exact Hb].
    rewrite EA. exact Hk.
  - clear ps vs stA EA E'. unfold BlockDisconnected in H.
    destruct (dataFromBlock st block [] [] params None true) as [[ps vs]|];
      [|discriminate].
    simpl in H. intros k v' Hk.
    assert (Hgen : forall v1,
               votes (fold_left (remove_block_proposal h) ps
                        (fold_left (remove_block_vote h) vs st)) !! k = Some v1 ->
               votes st !! k = Some v1).
    { intros v1 H1. rewrite fold_remove_block_proposal_votes in H1.
      eapply fold_remove_block_vote_votes, H1. }
    destruct (h =? INT32_MAX); injection H as <-.
    + exists v'. split; [apply Hgen, Hk | left; reflexivity].
    + apply unspend_block_votes_votes in Hk. destruct Hk as [v [Hv R]].
      exists v. split; [apply Hgen, Hv | exact R].
Qed.

Lemma Proposal_Unserialize_indep (p0 p0' q : Proposal.t) (s s' : list byte) :
  Proposal.Unserialize p0 s = Some (q, s') ->
  Proposal.Unserialize p0' s
  = Some ({| Proposal.version := Proposal.version q;
             Proposal.type := Proposal.type q;
             Proposal.name := Proposal.name q;
             Proposal.superblock := Proposal.superblock q;
             Proposal.amount := Proposal.amount q;
             Proposal.address := Proposal.address q;
             Proposal.url := Proposal.url q;
             Proposal.description := Proposal.description q;
             Proposal.blockNumber := Proposal.blockNumber p0' |}, s').
Proof.
  unfold Proposal.Unserialize, rd_bind, rd_ret.
  repeat match goal with
         | |- context [match ?r ?x with Some _ => _ | None => _ end] =>
             destruct (r x) as [[? ?]|]; [|discriminate]
         end.
  intros [= <- <-]. reflexivity.
Qed.

Lemma dataFromOut_proposal_hashes st st' block tx params h cp cp' n out
      ps1 vs1 ps1' vs1' ps2 vs2 ps2' vs2' :
  dataFromOut st block tx params (Some h) cp n out (ps1, vs1)
  = Return (ps1', vs1') ->
  dataFromOut st' block tx params None cp' n out (ps2, vs2)
  = Return (ps2', vs2') ->
  incl (List.map Proposal.getHash ps1) (List.map Proposal.getHash ps2) ->
  incl (List.map Proposal.getHash ps1') (List.map Proposal.getHash ps2').
Proof.
  unfold dataFromOut.
  destruct (scriptPubKey out) as [|b0 rest] eqn:Escript;
    [intros [= <- <-] [= <- <-]; tauto|].
  destruct (negb (Z_of_byte b0 =? OP_RETURN)); [intros [= <- <-] [= <- <-]; tauto|].
  destruct (script_data (b0 :: rest)) as [data|];
    [|intros [= <- <-] [= <- <-]; tauto].
  destruct (stream_read NetworkObject.Unserialize data) as [obj|]; [|discriminate].
  simpl.
  destruct (negb (NetworkObject.isValid obj)); [intros [= <- <-] [= <- <-]; tauto|].
  destruct (NetworkObject.getType obj =? PROPOSAL).
  - unfold stream_read.
    destruct (Proposal.Unserialize (Proposal.init h) data) as [[q s']|] eqn:E1;
      [|discriminate].
    rewrite (Proposal_Unserialize_indep _ (Proposal.init 0) _ _ _ E1).
    simpl.
    set (q0 := {| Proposal.version := Proposal.version q;
                  Proposal.type := Proposal.type q;
                  Proposal.name := Proposal.name q;
                  Proposal.superblock := Proposal.superblock q;
                  Proposal.amount := Proposal.amount q;
                  Proposal.address := Proposal.address q;
                  Proposal.url := Proposal.url q;
                  Proposal.description := Proposal.description q;
                  Proposal.blockNumber := 0 |}).
    change (Proposal.isValid q0 params) with (Proposal.isValid q params).
    intros H1 H2 Hincl.
    assert (Hsub : incl (List.map Proposal.getHash ps1)
                        (List.map Proposal.getHash ps2')).
    { destruct (Proposal.isValid q params && true); injection H2 as <- _;
        [|exact Hincl].
      intros k Hk. apply set_insert_keys. right. apply Hincl, Hk. }
    destruct (Proposal.isValid q params) eqn:Ev; simpl in H1, H2;
      [|injection H1 as <- _; exact Hsub].
    destruct (outsideProposalCutoff q h params); injection H1 as <- _;
      [|exact Hsub].
    injection H2 as <- _.
    intros k Hk. apply set_insert_keys in Hk. apply set_insert_keys.
    destruct Hk as [->|Hk]; [left; reflexivity | right; apply Hincl, Hk].
  - destruct (NetworkObject.getType obj =? VOTE);
      [|intros [= <- <-] [= <- <-]; tauto].
    destruct (stream_read _ data) as [vote1|]; [|discriminate]. simpl.
    destruct (stream_read _ data) as [vote2|]; [|discriminate]. simpl.
    intros H1 H2.
    match type of H1 with (if ?c then _ else _) = _ => destruct c end;
      injection H1 as <- _;
      match type of H2 with (if ?c then _ else _) = _ => destruct c end;
      injection H2 as <- _; tauto.
Qed.

Lemma dataFromOuts_proposal_hashes st st' block tx params h cp cp' outs n
      r1 r1' r2 r2' :
  dataFromOuts st block tx params (Some h) cp n outs r1 = Return r1' ->
  dataFromOuts st' block tx params None cp' n outs r2 = Return r2' ->
  incl (List.map Proposal.getHash (fst r1)) (List.map Proposal.getHash (fst r2)) ->
  incl (List.map Proposal.getHash (fst r1')) (List.map Proposal.getHash (fst r2')).
Proof.
  revert n r1 r2. induction outs as [|out outs IH]; intros n r1 r2; simpl.
  - intros [= <-] [= <-]. tauto.
  - destruct (dataFromOut st block tx params (Some h) cp n out r1)
      as [[a1 b1]|] eqn:E1; [|discriminate].
    destruct (dataFromOut st' block tx params None cp' n out r2)
      as [[a2 b2]|] eqn:E2; [|discriminate].
    simpl. intros H1 H2 Hincl. apply (IH _ _ _ H1 H2). simpl.
    destruct r1 as [ps1 vs1], r2 as [ps2 vs2].
    eapply dataFromOut_proposal_hashes; eassumption.
Qed.

Lemma dataFromTxs_proposal_hashes st st' block params h cp cp' txs
      r1 r1' r2 r2' :
  dataFromTxs st block txs params (Some h) cp r1 = Return r1' ->
  dataFromTxs st' block txs params None cp' r2 = Return r2' ->
  incl (List.map Proposal.getHash (fst r1)) (List.map Proposal.getHash (fst r2)) ->
  incl (List.map Proposal.getHash (fst r1')) (List.map Proposal.getHash (fst r2')).
Proof.
  revert r1 r2. induction txs as [|tx txs IH]; intros r1 r2; simpl.
  - intros [= <-] [= <-]. tauto.
  - destruct (IsCoinBase tx); [apply IH|].
    destruct (dataFromOuts st block tx params (Some h) cp 0 (vout tx) r1)
      as [a1|] eqn:E1; [|discriminate].
    destruct (dataFromOuts st' block tx params None cp' 0 (vout tx) r2)
      as [a2|] eqn:E2; [|discriminate].
    simpl. intros H1 H2 Hincl. apply (IH _ _ H1 H2).
    eapply dataFromOuts_proposal_hashes; eassumption.
Qed.

Lemma dataFromBlock_blockNumber st block params bi cp ps vs :
  dataFromBlock st block [] [] params bi cp = Return (ps, vs) ->
  forall p, In p ps -> Proposal.blockNumber p = default 0 bi.
Proof.
  unfold dataFromBlock. intros H.
  refine (dataFromTxs_step_inv
            (fun r => forall p, In p (fst r) -> Proposal.blockNumber p = default 0 bi)
            st block (vtx block) params bi cp ([], []) (ps, vs) _ _ H);
    [|intros p []].
  intros tx m out [ps1 vs1] [ps2 vs2] _ _ Hinv Hout. simpl in *.
  apply dataFromOut_inv in Hout.
  destruct Hout as [[-> ->]|[(p & Hc & -> & ->)|(v & Hc & -> & ->)]];
    [exact Hinv| |exact Hinv].
  intros q Hq. destruct (set_insert_In _ _ _ _ Hq) as [->|Hq']; [|apply Hinv, Hq'].
  apply Hc.
Qed.

(** Disconnecting the block just connected undoes its proposals: when
    [processBlock] at height [h] is followed by [BlockDisconnected] of the
    same block at that height, and no proposal of the store before was
    recorded at height [h], the proposals of the store are those before
    the block was connected. *)
Theorem BlockDisconnected_undoes_proposals (st st1 st2 : State)
        (block : CBlock) (h : Z) (params : Consensus.Params) (tip : bool) :
  processBlock st block h params tip = Return st1 ->
  BlockDisconnected st1 block h params = Return st2 ->
  (forall k p, proposals st !! k = Some p -> Proposal.blockNumber p <> h) ->
  proposals st2 = proposals st.
Proof.
  intros Hc Hd Hold.
  destruct (processBlock_proposals _ _ _ _ _ _ Hc) as (ps & vs & Eps & E1).
  destruct (BlockDisconnected_proposals _ _ _ _ _ Hd)
    as (ps' & vs' & stA & Eps' & EA & E2).
  assert (Hincl : incl (List.map Proposal.getHash ps)
                       (List.map Proposal.getHash ps')).
  { unfold dataFromBlock in Eps, Eps'.
    apply (dataFromTxs_proposal_hashes _ _ _ _ _ _ _ _ _ _ _ _ Eps Eps').
    intros k []. }
  pose proof (dataFromBlock_blockNumber _ _ _ _ _ _ _ Eps) as Hbn. simpl in Hbn.
  apply map_eq. intros k. rewrite E2.
  destruct (proposals st !! k) as [p|] eqn:Ek.
  - apply fold_remove_keeps; [|exact (Hold k p Ek)].
    rewrite EA, E1. apply fold_addProposal_keeps, Ek.
  - destruct (proposals stA !! k) as [p|] eqn:EAk.
    + assert (E1k : proposals (fold_left addProposal ps st) !! k = Some p)
        by (rewrite <- E1, <- EA; exact EAk).
      destruct (fold_addProposal_new _ _ _ _ Ek E1k) as [Hin Hk].
      apply fold_remove_removes.
      * apply Hincl. rewrite <- Hk. apply in_map, Hin.
      * intros p' Hp'. rewrite EAk in Hp'. injection Hp' as <-.
        apply (Hbn p Hin).
    + destruct (proposals (fold_left (remove_block_proposal h) ps' stA) !! k)
        as [p|] eqn:E; [|reflexivity].
      apply fold_remove_sub in E. congruence.
Qed.
End Disconnect.

(** ** Queries by name and by utxo *)
Section Queries.
Context `{Ext : Externals}.
Import Governance.

Lemma COutPoint_eqb_eq (a b : COutPoint) : COutPoint_eqb a b = true <-> a = b.
Proof.
  unfold COutPoint_eqb. destruct a as [h1 n1], b as [h2 n2]. simpl. split.
  - intros H. apply andb_prop in H. destruct H as [H1 H2].
    apply Z.eqb_eq in H1, H2. subst. reflexivity.
  - intros [= -> ->]. rewrite !Z.eqb_refl. reflexivity.
Qed.

Lemma In_votes_for st sb v :
  In v (snd (getProposalsForSuperblock st sb)) <->
  (exists k, deref st (sb, k) = Some v) /\ Vote.spent v = false
  /\ exists kp p, proposals st !! kp = Some p /\ Proposal.superblock p = sb
                  /\ Vote.proposal v = Proposal.getHash p.
Proof.
  unfold getProposalsForSuperblock. cbn [snd].
  rewrite filter_In, existsb_exists.
  assert (Hvs : In v (getVotes_sb st sb) <->
                (exists k, deref st (sb, k) = Some v) /\ Vote.spent v = false).
  { unfold getVotes_sb, deref. cbn [fst snd].
    destruct (sbvotes st !! sb) as [vs|].
    - rewrite filter_In, In_values, negb_true_iff. tauto.
    - split; [intros [] | intros [[k Hk] _]; discriminate]. }
  rewrite Hvs. split.
  - intros [[Hk Hs] [x [Hx Ex]]]. split; [exact Hk|]. split; [exact Hs|].
    apply in_map_iff in Hx. destruct Hx as [p [<- Hp]].
    apply filter_In in Hp. destruct Hp as [Hp Hsb].
    unfold getProposals_sb in Hp. apply filter_In in Hp. destruct Hp as [Hp _].
    apply In_values in Hp. destruct Hp as [kp Hp].
    exists kp, p. split; [exact Hp|]. split; lia.
  - intros (Hk & Hs & kp & p & Hp & Hsb & Hv). split; [tauto|].
    exists (Proposal.getHash p). split; [|lia].
    apply in_map. apply filter_In. split; [|lia].
    unfold getProposals_sb. apply filter_In. split; [|lia].
    apply In_values. exists kp. exact Hp.
Qed.

(** [utxoInVoteCutoff] holds exactly when the tip is inside the voting
    cutoff of the next superblock and the store holds, in the bucket of
    that superblock, an unspent vote with this utxo on a proposal of the
    store scheduled for that superblock. *)
Theorem utxoInVoteCutoff_iff (st : State) (utxo : COutPoint) (tipHeight : Z)
        (params : Consensus.Params) (chainHeight : Z) :
  let sb := NextSuperblock params tipHeight chainHeight in
  utxoInVoteCutoff st utxo tipHeight params chainHeight = true <->
  insideVoteCutoff sb tipHeight params = true
  /\ exists k v kp p,
       deref st (sb, k) = Some v /\ Vote.spent v = false /\ Vote.utxo v = utxo
       /\ proposals st !! kp = Some p /\ Proposal.superblock p = sb
       /\ Vote.proposal v = Proposal.getHash p.
Proof.
  intros sb. unfold utxoInVoteCutoff. fold sb.
  destruct (insideVoteCutoff sb tipHeight params); cbn [negb].
  - destruct (getProposalsForSuperblock st sb) as [sproposals svotes] eqn:E.
    assert (Hin : forall v, In v svotes <->
              In v (snd (getProposalsForSuperblock st sb)))
      by (rewrite E; tauto).
    rewrite existsb_exists. split.
    + intros [v [Hv Eu]]. split; [reflexivity|].
      apply Hin, In_votes_for in Hv.
      destruct Hv as ([k Hk] & Hs & kp & p & Hp & Hsb & Hvp).
      apply COutPoint_eqb_eq in Eu.
      exists k, v, kp, p. repeat split; auto.
    + intros [_ (k & v & kp & p & Hk & Hs & Hu & Hp & Hsb & Hvp)].
      exists v. split; [|apply COutPoint_eqb_eq; auto].
      apply Hin, In_votes_for. split; [exists k; exact Hk|].
      split; [exact Hs|]. exists kp, p. tauto.
  - split; [discriminate | intros [H _]; discriminate].
Qed.

(** [hasVote(proposal, voteType, utxo)] holds exactly when the proposal is
    in the store and the bucket of its superblock holds a vote with that
    utxo, proposal and kind; the spent marker of the vote is not looked at,
    so that, unlike the vote queries, a spent vote is found. *)
Theorem hasVote_utxo_iff (st : State) (proposal voteType : Z) (utxo : COutPoint) :
  hasVote_utxo st proposal voteType utxo = true <->
  exists p k v,
    proposals st !! proposal = Some p
    /\ deref st (Proposal.superblock p, k) = Some v
    /\ Vote.utxo v = utxo /\ Vote.proposal v = proposal
    /\ Vote.getVote v = voteType.
Proof.
  unfold hasVote_utxo, deref. cbn [fst snd].
  destruct (proposals st !! proposal) as [p|].
  - destruct (sbvotes st !! Proposal.superblock p) as [vs|] eqn:Evs.
    + rewrite existsb_exists. split.
      * intros [[k v] [Hin H]]. cbn [snd] in H.
        apply andb_prop in H. destruct H as [H H3].
        apply andb_prop in H. destruct H as [H1 H2].
        apply COutPoint_eqb_eq in H1. apply In_items in Hin.
        exists p, k, v. rewrite Evs. repeat split; auto; lia.
      * intros (p' & k & v & [= <-] & Hk & H1 & H2 & H3). rewrite Evs in Hk.
        exists (k, v). split; [apply In_items, Hk|]. cbn [snd].
        rewrite (proj2 (COutPoint_eqb_eq _ _) H1), H2, H3, !Z.eqb_refl. reflexivity.
    + split; [discriminate|].
      intros (p' & k & v & [= <-] & Hk & _). rewrite Evs in Hk. discriminate.
  - split; [discriminate | intros (p' & k & v & H & _); discriminate].
Qed.

(** Every vote that [getVotes(proposalHash)] lists is found by
    [hasVote(proposal, voteType, utxo)] under its own kind and utxo. *)
Theorem hasVote_utxo_finds_listed (st : State) (proposalHash : Z) (v : Vote.t) :
  In v (getVotes_proposal st proposalHash) ->
  hasVote_utxo st proposalHash (Vote.getVote v) (Vote.utxo v) = true.
Proof.
  unfold getVotes_proposal, hasVote_utxo.
  destruct (proposals st !! proposalHash) as [p|]; [|intros []].
  destruct (sbvotes st !! Proposal.superblock p) as [vs|]; [|intros []].
  rewrite filter_In, in_map_iff. intros [[[k v'] [E Hin]] H]. cbn [snd] in E.
  subst v'. apply andb_prop in H. destruct H as [H1 _].
  apply existsb_exists. exists (k, v). split; [exact Hin|]. cbn [snd].
  rewrite (proj2 (COutPoint_eqb_eq _ _) eq_refl), H1, Z.eqb_refl. reflexivity.
Qed.

(** [hasProposal(name, superblock)] holds exactly when a proposal of the
    store has that name and superblock, whatever its hash. *)
Theorem hasProposal_name_iff (st : State) (name : string) (superblock : Z) :
  hasProposal_name st name superblock = true <->
  exists k p, proposals st !! k = Some p
              /\ Proposal.superblock p = superblock /\ Proposal.name p = name.
Proof.
  unfold hasProposal_name. rewrite existsb_exists. split.
  - intros [[k p] [Hin H]]. cbn [snd] in H.
    apply andb_prop in H. destruct H as [H1 H2].
    apply String.eqb_eq in H2. apply In_items in Hin.
    exists k, p. repeat split; auto; lia.
  - intros (k & p & Hk & H1 & H2). exists (k, p).
    split; [apply In_items, Hk|]. cbn [snd].
    rewrite H1, H2, Z.eqb_refl, String.eqb_refl. reflexivity.
Qed.
End Queries.

(** ** What [isValid] asks of a proposal *)
Section ProposalValidity.
Context `{Ext : Externals}.
Import Governance.

Lemma isValid_name (p : Proposal.t) (params : Consensus.Params) :
  Proposal.isValid p params = true -> Proposal.rrname (Proposal.name p) = true.
Proof.
  unfold Proposal.isValid.
  destruct (Proposal.rrname (Proposal.name p)); [reflexivity | discriminate].
Qed.

Lemma length_list_ascii_of_string (s : string) :
  List.length (list_ascii_of_string s) = String.length s.
Proof. induction s as [|c s IH]; simpl; [reflexivity | f_equal; exact IH]. Qed.

Lemma existsb_eqb_In (c : ascii) (l : list ascii) :
  existsb (Ascii.eqb c) l = true <-> In c l.
Proof.
  rewrite existsb_exists. split.
  - intros [x [Hin E]]. apply Ascii.eqb_eq in E. subst x. exact Hin.
  - intros H. exists c. split; [exact H | apply Ascii.eqb_refl].
Qed.

Lemma is_word_existsb (c : ascii) :
  Proposal.is_word c = existsb (Ascii.eqb c) word_chars.
Proof. destruct c as [[] [] [] [] [] [] [] []]; vm_compute; reflexivity. Qed.

Lemma is_name_char_existsb (c : ascii) :
  Proposal.is_name_char c = existsb (Ascii.eqb c) name_chars.
Proof. destruct c as [[] [] [] [] [] [] [] []]; vm_compute; reflexivity. Qed.

(** The two classes of the pattern hold the characters listed, and no
    other of the 256. *)
Lemma is_word_chars (c : ascii) : Proposal.is_word c = true <-> In c word_chars.
Proof. rewrite is_word_existsb. apply existsb_eqb_In. Qed.

Lemma is_name_char_chars (c : ascii) :
  Proposal.is_name_char c = true <-> In c name_chars.
Proof. rewrite is_name_char_existsb. apply existsb_eqb_In. Qed.

(** The check of the name accepts the strings of the pattern and no
    other. *)
Lemma rrname_spec_name (s : string) : Proposal.rrname s = true <-> spec_name s.
Proof.
  unfold Proposal.rrname, spec_name. split.
  - intros H.
    destruct (list_ascii_of_string s) as [|c rest]; [discriminate|].
    destruct (rev rest) as [|l mid] eqn:Er; [discriminate|].
    apply andb_prop in H. destruct H as [H H3].
    apply andb_prop in H. destruct H as [H1 H2].
    assert (Erest : rest = rev mid ++ [l]).
    { rewrite <- (List.rev_involutive rest), Er. reflexivity. }
    exists c, (rev mid), l. rewrite Erest.
    split; [reflexivity|]. split; [apply is_word_chars, H1|].
    split; [apply is_word_chars, H2|].
    apply List.Forall_forall. intros x Hx. apply List.in_rev in Hx.
    apply is_name_char_chars. exact (proj1 (forallb_forall _ _) H3 x Hx).
  - intros (c & mid & l & E & H1 & H2 & H3). rewrite E.
    rewrite List.rev_app_distr. simpl.
    apply is_word_chars in H1. apply is_word_chars in H2. rewrite H1, H2. simpl.
    apply forallb_forall. intros x Hx. apply List.in_rev in Hx.
    apply is_name_char_chars.
    exact (proj1 (List.Forall_forall _ _) H3 x Hx).
Qed.

(** The name of a valid proposal has two characters at least; its first
    and its last character are among the digits, the letters and the
    underscore ([word_chars]), and the characters in between are among
    those, the dash and the blank ([name_chars]). *)
Theorem isValid_name_shape (p : Proposal.t) (params : Consensus.Params) :
  Proposal.isValid p params = true ->
  (2 <= String.length (Proposal.name p))%nat
  /\ exists first mid last,
       list_ascii_of_string (Proposal.name p) = first :: mid ++ [last]
       /\ In first word_chars /\ In last word_chars
       /\ Forall (fun c => In c name_chars) mid.
Proof.
  intros H. apply isValid_name, rrname_spec_name in H.
  split; [|exact H].
  destruct H as (c & mid & l & E & _).
  rewrite <- length_list_ascii_of_string, E. simpl.
  rewrite List.length_app. simpl. lia.
Qed.

Lemma length_hash_stream (p : Proposal.t) :
  List.length (Proposal.hash_stream p) = List.length (Proposal.Serialize p).
Proof.
  unfold Proposal.hash_stream, Proposal.Serialize.
  rewrite !List.length_app. lia.
Qed.

(** A valid proposal fits the relay limit: when [MAX_OP_RETURN_RELAY] is
    between 3 and the largest [int], the wire form of a valid proposal is
    at most [MAX_OP_RETURN_RELAY - 3] bytes long. *)
Theorem isValid_payload_fits (p : Proposal.t) (params : Consensus.Params) :
  3 <= MAX_OP_RETURN_RELAY <= INT32_MAX ->
  Proposal.isValid p params = true ->
  Z.of_nat (List.length (Proposal.Serialize p)) <= MAX_OP_RETURN_RELAY - 3.
Proof.
  intros Hm. unfold Proposal.isValid.
  destruct (negb (Proposal.rrname (Proposal.name p))); [discriminate|].
  destruct (negb (Z.rem _ _ =? 0)); [discriminate|].
  destruct (negb (_ && _)); [discriminate|].
  destruct (negb (IsValidDestination _)); [discriminate|].
  destruct (negb (Proposal.type p =? PROPOSAL)); [discriminate|].
  destruct (negb (Proposal.version p =? NETWORK_VERSION)); [discriminate|].
  rewrite to_int32_small by (unfold in_int32, INT32_MAX in *; lia).
  rewrite Z.mod_small by (unfold INT32_MAX in *; lia).
  rewrite length_hash_stream.
  destruct (Z.ltb_spec (MAX_OP_RETURN_RELAY - 3)
                       (Z.of_nat (List.length (Proposal.Serialize p))));
    [discriminate | lia].
Qed.
End ProposalValidity.

(** ** Proposals and votes of a connected block *)
Section Connect.
Context `{Ext : Externals}.
Import Governance.

Lemma fold_addProposal_adds ps st p :
  List.NoDup (List.map Proposal.getHash ps) -> In p ps ->
  proposals st !! Proposal.getHash p = None ->
  proposals (fold_left addProposal ps st) !! Proposal.getHash p = Some p.
Proof.
  revert st. induction ps as [|q ps IH]; intros st Hnd Hin Hn; [destruct Hin|].
  simpl in *. apply List.NoDup_cons_iff in Hnd. destruct Hnd as [Hq Hnd].
  destruct Hin as [->|Hin].
  - apply fold_addProposal_keeps. unfold addProposal. rewrite Hn. simpl.
    apply lookup_insert_eq.
  - apply IH; [exact Hnd | exact Hin|].
    unfold addProposal.
    destruct (proposals st !! Proposal.getHash q); [exact Hn|].
    simpl. rewrite lookup_insert_ne; [exact Hn|].
    intros E. apply Hq. rewrite E. apply in_map, Hin.
Qed.

Lemma dataFromBlock_sorted st block params bi cp ps vs :
  dataFromBlock st block [] [] params bi cp = Return (ps, vs) ->
  key_sorted Proposal.getHash ps /\ key_sorted Vote.getHash vs.
Proof.
  unfold dataFromBlock. intros H.
  refine (dataFromTxs_step_inv
            (fun r => key_sorted Proposal.getHash (fst r)
                      /\ key_sorted Vote.getHash (snd r))
            st block (vtx block) params bi cp ([], []) (ps, vs) _ _ H);
    [|split; constructor].
  intros tx m out [ps1 vs1] [ps2 vs2] _ _ [H1 H2] Hout. simpl in *.
  apply dataFromOut_inv in Hout.
  destruct Hout as [[-> ->]|[(p & Hc & -> & ->)|(v & Hc & -> & ->)]].
  - tauto.
  - split; [apply set_insert_sorted, H1 | exact H2].
  - split; [exact H1 | apply set_insert_sorted, H2].
Qed.

(** The proposals of a block are in the store once the block is processed:
    every proposal [dataFromBlock] extracts for [processBlock] is found
    under its hash afterwards, as extracted when the hash was free before,
    and as the proposal the store held under that hash otherwise. *)
Theorem processBlock_records_proposals (st st' : State) (block : CBlock)
        (h : Z) (params : Consensus.Params) (tip : bool)
        (ps : list Proposal.t) (vs : list Vote.t) (p : Proposal.t) :
  dataFromBlock st block [] [] params (Some h) tip = Return (ps, vs) ->
  processBlock st block h params tip = Return st' ->
  In p ps ->
  proposals st' !! Proposal.getHash p
  = Some (default p (proposals st !! Proposal.getHash p)).
Proof.
  intros Ed Hp Hin.
  destruct (processBlock_proposals _ _ _ _ _ _ Hp) as (ps0 & vs0 & Ed0 & E).
  rewrite Ed in Ed0. injection Ed0 as <- <-.
  rewrite E.
  destruct (proposals st !! Proposal.getHash p) as [q|] eqn:Eq; simpl.
  - apply fold_addProposal_keeps, Eq.
  - apply fold_addProposal_adds; [|exact Hin | exact Eq].
    apply key_sorted_NoDup. eapply dataFromBlock_sorted, Ed.
Qed.

(** The reference overload of [spendVote] marks the caller's vote and the
    record of [sbvotes], and never touches [votes] or the proposals: after
    [spendVote(Vote &)] on a recorded, unspent vote at a height [0 < h] up
    to the superblock of its proposal, the record of [sbvotes] is spent
    and no longer listed by [getVotes(superblock)], while the record of
    [votes] still reads unspent and is listed by [getVotes()]. *)
Theorem spendVote_ref_leaves_votes (st : State) (v : Vote.t) (p : Proposal.t)
        (h t : Z) :
  proposals st !! Vote.proposal v = Some p ->
  deref st (Proposal.superblock p, Vote.getHash v) = Some v ->
  votes st !! Vote.getHash v = Some v ->
  Vote.spent v = false -> 0 < h <= Proposal.superblock p ->
  let v' := fst (spendVote_ref st v h t) in
  let st' := snd (spendVote_ref st v h t) in
  v' = Vote.spend v h t
  /\ Vote.spent v' = true
  /\ deref st' (Proposal.superblock p, Vote.getHash v) = Some v'
  /\ votes st' = votes st
  /\ proposals st' = proposals st
  /\ In v (getVotes st')
  /\ ~ In v' (getVotes_sb st' (Proposal.superblock p)).
Proof.
  intros Hp Hd Hv Hs Hh. unfold spendVote_ref. rewrite Hp.
  destruct (Z.ltb_spec (Proposal.superblock p) h); [lia|].
  unfold deref in Hd. cbn [fst snd] in Hd.
  destruct (sbvotes st !! Proposal.superblock p) as [mv|] eqn:Emv; [|discriminate].
  change (Vote.getHash (Vote.spend v h t)) with (Vote.getHash v).
  rewrite Hd. cbn [fst snd]. cbv zeta.
  assert (Hsp : Vote.spent (Vote.spend v h t) = true)
    by (unfold Vote.spent, Vote.spend; simpl; lia).
  split; [reflexivity|]. split; [exact Hsp|].
  split.
  { unfold deref, set_sbvotes. cbn [sbvotes fst snd].
    rewrite lookup_insert_eq. apply lookup_insert_eq. }
  split; [reflexivity|]. split; [reflexivity|].
  split.
  - unfold getVotes. apply filter_In. split.
    + apply In_values. exists (Vote.getHash v). exact Hv.
    + rewrite Hs. reflexivity.
  - unfold getVotes_sb, set_sbvotes. cbn [sbvotes]. rewrite lookup_insert_eq.
    intros Hin. apply filter_In in Hin. destruct Hin as [_ Hin].
    rewrite Hsp in Hin. discriminate.
Qed.
End Connect.

(** ** Votes in transaction outputs *)
Section VoteOutputs.
Context `{Ext : Externals}.
Import Governance.

Lemma first_data_op_return (data : list byte) :
  (0 < List.length data < 256)%nat ->
  first_data_loop (List.length (scriptPubKey (Scenario.op_return data)))
                  (scriptPubKey (Scenario.op_return data)) = data.
Proof.
  intros Hlen. unfold Scenario.op_return. cbn [scriptPubKey].
  assert (Hop : OP_PUSHDATA4 < OP_RETURN < 256) by (unfold OP_PUSHDATA4, OP_RETURN; lia).
  destruct (List.length data <? 76)%nat eqn:E.
  - apply Nat.ltb_lt in E. cbn [List.length first_data_loop].
    rewrite (GetOp_opcode _ _ Hop). cbv iota.
    destruct data as [|d data]; [simpl in Hlen; lia|].
    cbn [first_data_loop]. rewrite (GetOp_direct_push _ E). reflexivity.
  - cbn [List.length first_data_loop].
    rewrite (GetOp_opcode _ _ Hop). cbv iota.
    rewrite (GetOp_pushdata1 data) by lia.
    destruct data as [|d data]; [simpl in Hlen; lia | reflexivity].
Qed.

(** A vote written is a vote found: on an output [OP_RETURN <push>] whose
    push is the serialisation (below 256 bytes) of a vote of type VOTE with
    fields within their widths, [isVoteInTxOut] returns true and leaves in
    [vote] what [Unserialize] reads back into it: the hash and the sig-hash
    of the vote written.  The version byte is not looked at. *)
Theorem isVoteInTxOut_finds_vote (v v0 : Vote.t) :
  0 <= Vote.version v < 256 -> Vote.type v = VOTE ->
  0 <= Vote.proposal v < 2 ^ 256 -> 0 <= Vote.vote v < 256 ->
  0 <= op_hash (Vote.utxo v) < 2 ^ 256 -> 0 <= op_n (Vote.utxo v) < 2 ^ 32 ->
  List.length (Vote.vinhash v) = VINHASH_SIZE ->
  (List.length (Vote.Serialize v) < 256)%nat ->
  exists v',
    isVoteInTxOut (Scenario.op_return (Vote.Serialize v)) v0 = Return (true, v')
    /\ Vote.Unserialize v0 (Vote.Serialize v) = Some (v', [])
    /\ Vote.getHash v' = Vote.getHash v
    /\ Vote.sigHash v' = Vote.sigHash v.
Proof.
  intros Hv Ht Hp Hk Hh Hn Hl Hlen.
  assert (Hty : 0 <= Vote.type v < 256) by (rewrite Ht; unfold VOTE; lia).
  assert (Hs : Z.of_nat (List.length (Vote.signature v)) <= MAX_SIZE).
  { revert Hlen. unfold Vote.Serialize, ser_bytes. rewrite !List.length_app.
    unfold MAX_SIZE. lia. }
  assert (Hpos : (0 < List.length (Vote.Serialize v) < 256)%nat).
  { split; [|exact Hlen]. unfold Vote.Serialize, ser_uint8.
    rewrite List.length_app, length_ser_le. lia. }
  pose proof (Vote_read_back v v0 [] Hv Hty Hp Hk Hh Hn Hl Hs) as Hrd.
  rewrite List.app_nil_r in Hrd.
  match type of Hrd with _ = Some (Vote.loadKeyID ?v2, _) =>
    destruct (loadKeyID_digests v2 v) as (_ & D2 & D3); try reflexivity;
    exists (Vote.loadKeyID v2)
  end.
  split; [|split; [exact Hrd | split; [exact D2 | exact D3]]].
  destruct (script_data_op_return _ Hpos) as [_ [rest Hscript]].
  unfold isVoteInTxOut. rewrite (first_data_op_return _ Hpos), Hscript.
  rewrite Z_of_byte_small by (unfold OP_RETURN; lia).
  rewrite Z.eqb_refl. cbn [negb].
  assert (Hobj : stream_read NetworkObject.Unserialize (Vote.Serialize v)
                 = Return {| NetworkObject.version := Vote.version v;
                             NetworkObject.type := VOTE |}).
  { unfold stream_read, NetworkObject.Unserialize, Vote.Serialize.
    rewrite (rd_bind_step _ _ _ _ _ (read_uint8_ser _ _ Hv)).
    rewrite (rd_bind_step _ _ _ _ _ (read_uint8_ser _ _ Hty)).
    unfold rd_ret. rewrite Ht. reflexivity. }
  rewrite Hobj. cbn [exc_bind].
  change (NetworkObject.getType _ =? VOTE) with true. cbv iota.
  unfold stream_read. rewrite Hrd. reflexivity.
Qed.

Lemma first_data_none (fuel : nat) (pc : list byte) :
  first_data_loop fuel pc = [] -> script_data_loop fuel pc = None.
Proof.
  revert pc. induction fuel as [|fuel IH]; intros pc; simpl; [reflexivity|].
  destruct pc as [|b pc]; [reflexivity|].
  destruct (GetOp (b :: pc)) as [[[opcode data] pc']|]; [|reflexivity].
  destruct data as [|d data]; [apply IH | discriminate].
Qed.

(** [isVoteInTxOut] reads the header without a look at what the loop over
    the script found: on an output that starts with OP_RETURN and whose
    first push that is not empty is shorter than the two bytes of the
    header, or that pushes nothing at all, the call throws.  Where nothing
    is pushed, the loop body of [dataFromBlock] passes the output over. *)
Theorem isVoteInTxOut_short_data_throws (out : CTxOut) (v0 : Vote.t)
        (b0 : byte) (rest : list byte) :
  scriptPubKey out = b0 :: rest -> Z_of_byte b0 = OP_RETURN ->
  (List.length (first_data_loop (List.length (scriptPubKey out))
                                (scriptPubKey out)) < 2)%nat ->
  isVoteInTxOut out v0 = Throw
  /\ (first_data_loop (List.length (scriptPubKey out)) (scriptPubKey out) = [] ->
      forall st block tx params bi cp n ret,
        dataFromOut st block tx params bi cp n out ret = Return ret).
Proof.
  intros Hs Hop Hlen. split.
  - unfold isVoteInTxOut. rewrite Hs at 1. rewrite Hop, Z.eqb_refl. cbn [negb].
    cbv zeta.
    destruct (first_data_loop _ _) as [|d0 [|d1 data]]; simpl in Hlen; try lia;
      reflexivity.
  - intros Hnone st block tx params bi cp n [ps vs]. unfold dataFromOut.
    unfold script_data. rewrite (first_data_none _ _ Hnone).
    rewrite Hs, Hop, Z.eqb_refl. reflexivity.
Qed.
End VoteOutputs.

(** ** Votes of a connected block *)
Section ConnectVotes.
Context `{Ext : Externals}.
Import Governance.

Lemma addVote_other st w k :
  k <> Vote.getHash w ->
  votes (addVote st w) !! k = votes st !! k
  /\ forall sb, deref (addVote st w) (sb, k) = deref st (sb, k).
Proof.
  intros Hk. unfold addVote.
  destruct (proposals st !! Vote.proposal w) as [p|]; [|tauto].
  simpl. split; [apply lookup_insert_ne; congruence|].
  intros sb. unfold deref. cbn [sbvotes fst snd].
  destruct (decide (sb = Proposal.superblock p)) as [->|Hsb].
  - rewrite lookup_insert_eq, lookup_insert_ne by congruence.
    destruct (sbvotes st !! Proposal.superblock p); [reflexivity|].
    simpl. apply lookup_empty.
  - rewrite lookup_insert_ne by congruence. reflexivity.
Qed.

Lemma insert_block_vote_other tip st w k :
  k <> Vote.getHash w ->
  votes (insert_block_vote tip st w) !! k = votes st !! k
  /\ forall sb, deref (insert_block_vote tip st w) (sb, k) = deref st (sb, k).
Proof.
  intros Hk. unfold insert_block_vote.
  destruct (tip && negb (hasProposal st (Vote.proposal w))); [tauto|].
  destruct (votes st !! Vote.getHash w) as [stored|].
  - destruct (Vote.time stored <? Vote.time w); [apply addVote_other, Hk|].
    destruct (_ <? _); [apply addVote_other, Hk | tauto].
  - destruct (tip && Vote.IsVoteSpent w false); [tauto | apply addVote_other, Hk].
Qed.

Lemma insert_block_vote_new tip st v p :
  votes st !! Vote.getHash v = None ->
  proposals st !! Vote.proposal v = Some p ->
  (tip = true -> Vote.IsVoteSpent v false = false) ->
  votes (insert_block_vote tip st v) !! Vote.getHash v = Some v
  /\ deref (insert_block_vote tip st v) (Proposal.superblock p, Vote.getHash v)
     = Some v.
Proof.
  intros Hn Hp Hs. unfold insert_block_vote, hasProposal.
  rewrite Hp, Hn.
  rewrite bool_decide_eq_true_2 by (eexists; reflexivity).
  cbn [negb]. rewrite andb_false_r.
  assert (E : tip && Vote.IsVoteSpent v false = false).
  { destruct tip; [simpl; apply Hs; reflexivity | reflexivity]. }
  rewrite E. unfold addVote. rewrite Hp. simpl.
  split; [apply lookup_insert_eq|].
  unfold deref. cbn [sbvotes fst snd].
  rewrite lookup_insert_eq. apply lookup_insert_eq.
Qed.

Lemma fold_insert_block_vote_other tip vs st k :
  ~ In k (List.map Vote.getHash vs) ->
  votes (fold_left (insert_block_vote tip) vs st) !! k = votes st !! k
  /\ forall sb, deref (fold_left (insert_block_vote tip) vs st) (sb, k)
                = deref st (sb, k).
Proof.
  revert st. induction vs as [|w vs IH]; intros st Hk; simpl in *; [tauto|].
  destruct (IH (insert_block_vote tip st w) ltac:(tauto)) as [H1 H2].
  destruct (insert_block_vote_other tip st w k ltac:(intros E; apply Hk; left;
                                                     symmetry; exact E))
    as [H3 H4].
  split; [rewrite H1; exact H3|].
  intros sb. rewrite H2. apply H4.
Qed.

Lemma fold_insert_block_vote_new tip vs st v p :
  List.NoDup (List.map Vote.getHash vs) -> In v vs ->
  votes st !! Vote.getHash v = None ->
  proposals st !! Vote.proposal v = Some p ->
  (tip = true -> Vote.IsVoteSpent v false = false) ->
  votes (fold_left (insert_block_vote tip) vs st) !! Vote.getHash v = Some v
  /\ deref (fold_left (insert_block_vote tip) vs st)
           (Proposal.superblock p, Vote.getHash v) = Some v.
Proof.
  revert st. induction vs as [|w vs IH]; intros st Hnd Hin Hn Hp Hs;
    [destruct Hin|].
  simpl in *. apply List.NoDup_cons_iff in Hnd. destruct Hnd as [Hw Hnd].
  destruct Hin as [->|Hin].
  - destruct (fold_insert_block_vote_other tip vs (insert_block_vote tip st v)
                (Vote.getHash v) Hw) as [H1 H2].
    destruct (insert_block_vote_new tip st v p Hn Hp Hs) as [H3 H4].
    split; [rewrite H1; exact H3 | rewrite H2; exact H4].
  - assert (Hne : Vote.getHash v <> Vote.getHash w).
    { intros E. apply Hw. rewrite <- E. apply in_map, Hin. }
    apply IH; try assumption.
    + rewrite (proj1 (insert_block_vote_other tip st w _ Hne)). exact Hn.
    + rewrite insert_block_vote_proposals. exact Hp.
Qed.

Lemma spendVote_votes st ptr h t k v :
  votes st !! k = Some v ->
  exists v', votes (spendVote st ptr h t) !! k = Some v'
             /\ (v' = v \/ v' = Vote.spend v h t).
Proof.
  intros Hk. unfold spendVote.
  destruct (deref st ptr) as [v0|]; [|exists v; tauto].
  destruct (proposals st !! Vote.proposal v0) as [p|]; [|exists v; tauto].
  destruct (Proposal.superblock p <? h); [exists v; tauto|].
  cbn [votes set_votes]. rewrite store_votes.
  destruct (decide (Vote.getHash (Vote.spend v0 h t) = k)) as [E|Hne].
  - rewrite E, lookup_insert_eq. unfold votes_at. rewrite store_votes, Hk.
    exists (Vote.spend v h t). tauto.
  - rewrite lookup_insert_ne by exact Hne. exists v. tauto.
Qed.

Lemma spendVote_deref st ptr' h t ptr v :
  deref st ptr = Some v ->
  exists v', deref (spendVote st ptr' h t) ptr = Some v'
             /\ (v' = v \/ v' = Vote.spend v h t).
Proof.
  intros Hd. destruct (decide (ptr = ptr')) as [<-|Hne].
  - unfold spendVote. rewrite Hd.
    destruct (proposals st !! Vote.proposal v) as [p|]; [|exists v; tauto].
    destruct (Proposal.superblock p <? h); [exists v; tauto|].
    exists (Vote.spend v h t). split; [|tauto].
    unfold deref at 1. cbn [sbvotes set_votes]. apply (store_deref st ptr v _ Hd).
  - rewrite spendVote_deref_ne by exact Hne. exists v. tauto.
Qed.

Lemma spend_block_votes_marks block h st k ptr v w :
  votes st !! k = Some v -> deref st ptr = Some w ->
  (exists v', votes (spend_block_votes block h st) !! k = Some v'
              /\ (v' = v \/ exists t, v' = Vote.spend v h t))
  /\ (exists w', deref (spend_block_votes block h st) ptr = Some w'
                 /\ (w' = w \/ exists t, w' = Vote.spend w h t)).
Proof.
  unfold spend_block_votes. generalize (svotes_of st h). intros ptrs.
  assert (Hgen : forall st0 v0 w0,
             votes st0 !! k = Some v0 -> deref st0 ptr = Some w0 ->
             (v0 = v \/ exists t, v0 = Vote.spend v h t) ->
             (w0 = w \/ exists t, w0 = Vote.spend w h t) ->
             (exists v', votes (fold_left (spend_iter block h) ptrs st0) !! k
                         = Some v'
                         /\ (v' = v \/ exists t, v' = Vote.spend v h t))
             /\ (exists w', deref (fold_left (spend_iter block h) ptrs st0) ptr
                            = Some w'
                            /\ (w' = w \/ exists t, w' = Vote.spend w h t))).
  { induction ptrs as [|ptr' ptrs IH]; intros st0 v0 w0 Hk Hd Rv Rw; simpl.
    - split; [exists v0 | exists w0]; tauto.
    - unfold spend_iter at 2 4.
      destruct (deref st0 ptr') as [vote|]; [|eapply IH; eassumption].
      destruct (prevouts_of block !! COutPoint_key (Vote.utxo vote)) as [t|];
        [|eapply IH; eassumption].
      destruct (spendVote_votes st0 ptr' h t k v0 Hk) as [v1 [Hk1 R1]].
      destruct (spendVote_deref st0 ptr' h t ptr w0 Hd) as [w1 [Hd1 S1]].
      apply (IH _ v1 w1 Hk1 Hd1).
      + destruct R1 as [->| ->]; [exact Rv|]. right.
        destruct Rv as [->|[t0 ->]]; exists t; reflexivity.
      + destruct S1 as [->| ->]; [exact Rw|]. right.
        destruct Rw as [->|[t0 ->]]; exists t; reflexivity. }
  intros Hk Hd. apply (Hgen st v w Hk Hd); left; reflexivity.
Qed.

(** The votes of a block are in the store once the block is processed: a
    vote [dataFromBlock] extracts for [processBlock], whose hash was free
    in [votes], whose proposal is in the store afterwards and, when the
    chain tip is processed, whose utxo is unspent, is found under its hash
    in [votes] and in the bucket of its proposal's superblock, as
    extracted or, when the block spends its utxo, marked spent at the
    height of the block. *)
Theorem processBlock_records_votes (st st' : State) (block : CBlock) (h : Z)
        (params : Consensus.Params) (tip : bool) (ps : list Proposal.t)
        (vs : list Vote.t) (v : Vote.t) (p : Proposal.t) :
  dataFromBlock st block [] [] params (Some h) tip = Return (ps, vs) ->
  processBlock st block h params tip = Return st' ->
  In v vs ->
  votes st !! Vote.getHash v = None ->
  proposals st' !! Vote.proposal v = Some p ->
  (tip = true -> Vote.IsVoteSpent v false = false) ->
  (exists v', votes st' !! Vote.getHash v = Some v'
              /\ (v' = v \/ exists t, v' = Vote.spend v h t))
  /\ (exists v', deref st' (Proposal.superblock p, Vote.getHash v) = Some v'
                 /\ (v' = v \/ exists t, v' = Vote.spend v h t)).
Proof.
  intros Ed Hpb Hin Hn Hp Hs.
  destruct (processBlock_proposals _ _ _ _ _ _ Hpb) as (ps0 & vs0 & Ed0 & Eprop).
  rewrite Ed in Ed0. injection Ed0 as <- <-.
  unfold processBlock in Hpb. rewrite Ed in Hpb. cbn [exc_bind] in Hpb.
  set (st1 := fold_left addProposal ps st) in *.
  set (st2 := fold_left (insert_block_vote tip) vs st1) in *.
  assert (Hp1 : proposals st1 !! Vote.proposal v = Some p)
    by (rewrite <- Eprop; exact Hp).
  assert (Hn1 : votes st1 !! Vote.getHash v = None).
  { unfold st1. clear -Hn. revert st Hn.
    induction ps as [|q ps IH]; intros st Hn; simpl; [exact Hn|].
    apply IH. unfold addProposal.
    destruct (proposals st !! Proposal.getHash q); exact Hn. }
  destruct (fold_insert_block_vote_new tip vs st1 v p) as [H1 H2]; try assumption.
  { apply key_sorted_NoDup. eapply dataFromBlock_sorted, Ed. }
  fold st2 in H1, H2.
  destruct (negb tip || bool_decide (votes st2 = ∅)); injection Hpb as <-.
  - split; exists v; tauto.
  - apply spend_block_votes_marks; assumption.
Qed.
End ConnectVotes.

(** ** Vote counts are backed by coins *)
Section TallyCounts.
Context `{Ext : Externals}.
Import Governance.

Lemma sum_amounts_nonneg (l : list Vote.t) :
  (forall v, In v l -> 0 <= Vote.amount v) -> 0 <= sum_amounts l.
Proof.
  induction l as [|v l IH]; intros H; simpl; [lia|].
  unfold sum_amounts in *. simpl.
  pose proof (H v (or_introl eq_refl)).
  assert (0 <= fold_right (fun v acc => Vote.amount v + acc) 0 l)
    by (apply IH; intros; apply H; right; assumption).
  lia.
Qed.

Lemma kind_amount_bounds (K : Z) (l : list Vote.t) :
  (forall v, In v l -> 0 <= Vote.amount v) ->
  0 <= kind_amount K l <= sum_amounts l.
Proof.
  induction l as [|v l IH]; intros H.
  - unfold kind_amount, sum_amounts. simpl. lia.
  - rewrite kind_amount_cons.
    pose proof (H v (or_introl eq_refl)).
    assert (0 <= kind_amount K l <= sum_amounts l)
      by (apply IH; intros; apply H; right; assumption).
    unfold sum_amounts in *. simpl.
    destruct (Vote.getVote v =? K); lia.
Qed.

Lemma kinds_disjoint_sum (l : list Vote.t) :
  (forall v, In v l -> 0 <= Vote.amount v) ->
  kind_amount YES l + kind_amount NO l + kind_amount ABSTAIN l <= sum_amounts l.
Proof.
  induction l as [|v l IH]; intros H.
  - unfold kind_amount, sum_amounts. simpl. lia.
  - rewrite !kind_amount_cons.
    pose proof (H v (or_introl eq_refl)).
    assert (kind_amount YES l + kind_amount NO l + kind_amount ABSTAIN l
            <= sum_amounts l)
      by (apply IH; intros; apply H; right; assumption).
    unfold sum_amounts in *. simpl. unfold YES, NO, ABSTAIN in *.
    destruct (Vote.getVote v =? 1) eqn:E1;
      destruct (Vote.getVote v =? 0) eqn:E0;
      destruct (Vote.getVote v =? 2) eqn:E2; lia.
Qed.

Lemma sum_amounts_incl (l m : list Vote.t) :
  List.NoDup l -> incl l m -> (forall v, In v m -> 0 <= Vote.amount v) ->
  sum_amounts l <= sum_amounts m.
Proof.
  revert m. induction l as [|x l IH]; intros m Hnd Hincl Hm.
  - simpl. apply sum_amounts_nonneg, Hm.
  - apply List.NoDup_cons_iff in Hnd. destruct Hnd as [Hx Hnd].
    assert (Hin : In x m) by (apply Hincl; left; reflexivity).
    apply in_split in Hin. destruct Hin as (m1 & m2 & ->).
    assert (Hperm : Permutation (m1 ++ x :: m2) (x :: m1 ++ m2))
      by (symmetry; apply Permutation_middle).
    rewrite (sum_amounts_perm _ _ Hperm).
    assert (IH' : sum_amounts l <= sum_amounts (m1 ++ m2)).
    { apply IH; [exact Hnd| |].
      - intros y Hy. assert (Hy' : In y (m1 ++ x :: m2)) by (apply Hincl; right; exact Hy).
        apply in_app_iff in Hy'. apply in_app_iff.
        destruct Hy' as [H|[H|H]]; [left; exact H| |right; exact H].
        subst y. contradiction.
      - intros v Hv. apply Hm. apply in_app_iff in Hv. apply in_app_iff.
        simpl. tauto. }
    unfold sum_amounts in *. simpl. lia.
Qed.

Lemma kind_amount_concat (K : Z) (groups : list (list Vote.t)) :
  kind_amount K (concat groups) = zsum (List.map (kind_amount K) groups).
Proof.
  induction groups as [|g groups IH]; simpl; [reflexivity|].
  rewrite kind_amount_app, IH. reflexivity.
Qed.

Lemma quot_sum_bound (B : Z) (cs : list Z) :
  0 < B -> Forall (fun c => 0 <= c) cs ->
  0 <= zsum (List.map (fun c => Z.quot c B) cs)
  /\ zsum (List.map (fun c => Z.quot c B) cs) * B <= zsum cs
  /\ Forall (fun c => 0 <= Z.quot c B <= Z.quot (zsum cs) B) cs.
Proof.
  intros HB H. induction H as [|c cs Hc Hcs IH]; simpl.
  - split; [lia|]. split; [lia | constructor].
  - destruct IH as (I1 & I2 & I3).
    assert (Hq : 0 <= Z.quot c B) by (apply Z.quot_pos; lia).
    assert (Hm : Z.quot c B * B <= c).
    { rewrite Z.mul_comm. apply Z.mul_quot_le; lia. }
    assert (Hs : 0 <= zsum cs).
    { clear -Hcs. induction Hcs; simpl; [lia|]. unfold zsum in *. simpl. lia. }
    split; [lia|]. split; [lia|].
    constructor.
    + split; [exact Hq|]. apply Z.quot_le_mono; lia.
    + eapply List.Forall_impl; [|exact I3]. cbv beta. intros a [Ha1 Ha2].
      split; [exact Ha1|]. etransitivity; [exact Ha2|].
      apply Z.quot_le_mono; lia.
Qed.

Lemma add_tally_fold32 (ts : list Tally) (T : Tally) (y n a : Z) :
  yes T = to_int32 y -> no T = to_int32 n -> abstain T = to_int32 a ->
  let T' := fold_left add_tally ts T in
  yes T' = to_int32 (y + zsum (List.map yes ts))
  /\ no T' = to_int32 (n + zsum (List.map no ts))
  /\ abstain T' = to_int32 (a + zsum (List.map abstain ts)).
Proof.
  revert T y n a. induction ts as [|t ts IH]; intros T y n a Hy Hn Ha; simpl.
  - rewrite !Z.add_0_r. tauto.
  - rewrite !Z.add_assoc.
    apply IH; simpl; rewrite ?Hy, ?Hn, ?Ha; unfold to_int32;
      rewrite wrap_signed_add_l; reflexivity.
Qed.

Lemma fold_right_zsum {A} (f : A -> Z) (l : list A) :
  fold_right (fun t acc => f t + acc) 0 l = zsum (List.map f l).
Proof. induction l as [|x l IH]; simpl; [reflexivity | rewrite IH; reflexivity]. Qed.

Lemma count_exact (B c : Z) :
  0 < B -> 0 <= c -> c < 2 ^ 31 * B ->
  (let k := to_int32 (Z.quot c B) in if k <? 0 then 0 else k) = Z.quot c B.
Proof.
  intros HB Hc Hlt. cbv zeta.
  assert (Hq : 0 <= Z.quot c B) by (apply Z.quot_pos; lia).
  assert (Hq2 : Z.quot c B < 2 ^ 31).
  { apply Z.quot_lt_upper_bound; lia. }
  rewrite to_int32_small by (unfold in_int32, INT32_MAX; lia).
  destruct (Z.ltb_spec (Z.quot c B) 0); lia.
Qed.

Lemma user_tally_counts (params : Consensus.Params) (g : list Vote.t) :
  0 < Consensus.voteBalance params ->
  (forall v, In v g -> 0 <= Vote.amount v) ->
  sum_amounts g <= INT64_MAX ->
  sum_amounts g < 2 ^ 31 * Consensus.voteBalance params ->
  let B := Consensus.voteBalance params in
  let T := user_tally params g in
  cyes T = kind_amount YES g /\ yes T = Z.quot (kind_amount YES g) B
  /\ cno T = kind_amount NO g /\ no T = Z.quot (kind_amount NO g) B
  /\ cabstain T = kind_amount ABSTAIN g
  /\ abstain T = Z.quot (kind_amount ABSTAIN g) B.
Proof.
  intros HB Hg H64 H32 B T.
  destruct (user_tally_amounts params g) as (Uy & Un & Ua).
  pose proof (kind_amount_bounds YES g Hg) as By.
  pose proof (kind_amount_bounds NO g Hg) as Bn.
  pose proof (kind_amount_bounds ABSTAIN g Hg) as Ba.
  assert (Ey : cyes T = kind_amount YES g).
  { unfold T. rewrite Uy. apply to_int64_small.
    unfold in_int64, INT64_MAX in *. lia. }
  assert (En : cno T = kind_amount NO g).
  { unfold T. rewrite Un. apply to_int64_small.
    unfold in_int64, INT64_MAX in *. lia. }
  assert (Ea : cabstain T = kind_amount ABSTAIN g).
  { unfold T. rewrite Ua. apply to_int64_small.
    unfold in_int64, INT64_MAX in *. lia. }
  split; [exact Ey|]. split.
  { change (yes T) with (let k := to_int32 (Z.quot (cyes T) B) in
                         if k <? 0 then 0 else k).
    rewrite Ey. apply count_exact; unfold B; lia. }
  split; [exact En|]. split.
  { change (no T) with (let k := to_int32 (Z.quot (cno T) B) in
                        if k <? 0 then 0 else k).
    rewrite En. apply count_exact; unfold B; lia. }
  split; [exact Ea|].
  change (abstain T) with (let k := to_int32 (Z.quot (cabstain T) B) in
                           if k <? 0 then 0 else k).
  rewrite Ea. apply count_exact; unfold B; lia.
Qed.

Lemma sum_amounts_concat_ge (groups : list (list Vote.t)) (g : list Vote.t) :
  (forall v, In v (concat groups) -> 0 <= Vote.amount v) ->
  In g groups -> sum_amounts g <= sum_amounts (concat groups).
Proof.
  induction groups as [|g0 groups IH]; intros Hnn Hin; [destruct Hin|].
  simpl in *. rewrite sum_amounts_app.
  assert (H0 : 0 <= sum_amounts g0).
  { apply sum_amounts_nonneg. intros v Hv. apply Hnn, in_app_iff. tauto. }
  assert (H1 : 0 <= sum_amounts (concat groups)).
  { apply sum_amounts_nonneg. intros v Hv. apply Hnn, in_app_iff. tauto. }
  destruct Hin as [->|Hin]; [lia|].
  assert (sum_amounts g <= sum_amounts (concat groups)).
  { apply IH; [|exact Hin]. intros v Hv. apply Hnn, in_app_iff. tauto. }
  lia.
Qed.

(** Every counted vote is backed by coins.  For votes with non-negative
    amounts whose total on the proposal is a 64-bit amount below
    [2^31 * voteBalance], and a positive [voteBalance]: the three counts
    of the tally are not negative, each count times [voteBalance] is at
    most the coin amount of its kind, and the three coin amounts together
    are at most the total of the votes on the proposal.  Splitting coins
    over several users never gives more votes than the coins pooled. *)
Theorem getTally_counts_backed (proposal : Z) (votes : list Vote.t)
        (params : Consensus.Params) :
  let B := Consensus.voteBalance params in
  let pv := proposalVotes_of proposal votes in
  let T := getTally proposal votes params in
  0 < B ->
  (forall v, In v votes -> 0 <= Vote.amount v) ->
  sum_amounts pv <= INT64_MAX ->
  sum_amounts pv < 2 ^ 31 * B ->
  (0 <= yes T /\ yes T * B <= cyes T)
  /\ (0 <= no T /\ no T * B <= cno T)
  /\ (0 <= abstain T /\ abstain T * B <= cabstain T)
  /\ cyes T + cno T + cabstain T <= sum_amounts pv.
Proof.
  intros B pv T HB Hnn H64 H32.
  pose proof (getTally_loop_inv proposal votes params) as Hinv.
  fold pv in Hinv.
  destruct Hinv as (Hs & Hw & (groups & Hg1 & Hg2) & _).
  set (counted := fst (getTally_loop proposal votes params)) in *.
  assert (Hpv : forall v, In v pv -> 0 <= Vote.amount v).
  { intros v Hv. apply Hnn. apply filter_In in Hv. tauto. }
  assert (Hc : forall v, In v counted -> 0 <= Vote.amount v)
    by (intros v Hv; apply Hpv, Hw, Hv).
  assert (Hcs : sum_amounts counted <= sum_amounts pv).
  { apply sum_amounts_incl; [|exact Hw | exact Hpv].
    apply (List.NoDup_map_inv Vote.getHash), key_sorted_NoDup, Hs. }
  assert (Hcg : forall v, In v (concat groups) -> 0 <= Vote.amount v).
  { intros v Hv. apply Hc. apply (Permutation_in _ Hg2), Hv. }
  assert (Hgs : forall g, In g groups ->
              (forall v, In v g -> 0 <= Vote.amount v)
              /\ sum_amounts g <= INT64_MAX
              /\ sum_amounts g < 2 ^ 31 * B).
  { intros g Hg.
    pose proof (sum_amounts_concat_ge groups g Hcg Hg) as Hle.
    rewrite (sum_amounts_perm _ _ Hg2) in Hle.
    split; [|lia].
    intros v Hv. apply Hcg. apply in_concat. exists g. tauto. }
  assert (Hmap : forall (K : Z) (selc seln : Tally -> Z),
             (forall g, In g groups ->
                selc (user_tally params g) = kind_amount K g
                /\ seln (user_tally params g) = Z.quot (kind_amount K g) B) ->
             zsum (List.map selc (snd (getTally_loop proposal votes params)))
             = kind_amount K counted
             /\ 0 <= zsum (List.map seln (snd (getTally_loop proposal votes params)))
             /\ zsum (List.map seln (snd (getTally_loop proposal votes params))) * B
                <= kind_amount K counted).
  { intros K selc seln Hsel. rewrite Hg1, !List.map_map.
    rewrite <- (kind_amount_perm K _ _ Hg2), kind_amount_concat.
    assert (E1 : List.map (fun g => selc (user_tally params g)) groups
                 = List.map (kind_amount K) groups)
      by (apply map_ext_in; intros g Hg; apply (Hsel g Hg)).
    assert (E2 : List.map (fun g => seln (user_tally params g)) groups
                 = List.map (fun c => Z.quot c B) (List.map (kind_amount K) groups)).
    { rewrite List.map_map. apply map_ext_in. intros g Hg. apply (Hsel g Hg). }
    rewrite E1, E2. split; [reflexivity|].
    destruct (quot_sum_bound B (List.map (kind_amount K) groups) HB) as (Q1 & Q2 & _).
    { apply List.Forall_forall. intros c Hcin. apply in_map_iff in Hcin.
      destruct Hcin as [g [<- Hg]].
      apply (kind_amount_bounds K g), (Hgs g Hg). }
    tauto. }
  assert (Hut : forall g, In g groups ->
              let U := user_tally params g in
              cyes U = kind_amount YES g /\ yes U = Z.quot (kind_amount YES g) B
              /\ cno U = kind_amount NO g /\ no U = Z.quot (kind_amount NO g) B
              /\ cabstain U = kind_amount ABSTAIN g
              /\ abstain U = Z.quot (kind_amount ABSTAIN g) B).
  { intros g Hg. destruct (Hgs g Hg) as (G1 & G2 & G3).
    apply user_tally_counts; assumption. }
  destruct (Hmap YES cyes yes) as (Cy & Py & My);
    [intros g Hg; destruct (Hut g Hg) as (? & ? & _); tauto|].
  destruct (Hmap NO cno no) as (Cn & Pn & Mn);
    [intros g Hg; destruct (Hut g Hg) as (_ & _ & ? & ? & _); tauto|].
  destruct (Hmap ABSTAIN cabstain abstain) as (Ca & Pa & Ma);
    [intros g Hg; destruct (Hut g Hg) as (_ & _ & _ & _ & ? & ?); tauto|].
  pose proof (kind_amount_bounds YES counted Hc) as By.
  pose proof (kind_amount_bounds NO counted Hc) as Bn.
  pose proof (kind_amount_bounds ABSTAIN counted Hc) as Ba.
  pose proof (kinds_disjoint_sum counted Hc) as Hdis.
  destruct (add_tally_fold (snd (getTally_loop proposal votes params))
                           Tally_init 0 0 0) as (Fy & Fn & Fa);
    try reflexivity.
  destruct (add_tally_fold32 (snd (getTally_loop proposal votes params))
                             Tally_init 0 0 0) as (Gy & Gn & Ga);
    try reflexivity.
  rewrite !Z.add_0_l in Fy, Fn, Fa, Gy, Gn, Ga.
  rewrite fold_right_zsum in Fy, Fn, Fa.
  rewrite Cy in Fy. rewrite Cn in Fn. rewrite Ca in Fa.
  rewrite to_int64_small in Fy by (unfold in_int64, INT64_MAX in *; lia).
  rewrite to_int64_small in Fn by (unfold in_int64, INT64_MAX in *; lia).
  rewrite to_int64_small in Fa by (unfold in_int64, INT64_MAX in *; lia).
  assert (Hfit : forall z k, 0 <= z -> z * B <= k -> k <= sum_amounts counted ->
                             in_int32 z).
  { intros z k Hz Hzk Hk. unfold in_int32, INT32_MAX. split; [lia|].
    assert (z < 2 ^ 31); [|lia]. nia. }
  rewrite to_int32_small in Gy by (eapply Hfit; [exact Py | exact My | lia]).
  rewrite to_int32_small in Gn by (eapply Hfit; [exact Pn | exact Mn | lia]).
  rewrite to_int32_small in Ga by (eapply Hfit; [exact Pa | exact Ma | lia]).
  unfold T, getTally. rewrite Fy, Fn, Fa, Gy, Gn, Ga.
  split; [split; assumption|]. split; [split; assumption|].
  split; [split; assumption|]. lia.
Qed.
End TallyCounts.

(** ** The further properties on the worked chain *)
Module ChainFacts.
Import Governance Scenario.

Lemma addVote_records_vote_witness :
  proposals st140 !! Vote.proposal recorded = Some stored_alpha
  /\ votes (addVote st140 recorded) !! Vote.getHash recorded = Some recorded
  /\ deref (addVote st140 recorded)
           (Proposal.superblock stored_alpha, Vote.getHash recorded)
     = Some recorded.
Proof.
  assert (H : proposals st140 !! Vote.proposal recorded = Some stored_alpha)
    by (vm_compute; reflexivity).
  split; [exact H|].
  destruct (addVote_records_vote st140 recorded stored_alpha H) as (H1 & H2 & _).
  split; [exact H1 | exact H2].
Defined.

Lemma addVote_change_of_vote_witness :
  addVote (addVote st140 (cast NO)) (cast YES) = addVote st140 (cast YES).
Proof.
  apply (addVote_change_of_vote st140 (cast NO) (cast YES)); reflexivity.
Defined.

Lemma removeVote_after_addVote_witness :
  proposals st140 !! Vote.proposal recorded = Some stored_alpha
  /\ votes st140 !! Vote.getHash recorded = None
  /\ sbvotes st140 !! Proposal.superblock stored_alpha = None
  /\ removeVote (addVote st140 recorded) recorded <> st140.
Proof.
  assert (H1 : proposals st140 !! Vote.proposal recorded = Some stored_alpha)
    by (vm_compute; reflexivity).
  assert (H2 : votes st140 !! Vote.getHash recorded = None)
    by (vm_compute; reflexivity).
  assert (H3 : sbvotes st140 !! Proposal.superblock stored_alpha = None)
    by (vm_compute; reflexivity).
  split; [exact H1|]. split; [exact H2|]. split; [exact H3|].
  destruct (removeVote_after_addVote st140 recorded stored_alpha H1 H2) as [_ Hnew].
  exact (proj2 (Hnew H3)).
Defined.

Lemma processBlock_keeps_stored_proposals_witness :
  processBlock st140 vote_block 150 params true = Return st150
  /\ proposals st150 !! Proposal.getHash alpha = Some stored_alpha.
Proof.
  assert (H : processBlock st140 vote_block 150 params true = Return st150)
    by (vm_compute; reflexivity).
  split; [exact H|].
  apply (processBlock_keeps_stored_proposals st140 st150 vote_block 150 params
           true (Proposal.getHash alpha) stored_alpha H).
  vm_compute. reflexivity.
Defined.

Lemma spend_block_votes_marks_spent_witness :
  deref (spend_block_votes spend_block 160 st150) recorded_ptr
  = Some (Vote.spend recorded 160 33).
Proof.
  apply (spend_block_votes_marks_spent spend_block 160 st150 recorded_ptr
           recorded stored_alpha 33).
  - vm_compute. left. reflexivity.
  - vm_compute. reflexivity.
  - vm_compute. reflexivity.
  - vm_compute. reflexivity.
  - vm_compute. discriminate.
Defined.

Lemma NextSuperblock_brackets_witness :
  PreviousSuperblock params 150 0 <= 150 < NextSuperblock params 150 0
  /\ NextSuperblock params 150 0
     = PreviousSuperblock params 150 0 + Consensus.superblock params
  /\ isSuperblock (NextSuperblock params 150 0) params = true.
Proof.
  destruct (NextSuperblock_brackets params 150 0) as (H1 & H2 & _ & _ & _ & H6).
  - vm_compute. reflexivity.
  - vm_compute. discriminate.
  - vm_compute. discriminate.
  - split; [exact H1|]. split; [exact H2|]. apply H6. vm_compute. discriminate.
Defined.

Lemma insideVoteCutoff_complements_witness :
  insideVoteCutoff (Proposal.superblock stored_alpha) 195 params
  = negb (outsideVotingCutoff stored_alpha 195 params).
Proof.
  apply (insideVoteCutoff_complements stored_alpha 195 params).
  - vm_compute. reflexivity.
  - vm_compute. discriminate.
Defined.

Lemma Proposal_wire_roundtrip_witness :
  exists q,
    Proposal.Unserialize (Proposal.init 140) (Proposal.Serialize alpha ++ [])
    = Some (q, [])
    /\ Proposal.blockNumber q = Proposal.blockNumber (Proposal.init 140)
    /\ Proposal.Serialize q = Proposal.Serialize alpha
    /\ Proposal.getHash q = Proposal.getHash alpha
    /\ (Proposal.blockNumber alpha = Proposal.blockNumber (Proposal.init 140) ->
        q = alpha).
Proof.
  apply (Proposal_wire_roundtrip alpha (Proposal.init 140) []);
    vm_compute; first [ discriminate | split; discriminate
                      | split; [discriminate | reflexivity] ].
Defined.

Lemma Vote_wire_roundtrip_witness :
  exists v',
    Vote.Unserialize (Vote.init {| op_hash := 21; op_n := 0 |} 1500 150)
                     (Vote.Serialize (cast YES) ++ [])
    = Some (v', [])
    /\ Vote.getHash v' = Vote.getHash (cast YES)
    /\ Vote.blockNumber v'
       = Vote.blockNumber (Vote.init {| op_hash := 21; op_n := 0 |} 1500 150).
Proof.
  assert (H1 : 0 <= Vote.version (cast YES) < 256)
    by (vm_compute; split; [discriminate | reflexivity]).
  assert (H2 : 0 <= Vote.type (cast YES) < 256)
    by (vm_compute; split; [discriminate | reflexivity]).
  assert (H3 : 0 <= Vote.proposal (cast YES) < 2 ^ 256)
    by (vm_compute; split; [discriminate | reflexivity]).
  assert (H4 : 0 <= Vote.vote (cast YES) < 256)
    by (vm_compute; split; [discriminate | reflexivity]).
  assert (H5 : 0 <= op_hash (Vote.utxo (cast YES)) < 2 ^ 256)
    by (vm_compute; split; [discriminate | reflexivity]).
  assert (H6 : 0 <= op_n (Vote.utxo (cast YES)) < 2 ^ 32)
    by (vm_compute; split; [discriminate | reflexivity]).
  assert (H7 : List.length (Vote.vinhash (cast YES)) = VINHASH_SIZE)
    by (vm_compute; reflexivity).
  assert (H8 : Z.of_nat (List.length (Vote.signature (cast YES))) <= MAX_SIZE)
    by (vm_compute; discriminate).
  destruct (Vote_wire_roundtrip (cast YES)
              (Vote.init {| op_hash := 21; op_n := 0 |} 1500 150) []
              H1 H2 H3 H4 H5 H6 H7 H8)
    as (v' & E1 & _ & E3 & _ & _ & _ & _ & E8 & _).
  exists v'. split; [exact E1|]. split; [exact E3 | exact E8].
Defined.

Lemma dataFromBlock_adds_checked_items_witness :
  dataFromBlock st140 vote_block [] [] params (Some 150) true
  = Return ([], [recorded])
  /\ (forall v, In v [recorded] ->
        In v []
        \/ exists tx, In tx (vtx vote_block) /\ IsCoinBase tx = false
                      /\ checked_vote st140 vote_block tx params (Some 150) true v).
Proof.
  assert (H : dataFromBlock st140 vote_block [] [] params (Some 150) true
              = Return ([], [recorded])) by (vm_compute; reflexivity).
  split; [exact H|].
  exact (proj2 (dataFromBlock_adds_checked_items st140 vote_block [] [] params
                  (Some 150) true [] [recorded] H)).
Defined.

Lemma dataFromBlock_sets_grow_witness :
  key_sorted Proposal.getHash [stored_alpha]
  /\ List.NoDup (List.map Vote.getHash [recorded])
  /\ (forall p, In p [stored_alpha] -> In p [stored_alpha]).
Proof.
  assert (Hps : key_sorted Proposal.getHash [stored_alpha])
    by (repeat constructor).
  assert (Hvs : key_sorted Vote.getHash []) by constructor.
  assert (H : dataFromBlock st140 vote_block [stored_alpha] [] params (Some 150)
                            true
              = Return ([stored_alpha], [recorded])) by (vm_compute; reflexivity).
  destruct (dataFromBlock_sets_grow st140 vote_block [stored_alpha] [] params
              (Some 150) true [stored_alpha] [recorded] Hps Hvs H)
    as (H1 & _ & _ & H4 & H5 & _).
  split; [exact H1|]. split; [exact H4 | exact H5].
Defined.

Lemma dataFromBlock_without_op_return_witness :
  dataFromBlock st150 spend_block [] [] params (Some 160) true = Return ([], []).
Proof.
  apply (dataFromBlock_without_op_return st150 spend_block [] [] params
           (Some 160) true).
  intros tx [<-|[<-|[]]] Hcb; [discriminate Hcb|].
  constructor; [|constructor]. vm_compute. discriminate.
Defined.

Lemma dataFromOut_reads_proposal_witness :
  dataFromOut reset proposal_block funding params (Some 140) true 0
              (op_return (Proposal.Serialize stored_alpha)) ([], [])
  = Return (set_insert Proposal.getHash stored_alpha [], []).
Proof.
  apply (dataFromOut_reads_proposal reset proposal_block funding params 140 true
           0 stored_alpha [] []).
  - vm_compute. split; discriminate.
  - vm_compute. split; discriminate.
  - vm_compute. lia.
  - vm_compute. reflexivity.
  - reflexivity.
  - vm_compute. reflexivity.
Defined.

Lemma getTally_counts_every_vote_witness :
  List.NoDup (List.map Vote.getHash
                (proposalVotes_of (Proposal.getHash alpha) [recorded]))
  /\ Permutation (fst (getTally_loop (Proposal.getHash alpha) [recorded] params))
                 (proposalVotes_of (Proposal.getHash alpha) [recorded]).
Proof.
  assert (H : List.NoDup (List.map Vote.getHash
                            (proposalVotes_of (Proposal.getHash alpha) [recorded]))).
  { vm_compute. constructor; [intros [] | constructor]. }
  split; [exact H|].
  destruct (getTally_counts_every_vote (Proposal.getHash alpha) [recorded] params)
    as [_ Hnd].
  exact (proj1 (Hnd H)).
Defined.

Lemma getTally_counts_backed_witness :
  0 <= yes (getTally (Proposal.getHash alpha) [recorded] params)
  /\ yes (getTally (Proposal.getHash alpha) [recorded] params)
     * Consensus.voteBalance params
     <= cyes (getTally (Proposal.getHash alpha) [recorded] params).
Proof.
  destruct (getTally_counts_backed (Proposal.getHash alpha) [recorded] params)
    as (H & _).
  - vm_compute. reflexivity.
  - intros v [<-|[]]. vm_compute. discriminate.
  - vm_compute. discriminate.
  - vm_compute. reflexivity.
  - exact H.
Defined.

Lemma getSuperblockPayees_within_budget_witness :
  0 <= total_value (getSuperblockPayees 200 resultsAB (budget 120))
    <= superblockBudget 200 (budget 120)
  /\ (List.length (getSuperblockPayees 200 resultsAB (budget 120))
      <= List.length resultsAB)%nat.
Proof.
  destruct (getSuperblockPayees_within_budget 200 resultsAB (budget 120))
    as (H1 & _ & H3 & _).
  - vm_compute. split; discriminate.
  - intros r [<-|[<-|[]]]; vm_compute; split; discriminate.
  - split; [exact H1 | exact H3].
Defined.

Lemma isValidSuperblock_accepts_paid_witness :
  isValidSuperblock st150 superblock_200 200 params 0 = (true, 100 * COIN)
  /\ isSuperblock 200 params = true /\ IsProofOfStake superblock_200 = true.
Proof.
  assert (Htx : nth_error (vtx superblock_200) 1
                = Some {| tx_GetHash := 40;
                          vin := [ {| prevout := {| op_hash := 9; op_n := 0 |} |} ];
                          vout := [pay 7;
                                   {| nValue := 100 * COIN;
                                      scriptPubKey :=
                                        GetScriptForDestination
                                          (DecodeDestination "addr"%string) |};
                                   pay 1];
                          IsCoinBase := false |}) by reflexivity.
  assert (H : isValidSuperblock st150 superblock_200 200 params 0
              = (true, 100 * COIN)) by (vm_compute; reflexivity).
  split; [exact H|].
  destruct (isValidSuperblock_accepts_paid st150 superblock_200 200 params 0
              (100 * COIN) _ Htx H) as (H1 & H2 & _).
  split; [exact H1 | exact H2].
Defined.

Lemma BlockDisconnected_only_removes_witness :
  BlockDisconnected st160 spend_block 160 params
  = Return (run (BlockDisconnected st160 spend_block 160 params))
  /\ (forall k p,
        proposals (run (BlockDisconnected st160 spend_block 160 params)) !! k
        = Some p ->
        proposals st160 !! k = Some p).
Proof.
  assert (H : BlockDisconnected st160 spend_block 160 params
              = Return (run (BlockDisconnected st160 spend_block 160 params)))
    by (vm_compute; reflexivity).
  split; [exact H|].
  exact (proj1 (BlockDisconnected_only_removes st160 _ spend_block 160 params H)).
Defined.

Lemma BlockDisconnected_undoes_proposals_witness :
  processBlock reset proposal_block 140 params true = Return st140
  /\ BlockDisconnected st140 proposal_block 140 params
     = Return (run (BlockDisconnected st140 proposal_block 140 params))
  /\ proposals (run (BlockDisconnected st140 proposal_block 140 params))
     = proposals reset.
Proof.
  assert (H1 : processBlock reset proposal_block 140 params true = Return st140)
    by (vm_compute; reflexivity).
  assert (H2 : BlockDisconnected st140 proposal_block 140 params
               = Return (run (BlockDisconnected st140 proposal_block 140 params)))
    by (vm_compute; reflexivity).
  split; [exact H1|]. split; [exact H2|].
  apply (BlockDisconnected_undoes_proposals reset st140 _ proposal_block 140
           params true H1 H2).
  intros k p Hk. unfold reset in Hk. cbn [proposals] in Hk.
  rewrite lookup_empty in Hk. discriminate Hk.
Defined.

Lemma hasVote_utxo_finds_listed_witness :
  hasVote_utxo st150 (Proposal.getHash alpha) (Vote.getVote recorded)
               (Vote.utxo recorded) = true.
Proof.
  apply (hasVote_utxo_finds_listed st150 (Proposal.getHash alpha) recorded).
  vm_compute. left. reflexivity.
Defined.

Lemma isValid_name_shape_witness :
  (2 <= String.length (Proposal.name stored_alpha))%nat
  /\ exists first mid last,
       list_ascii_of_string (Proposal.name stored_alpha) = first :: mid ++ [last]
       /\ In first word_chars /\ In last word_chars
       /\ Forall (fun c => In c name_chars) mid.
Proof.
  apply (isValid_name_shape stored_alpha params). vm_compute. reflexivity.
Defined.

(** Names the check refuses and names it accepts: a single character, a
    blank or a dash at either end, a dot, a letter outside ASCII; two
    characters, and dashes, blanks and underscores inside. *)
Example rrname_refuses :
  List.map Proposal.rrname
    [""; "a"; " ab"; "ab "; "-ab"; "ab-"; "a.b";
     "a/"; "a:"; "a@"; "a["; "a`"; "a{"]%string
  = [false; false; false; false; false; false; false;
     false; false; false; false; false; false].
Proof. vm_compute. reflexivity. Qed.

Example rrname_accepts :
  List.map Proposal.rrname
    ["ab"; "a1"; "_9"; "AZ"; "az"; "09"; "a b"; "a-b"; "a_b"; "Big - plan_2 Z"]%string
  = [true; true; true; true; true; true; true; true; true; true].
Proof. vm_compute. reflexivity. Qed.

Lemma isValid_payload_fits_witness :
  Z.of_nat (List.length (Proposal.Serialize stored_alpha))
  <= MAX_OP_RETURN_RELAY - 3.
Proof.
  apply (isValid_payload_fits stored_alpha params).
  - vm_compute. split; discriminate.
  - vm_compute. reflexivity.
Defined.

Lemma processBlock_records_proposals_witness :
  dataFromBlock reset proposal_block [] [] params (Some 140) true
  = Return ([stored_alpha], [])
  /\ proposals st140 !! Proposal.getHash stored_alpha
     = Some (default stored_alpha
                     (proposals reset !! Proposal.getHash stored_alpha)).
Proof.
  assert (H1 : dataFromBlock reset proposal_block [] [] params (Some 140) true
               = Return ([stored_alpha], [])) by (vm_compute; reflexivity).
  split; [exact H1|].
  apply (processBlock_records_proposals reset st140 proposal_block 140 params
           true [stored_alpha] [] stored_alpha H1).
  - vm_compute. reflexivity.
  - left. reflexivity.
Defined.

Lemma spendVote_ref_leaves_votes_witness :
  Vote.spent (fst (spendVote_ref st150 recorded 160 33)) = true
  /\ In recorded (getVotes (snd (spendVote_ref st150 recorded 160 33))).
Proof.
  destruct (spendVote_ref_leaves_votes st150 recorded stored_alpha 160 33)
    as (_ & H2 & _ & _ & _ & H6 & _).
  - vm_compute. reflexivity.
  - vm_compute. reflexivity.
  - vm_compute. reflexivity.
  - vm_compute. reflexivity.
  - vm_compute. split; [reflexivity | discriminate].
  - split; [exact H2 | exact H6].
Defined.

Lemma isVoteInTxOut_finds_vote_witness :
  exists v',
    isVoteInTxOut (op_return (Vote.Serialize (cast YES)))
                  (Vote.init Vote.null_outpoint 0 0)
    = Return (true, v')
    /\ Vote.getHash v' = Vote.getHash (cast YES).
Proof.
  assert (H1 : 0 <= Vote.version (cast YES) < 256)
    by (vm_compute; split; [discriminate | reflexivity]).
  assert (H2 : Vote.type (cast YES) = VOTE) by reflexivity.
  assert (H3 : 0 <= Vote.proposal (cast YES) < 2 ^ 256)
    by (vm_compute; split; [discriminate | reflexivity]).
  assert (H4 : 0 <= Vote.vote (cast YES) < 256)
    by (vm_compute; split; [discriminate | reflexivity]).
  assert (H5 : 0 <= op_hash (Vote.utxo (cast YES)) < 2 ^ 256)
    by (vm_compute; split; [discriminate | reflexivity]).
  assert (H6 : 0 <= op_n (Vote.utxo (cast YES)) < 2 ^ 32)
    by (vm_compute; split; [discriminate | reflexivity]).
  assert (H7 : List.length (Vote.vinhash (cast YES)) = VINHASH_SIZE)
    by (vm_compute; reflexivity).
  assert (H8 : (List.length (Vote.Serialize (cast YES)) < 256)%nat)
    by (vm_compute; lia).
  destruct (isVoteInTxOut_finds_vote (cast YES) (Vote.init Vote.null_outpoint 0 0)
              H1 H2 H3 H4 H5 H6 H7 H8) as (v' & E1 & _ & E3 & _).
  exists v'. split; [exact E1 | exact E3].
Defined.

Lemma isVoteInTxOut_short_data_throws_witness :
  isVoteInTxOut bare_op_return (Vote.init Vote.null_outpoint 0 0) = Throw.
Proof.
  apply (isVoteInTxOut_short_data_throws bare_op_return
           (Vote.init Vote.null_outpoint 0 0) (byte_of_Z OP_RETURN) []).
  - reflexivity.
  - vm_compute. reflexivity.
  - vm_compute. lia.
Defined.

Lemma processBlock_records_votes_witness :
  dataFromBlock st140 vote_block [] [] params (Some 150) true
  = Return ([], [recorded])
  /\ exists v', votes st150 !! Vote.getHash recorded = Some v'
                /\ (v' = recorded \/ exists t, v' = Vote.spend recorded 150 t).
Proof.
  assert (H1 : dataFromBlock st140 vote_block [] [] params (Some 150) true
               = Return ([], [recorded])) by (vm_compute; reflexivity).
  split; [exact H1|].
  assert (H2 : processBlock st140 vote_block 150 params true = Return st150)
    by (vm_compute; reflexivity).
  assert (H3 : In recorded [recorded]) by (left; reflexivity).
  assert (H4 : votes st140 !! Vote.getHash recorded = None)
    by (vm_compute; reflexivity).
  assert (H5 : proposals st150 !! Vote.proposal recorded = Some stored_alpha)
    by (vm_compute; reflexivity).
  assert (H6 : true = true -> Vote.IsVoteSpent recorded false = false)
    by (intros _; vm_compute; reflexivity).
  exact (proj1 (processBlock_records_votes st140 st150 vote_block 150 params
                  true [] [recorded] recorded stored_alpha H1 H2 H3 H4 H5 H6)).
Defined.

Lemma voteType_string_roundtrip_witness :
  voteTypeForString (fst (voteTypeToString ABSTAIN None)) YES = (true, ABSTAIN).
Proof. apply (voteType_string_roundtrip ABSTAIN YES None). reflexivity. Defined.

Lemma proposal_window_within_voting_window_witness :
  outsideVotingCutoff stored_alpha 140 params = true.
Proof.
  apply (proposal_window_within_voting_window stored_alpha 140 params).
  - vm_compute. repeat split; discriminate.
  - vm_compute. split; discriminate.
  - vm_compute. discriminate.
  - vm_compute. reflexivity.
Defined.

Lemma spend_unspend_keep_records_equal_witness :
  exists v', deref (spendVote st150 recorded_ptr 160 33) recorded_ptr = Some v'
             /\ votes (spendVote st150 recorded_ptr 160 33)
                !! Vote.getHash recorded = Some v'.
Proof.
  destruct (spend_unspend_keep_records_equal st150 recorded_ptr recorded 160 33)
    as [(v' & H1 & H2 & _) _].
  - vm_compute. reflexivity.
  - vm_compute. reflexivity.
  - exists v'. split; [exact H1 | exact H2].
Defined.
End ChainFacts.
